(** * A reliable chat protocol over TCP: frame codec, stop-and-wait client,
    session registry and router.

    Shallow embedding of [protocol.py], [client.py] and [server.py].
    Python integers are [Z], [bytes] objects are lists of [Byte.byte],
    [str] objects are lists of Unicode code points, dictionaries that are
    looked up by key are [gmap]s, and a raised exception is a [Raise]
    result.  The first part of the file holds the definitions, the second
    part the lemmas and the theorems about them. *)

From Stdlib Require Import ZArith NArith List Lia.
From Stdlib Require DecimalZ DecimalFacts DecimalPos DecimalN.
From Stdlib Require Import Init.Byte Strings.Byte Strings.String Strings.Ascii.
From stdpp Require Import functions gmap list.

Local Open Scope Z_scope.

Abbreviation bytes := (list Byte.byte).
Abbreviation pystr := (list N).

(** ** Python objects, exceptions and results *)
Module Py.

Inductive exn :=
| StructError
| ValueError
| OverflowError
| TypeError
| AttributeError
| UnicodeEncodeError
| UnicodeDecodeError
| JSONDecodeError
| RecursionError
| OSError
| IndexError
| FloatUnsupported.

Inductive result (A : Type) :=
| Return (a : A)
| Raise (e : exn).
Global Arguments Return {A} a.
Global Arguments Raise {A} e.

Global Instance result_ret : MRet result := λ A a, Return a.
Global Instance result_bind : MBind result := λ A B k r,
  match r with
  | Return a => k a
  | Raise e => Raise e
  end.
Global Instance result_fmap : FMap result := λ A B f r,
  match r with
  | Return a => Return (f a)
  | Raise e => Raise e
  end.

Global Instance exn_eq_dec : EqDecision exn.
Proof. solve_decision. Defined.

(** The objects [json.loads] can build, floats apart: a [float] has no
    counterpart here.  A [dict] keeps its insertion order. *)
#[warnings="-register-all"]
Inductive pyobj :=
| PyNone
| PyBool (b : bool)
| PyInt (z : Z)
| PyStr (s : pystr)
| PyList (l : list pyobj)
| PyDict (d : list (pystr * pyobj)).

(** A string literal of the source, as code points. *)
Definition u (s : string) : pystr :=
  map N_of_ascii (list_ascii_of_string s).

(** [d[k]] lookup in an insertion-ordered dictionary. *)
Fixpoint dict_lookup (k : pystr) (d : list (pystr * pyobj)) : option pyobj :=
  match d with
  | [] => None
  | (k', v) :: d' => if decide (k = k') then Some v else dict_lookup k d'
  end.

(** [d[k] = v]: an existing key keeps its position. *)
Fixpoint dict_set (k : pystr) (v : pyobj) (d : list (pystr * pyobj))
  : list (pystr * pyobj) :=
  match d with
  | [] => [(k, v)]
  | (k', v') :: d' =>
      if decide (k = k') then (k', v) :: d' else (k', v') :: dict_set k v d'
  end.

(** [dict(pairs)] *)
Definition dict_of_pairs (pairs : list (pystr * pyobj))
  : list (pystr * pyobj) :=
  fold_left (λ d kv, dict_set kv.1 kv.2 d) pairs [].

(** [payload.get(key, default)]; [payload.get(key)] has the default
    [None].  An object that is no [dict] has no [get]. *)
Definition get (payload : pyobj) (key : pystr) (default : pyobj)
  : result pyobj :=
  match payload with
  | PyDict d => Return (from_option id default (dict_lookup key d))
  | _ => Raise AttributeError
  end.

(** The integer key an object is equal to, for a lookup in a dictionary
    with integer keys: a [bool] is the integer 0 or 1, an object of
    another hashable type equals no integer, and a [list] or a [dict]
    cannot be hashed. *)
Definition int_key (o : pyobj) : result (option Z) :=
  match o with
  | PyInt z => Return (Some z)
  | PyBool b => Return (Some (if b then 1 else 0))
  | PyNone | PyStr _ => Return None
  | PyList _ | PyDict _ => Raise TypeError
  end.

(** The key an object is in a dictionary: [None], an integer (a [bool]
    is the integer 0 or 1) or a string; a [list] or a [dict] cannot be
    hashed. *)
Definition key_of (o : pyobj) : result (option (Z + pystr)) :=
  match o with
  | PyNone => Return None
  | PyBool b => Return (Some (inl (if b then 1 else 0)))
  | PyInt z => Return (Some (inl z))
  | PyStr s => Return (Some (inr s))
  | PyList _ | PyDict _ => Raise TypeError
  end.

(** The truth value of an object in a condition. *)
Definition truthy (o : pyobj) : bool :=
  match o with
  | PyNone => false
  | PyBool b => b
  | PyInt z => negb (z =? 0)
  | PyStr s => negb (bool_decide (s = []))
  | PyList l => negb (bool_decide (length l = 0%nat))
  | PyDict d => negb (bool_decide (length d = 0%nat))
  end.

(** [str(n)] of an integer: decimal digits, no leading zero, a minus
    sign for a negative number. *)
Fixpoint chars_of_uint (d : Decimal.uint) : pystr :=
  match d with
  | Decimal.Nil => []
  | Decimal.D0 d' => 48%N :: chars_of_uint d'
  | Decimal.D1 d' => 49%N :: chars_of_uint d'
  | Decimal.D2 d' => 50%N :: chars_of_uint d'
  | Decimal.D3 d' => 51%N :: chars_of_uint d'
  | Decimal.D4 d' => 52%N :: chars_of_uint d'
  | Decimal.D5 d' => 53%N :: chars_of_uint d'
  | Decimal.D6 d' => 54%N :: chars_of_uint d'
  | Decimal.D7 d' => 55%N :: chars_of_uint d'
  | Decimal.D8 d' => 56%N :: chars_of_uint d'
  | Decimal.D9 d' => 57%N :: chars_of_uint d'
  end.
Definition str_of_Z (z : Z) : pystr :=
  match Z.to_int z with
  | Decimal.Pos d => chars_of_uint d
  | Decimal.Neg d => 45%N :: chars_of_uint d
  end.


(** [str(o)] inside an f-string, for the objects that can be hashed;
    the text of a [list] or a [dict] is never asked for. *)
Definition format (o : pyobj) : pystr :=
  match o with
  | PyNone => u "None"
  | PyBool true => u "True"
  | PyBool false => u "False"
  | PyInt z => str_of_Z z
  | PyStr s => s
  | PyList _ | PyDict _ => []
  end.

End Py.
Export Py.

(** ** Bytes and the [struct] module *)
Module Struct.

Definition byte_of_Z (z : Z) : Byte.byte :=
  default Byte.x00 (Byte.of_N (Z.to_N z)).
Definition Z_of_byte (b : Byte.byte) : Z := Z.of_N (Byte.to_N b).

(** [int.to_bytes(n, 'big')] on a value known to fit. *)
Fixpoint to_bytes_be (n : nat) (z : Z) : bytes :=
  match n with
  | O => []
  | S k => byte_of_Z ((z / 256 ^ Z.of_nat k) mod 256) :: to_bytes_be k z
  end.

(** [int.from_bytes(bs, 'big')] *)
Definition from_bytes_be (bs : bytes) : Z :=
  fold_left (λ acc b, acc * 256 + Z_of_byte b) bs 0.

(** The format characters the header uses, all unsigned. *)
Inductive fmt := B | H | I | Q.

Definition size_of (c : fmt) : nat :=
  match c with B => 1 | H => 2 | I => 4 | Q => 8 end%nat.

Definition calcsize (f : list fmt) : nat :=
  foldr (λ c n, (size_of c + n)%nat) 0%nat f.

Definition fits (c : fmt) (v : Z) : bool :=
  (0 <=? v) && (v <? 256 ^ Z.of_nat (size_of c)).

(** [struct.pack('!...', v1, ..., vn)]: network byte order, no padding;
    a value out of range or a wrong number of values is a
    [struct.error]. *)
Fixpoint pack (f : list fmt) (vs : list Z) : result bytes :=
  match f, vs with
  | [], [] => Return []
  | c :: f', v :: vs' =>
      if fits c v
      then rest ← pack f' vs'; Return (to_bytes_be (size_of c) v ++ rest)
      else Raise StructError
  | _, _ => Raise StructError
  end.

Fixpoint unpack_fields (f : list fmt) (data : bytes) : list Z :=
  match f with
  | [] => []
  | c :: f' =>
      from_bytes_be (take (size_of c) data)
        :: unpack_fields f' (drop (size_of c) data)
  end.

(** [struct.unpack('!...', data)]: the buffer has to have exactly the
    size of the format. *)
Definition unpack (f : list fmt) (data : bytes) : result (list Z) :=
  if decide (length data = calcsize f)
  then Return (unpack_fields f data)
  else Raise StructError.

(** [n.to_bytes(4, byteorder='big')] *)
Definition to_bytes4 (n : Z) : result bytes :=
  if (0 <=? n) && (n <? 2 ^ 32) then Return (to_bytes_be 4 n)
  else Raise OverflowError.

End Struct.

(** ** [hashlib.md5] *)
Module Hashlib.
Import Struct.

Definition w32 (z : Z) : Z := z mod 2 ^ 32.
Definition rotl32 (x c : Z) : Z :=
  w32 (Z.lor (Z.shiftl x c) (Z.shiftr x (32 - c))).
Definition not32 (x : Z) : Z := Z.lxor x 0xffffffff.

Definition K : list Z :=
  [ 0xd76aa478; 0xe8c7b756; 0x242070db; 0xc1bdceee;
    0xf57c0faf; 0x4787c62a; 0xa8304613; 0xfd469501;
    0x698098d8; 0x8b44f7af; 0xffff5bb1; 0x895cd7be;
    0x6b901122; 0xfd987193; 0xa679438e; 0x49b40821;
    0xf61e2562; 0xc040b340; 0x265e5a51; 0xe9b6c7aa;
    0xd62f105d; 0x02441453; 0xd8a1e681; 0xe7d3fbc8;
    0x21e1cde6; 0xc33707d6; 0xf4d50d87; 0x455a14ed;
    0xa9e3e905; 0xfcefa3f8; 0x676f02d9; 0x8d2a4c8a;
    0xfffa3942; 0x8771f681; 0x6d9d6122; 0xfde5380c;
    0xa4beea44; 0x4bdecfa9; 0xf6bb4b60; 0xbebfbc70;
    0x289b7ec6; 0xeaa127fa; 0xd4ef3085; 0x04881d05;
    0xd9d4d039; 0xe6db99e5; 0x1fa27cf8; 0xc4ac5665;
    0xf4292244; 0x432aff97; 0xab9423a7; 0xfc93a039;
    0x655b59c3; 0x8f0ccc92; 0xffeff47d; 0x85845dd1;
    0x6fa87e4f; 0xfe2ce6e0; 0xa3014314; 0x4e0811a1;
    0xf7537e82; 0xbd3af235; 0x2ad7d2bb; 0xeb86d391 ].

Definition shifts : list Z :=
  [ 7; 12; 17; 22; 7; 12; 17; 22; 7; 12; 17; 22; 7; 12; 17; 22;
    5; 9; 14; 20; 5; 9; 14; 20; 5; 9; 14; 20; 5; 9; 14; 20;
    4; 11; 16; 23; 4; 11; 16; 23; 4; 11; 16; 23; 4; 11; 16; 23;
    6; 10; 15; 21; 6; 10; 15; 21; 6; 10; 15; 21; 6; 10; 15; 21 ].

Fixpoint to_bytes_le (n : nat) (z : Z) : bytes :=
  match n with
  | O => []
  | S k => byte_of_Z (z mod 256) :: to_bytes_le k (z / 256)
  end.

Definition from_bytes_le (bs : bytes) : Z :=
  foldr (λ b acc, Z_of_byte b + 256 * acc) 0 bs.

(** The message, a [0x80] byte, zeros up to 56 modulo 64, and the length
    in bits as 64 bits, least significant byte first. *)
Definition pad (msg : bytes) : bytes :=
  let len := Z.of_nat (length msg) in
  msg ++ [Byte.x80]
      ++ replicate (Z.to_nat ((55 - len) mod 64)) Byte.x00
      ++ to_bytes_le 8 ((8 * len) mod 2 ^ 64).

Fixpoint chunks (fuel size : nat) (bs : bytes) : list bytes :=
  match fuel with
  | O => []
  | S fuel' =>
      match bs with
      | [] => []
      | _ => take size bs :: chunks fuel' size (drop size bs)
      end
  end.

Definition words_of (block : bytes) : list Z :=
  map from_bytes_le (chunks 16 4 block).

Definition step (m : list Z) (st : Z * Z * Z * Z) (i : nat) : Z * Z * Z * Z :=
  let '(a, b, c, d) := st in
  let iz := Z.of_nat i in
  let '(f, g) :=
    if iz <? 16 then (Z.lor (Z.land b c) (Z.land (not32 b) d), iz)
    else if iz <? 32 then
      (Z.lor (Z.land d b) (Z.land (not32 d) c), (5 * iz + 1) mod 16)
    else if iz <? 48 then (Z.lxor b (Z.lxor c d), (3 * iz + 5) mod 16)
    else (Z.lxor c (Z.lor b (not32 d)), (7 * iz) mod 16) in
  let f' := w32 (f + a + nth i K 0 + nth (Z.to_nat g) m 0) in
  (d, w32 (b + rotl32 f' (nth i shifts 0)), b, c).

Definition compress (st : Z * Z * Z * Z) (block : bytes) : Z * Z * Z * Z :=
  let '(a0, b0, c0, d0) := st in
  let '(a, b, c, d) := fold_left (step (words_of block)) (seq 0 64) st in
  (w32 (a0 + a), w32 (b0 + b), w32 (c0 + c), w32 (d0 + d)).

(** [hashlib.md5(msg).digest()] *)
Definition md5 (msg : bytes) : bytes :=
  let padded := pad msg in
  let '(a, b, c, d) :=
    fold_left compress (chunks (length padded) 64 padded)
      (0x67452301, 0xefcdab89, 0x98badcfe, 0x10325476) in
  to_bytes_le 4 a ++ to_bytes_le 4 b ++ to_bytes_le 4 c ++ to_bytes_le 4 d.

End Hashlib.

(** ** The UTF-8 codec of [str.encode] and [bytes.decode] *)
Module Codecs.
Import Struct.

Definition byte_of_N (n : N) : Byte.byte := default Byte.x00 (Byte.of_N n).

Definition is_surrogate (c : N) : bool := ((0xD800 <=? c) && (c <=? 0xDFFF))%N.

Definition encode_char (c : N) : result bytes :=
  (if c <? 0x80 then Return [byte_of_N c]
   else if c <? 0x800 then
     Return [byte_of_N (0xC0 + c / 64); byte_of_N (0x80 + c mod 64)]
   else if c <? 0x10000 then
     if is_surrogate c then Raise UnicodeEncodeError
     else Return [byte_of_N (0xE0 + c / 4096);
                  byte_of_N (0x80 + (c / 64) mod 64);
                  byte_of_N (0x80 + c mod 64)]
   else if c <? 0x110000 then
     Return [byte_of_N (0xF0 + c / 262144);
             byte_of_N (0x80 + (c / 4096) mod 64);
             byte_of_N (0x80 + (c / 64) mod 64);
             byte_of_N (0x80 + c mod 64)]
   else Raise UnicodeEncodeError)%N.

(** [s.encode('utf-8')] *)
Fixpoint utf8_encode (s : pystr) : result bytes :=
  match s with
  | [] => Return []
  | c :: s' =>
      bs ← encode_char c; rest ← utf8_encode s'; Return (bs ++ rest)
  end.

Definition between (lo hi : N) (b : Byte.byte) : bool :=
  ((lo <=? Byte.to_N b) && (Byte.to_N b <=? hi))%N.
Definition low6 (b : Byte.byte) : N := (Byte.to_N b mod 64)%N.

(** [bs.decode('utf-8')], strict: shortest form only, no surrogates,
    nothing above U+10FFFF. *)
Fixpoint utf8_decode (bs : bytes) : result pystr :=
  match bs with
  | [] => Return []
  | b0 :: r1 =>
      let n0 := Byte.to_N b0 in
      if (n0 <? 0x80)%N then s ← utf8_decode r1; Return (n0 :: s)
      else if between 0xC2 0xDF b0 then
        match r1 with
        | b1 :: r2 =>
            if between 0x80 0xBF b1
            then s ← utf8_decode r2;
                 Return (((n0 - 0xC0) * 64 + low6 b1)%N :: s)
            else Raise UnicodeDecodeError
        | _ => Raise UnicodeDecodeError
        end
      else if between 0xE0 0xEF b0 then
        match r1 with
        | b1 :: b2 :: r3 =>
            let lo := if (n0 =? 0xE0)%N then 0xA0%N else 0x80%N in
            let hi := if (n0 =? 0xED)%N then 0x9F%N else 0xBF%N in
            if between lo hi b1 && between 0x80 0xBF b2
            then s ← utf8_decode r3;
                 Return (((n0 - 0xE0) * 4096 + low6 b1 * 64 + low6 b2)%N :: s)
            else Raise UnicodeDecodeError
        | _ => Raise UnicodeDecodeError
        end
      else if between 0xF0 0xF4 b0 then
        match r1 with
        | b1 :: b2 :: b3 :: r4 =>
            let lo := if (n0 =? 0xF0)%N then 0x90%N else 0x80%N in
            let hi := if (n0 =? 0xF4)%N then 0x8F%N else 0xBF%N in
            if between lo hi b1 && between 0x80 0xBF b2 && between 0x80 0xBF b3
            then s ← utf8_decode r4;
                 Return (((n0 - 0xF0) * 262144 + low6 b1 * 4096
                          + low6 b2 * 64 + low6 b3)%N :: s)
            else Raise UnicodeDecodeError
        | _ => Raise UnicodeDecodeError
        end
      else Raise UnicodeDecodeError
  end.

End Codecs.

(** ** [json.dumps] and [json.loads] with their default arguments *)
Module Json.
Local Open Scope N_scope.

Definition hex_digit (n : N) : N := if n <? 10 then 48 + n else 87 + n.

(** ['\\u{0:04x}'.format(n)] *)
Definition u_escape (n : N) : pystr :=
  [92; 117; hex_digit (n / 4096 mod 16); hex_digit (n / 256 mod 16);
   hex_digit (n / 16 mod 16); hex_digit (n mod 16)].

(** The replacement of one character by [encode_basestring_ascii]:
    [ESCAPE_DCT] first, printable ASCII as it is, [\uXXXX] for the rest,
    a surrogate pair above the basic plane. *)
Definition escape_char (c : N) : pystr :=
  if c =? 34 then [92; 34]
  else if c =? 92 then [92; 92]
  else if c =? 8 then [92; 98]
  else if c =? 12 then [92; 102]
  else if c =? 10 then [92; 110]
  else if c =? 13 then [92; 114]
  else if c =? 9 then [92; 116]
  else if (32 <=? c) && (c <=? 126) then [c]
  else if c <? 0x10000 then u_escape c
  else
    let n := c - 0x10000 in
    u_escape (N.lor 0xd800 (N.land (N.shiftr n 10) 0x3ff))
      ++ u_escape (N.lor 0xdc00 (N.land n 0x3ff)).

Definition encode_basestring_ascii (s : pystr) : pystr :=
  34 :: flat_map escape_char s ++ [34].

(** [sep.join(parts)] *)
Fixpoint join (sep : pystr) (parts : list pystr) : pystr :=
  match parts with
  | [] => []
  | [p] => p
  | p :: ps => p ++ sep ++ join sep ps
  end.

(** [json.dumps(o)]: separators [", "] and [": "], [ensure_ascii] on. *)
Fixpoint dumps (o : pyobj) : pystr :=
  match o with
  | PyNone => u "null"
  | PyBool true => u "true"
  | PyBool false => u "false"
  | PyInt z => str_of_Z z
  | PyStr s => encode_basestring_ascii s
  | PyList l => 91 :: join (u ", ") (map dumps l) ++ [93]
  | PyDict d =>
      123 :: join (u ", ")
               (map (λ kv, let '(k, v) := kv in
                           encode_basestring_ascii k ++ u ": " ++ dumps v) d)
          ++ [125]
  end.

(** One [key: value] pair of an encoded dictionary. *)
Definition item (kv : pystr * pyobj) : pystr :=
  let '(k, v) := kv in encode_basestring_ascii k ++ u ": " ++ dumps v.

(** A string of ASCII characters only. *)
Definition ascii (s : pystr) : Prop := Forall (λ c, c < 128) s.

(** *** The decoder *)

Definition is_ws (c : N) : bool :=
  (c =? 32) || (c =? 9) || (c =? 10) || (c =? 13).

(** [WHITESPACE.match(s, end).end()] *)
Fixpoint skip_ws (s : pystr) : pystr :=
  match s with
  | c :: s' => if is_ws c then skip_ws s' else s
  | [] => []
  end.

Definition hex_val (c : N) : option N :=
  if (48 <=? c) && (c <=? 57) then Some (c - 48)
  else if (97 <=? c) && (c <=? 102) then Some (c - 87)
  else if (65 <=? c) && (c <=? 70) then Some (c - 55)
  else None.

(** [_decode_uXXXX]: four hexadecimal digits after the [u]. *)
Definition decode_uXXXX (s : pystr) : result (N * pystr) :=
  match s with
  | a :: b :: c :: d :: rest =>
      match hex_val a, hex_val b, hex_val c, hex_val d with
      | Some a, Some b, Some c, Some d =>
          Return (a * 4096 + b * 256 + c * 16 + d, rest)
      | _, _, _, _ => Raise JSONDecodeError
      end
  | _ => Raise JSONDecodeError
  end.

(** The [BACKSLASH] table. *)
Definition backslash (esc : N) : option N :=
  if esc =? 34 then Some 34
  else if esc =? 92 then Some 92
  else if esc =? 47 then Some 47
  else if esc =? 98 then Some 8
  else if esc =? 102 then Some 12
  else if esc =? 110 then Some 10
  else if esc =? 114 then Some 13
  else if esc =? 116 then Some 9
  else None.

Fixpoint prefix_of (p s : pystr) : option pystr :=
  match p, s with
  | [], _ => Some s
  | a :: p', b :: s' => if a =? b then prefix_of p' s' else None
  | _ :: _, [] => None
  end.

(** [scanstring(s, end)], strict: the input starts after the opening
    quote; the result is the string and the input after the closing
    quote.  One unit of fuel per character of the result. *)
Fixpoint scanstring (fuel : nat) (s : pystr) : result (pystr * pystr) :=
  match fuel with
  | O => Raise RecursionError
  | S fuel' =>
      match s with
      | [] => Raise JSONDecodeError
      | c :: s1 =>
          if c =? 34 then Return ([], s1)
          else if c =? 92 then
            match s1 with
            | [] => Raise JSONDecodeError
            | esc :: s2 =>
                if esc =? 117 then
                  '(uni, s3) ← decode_uXXXX s2;
                  if (0xd800 <=? uni) && (uni <=? 0xdbff) then
                    match prefix_of [92; 117] s3 with
                    | Some s4 =>
                        '(uni2, s5) ← decode_uXXXX s4;
                        if (0xdc00 <=? uni2) && (uni2 <=? 0xdfff) then
                          '(str, rest) ← scanstring fuel' s5;
                          Return
                            ((0x10000 + N.lor (N.shiftl (uni - 0xd800) 10)
                                              (uni2 - 0xdc00)) :: str, rest)
                        else
                          '(str, rest) ← scanstring fuel' s3;
                          Return (uni :: str, rest)
                    | None =>
                        '(str, rest) ← scanstring fuel' s3;
                        Return (uni :: str, rest)
                    end
                  else
                    '(str, rest) ← scanstring fuel' s3;
                    Return (uni :: str, rest)
                else
                  match backslash esc with
                  | Some ch =>
                      '(str, rest) ← scanstring fuel' s2;
                      Return (ch :: str, rest)
                  | None => Raise JSONDecodeError
                  end
            end
          else if c <? 32 then Raise JSONDecodeError
          else '(str, rest) ← scanstring fuel' s1; Return (c :: str, rest)
      end
  end.

Definition digit_of (c : N) : option (Decimal.uint → Decimal.uint) :=
  if c =? 48 then Some Decimal.D0
  else if c =? 49 then Some Decimal.D1
  else if c =? 50 then Some Decimal.D2
  else if c =? 51 then Some Decimal.D3
  else if c =? 52 then Some Decimal.D4
  else if c =? 53 then Some Decimal.D5
  else if c =? 54 then Some Decimal.D6
  else if c =? 55 then Some Decimal.D7
  else if c =? 56 then Some Decimal.D8
  else if c =? 57 then Some Decimal.D9
  else None.

(** The longest run of decimal digits at the head of the input. *)
Fixpoint scan_digits (s : pystr) : Decimal.uint * pystr :=
  match s with
  | [] => (Decimal.Nil, [])
  | c :: s' =>
      match digit_of c with
      | Some d => let '(ds, rest) := scan_digits s' in (d ds, rest)
      | None => (Decimal.Nil, s)
      end
  end.

Definition starts_with_digit (s : pystr) : bool :=
  match s with
  | c :: _ => bool_decide (is_Some (digit_of c))
  | [] => false
  end.

(** Whether a fraction (a dot and a digit) or an exponent (e or E, an
    optional sign and a digit) follows the integer part: the number is
    then a [float]. *)
Definition float_follows (s : pystr) : bool :=
  match s with
  | c :: s' =>
      if c =? 46 then starts_with_digit s'
      else if (c =? 101) || (c =? 69) then
        match s' with
        | sign :: s'' =>
            if (sign =? 43) || (sign =? 45) then starts_with_digit s''
            else starts_with_digit s'
        | [] => false
        end
      else false
  | [] => false
  end.

(** The integer part of [NUMBER_RE]: a single zero, or a run of digits
    that starts with a digit other than zero. *)
Definition scan_int_part (s : pystr) : option (Decimal.uint * pystr) :=
  match s with
  | c :: s' =>
      if c =? 48 then Some (Decimal.D0 Decimal.Nil, s')
      else if bool_decide (is_Some (digit_of c)) then Some (scan_digits s)
      else None
  | [] => None
  end.

(** [match_number] and the conversion with [int]; [None] when the input
    does not start with a number. *)
Definition scan_number (s : pystr) : option (result (pyobj * pystr)) :=
  let '(neg, s1) :=
    match s with
    | c :: s' => if c =? 45 then (true, s') else (false, s)
    | [] => (false, s)
    end in
  match scan_int_part s1 with
  | None => None
  | Some (d, rest) =>
      Some (if float_follows rest then Raise FloatUnsupported
            else Return (PyInt (Z.of_int (if neg then Decimal.Neg d
                                          else Decimal.Pos d)), rest))
  end.

(** The input after the character [c], when the input starts with it. *)
Definition expect (c : N) (s : pystr) : option pystr :=
  match s with
  | c' :: rest => if c' =? c then Some rest else None
  | [] => None
  end.

(** The literals and the numbers of [scan_once]. *)
Definition scan_atom (s : pystr) : result (pyobj * pystr) :=
  match prefix_of (u "null") s, prefix_of (u "true") s,
        prefix_of (u "false") s with
  | Some rest, _, _ => Return (PyNone, rest)
  | _, Some rest, _ => Return (PyBool true, rest)
  | _, _, Some rest => Return (PyBool false, rest)
  | _, _, _ =>
      match scan_number s with
      | Some r => r
      | None =>
          match prefix_of (u "NaN") s, prefix_of (u "Infinity") s,
                prefix_of (u "-Infinity") s with
          | None, None, None => Raise JSONDecodeError
          | _, _, _ => Raise FloatUnsupported
          end
      end
  end.

(** [scan_once], [JSONArray] and [JSONObject].  Every nested value and
    every item of an array or an object takes one unit of fuel. *)
Fixpoint scan_once (fuel : nat) (s : pystr) : result (pyobj * pystr) :=
  match fuel with
  | O => Raise RecursionError
  | S fuel' =>
      match s with
      | [] => Raise JSONDecodeError
      | c :: s1 =>
          if c =? 34 then
            '(str, rest) ← scanstring (S (length s1)) s1;
            Return (PyStr str, rest)
          else if c =? 123 then
            match expect 125 (skip_ws s1), expect 34 (skip_ws s1) with
            | Some rest, _ => Return (PyDict [], rest)
            | None, Some s2 => object_items fuel' s2 []
            | None, None => Raise JSONDecodeError
            end
          else if c =? 91 then
            match expect 93 (skip_ws s1) with
            | Some rest => Return (PyList [], rest)
            | None => array_items fuel' (skip_ws s1) []
            end
          else scan_atom s
      end
  end
with array_items (fuel : nat) (s : pystr) (values : list pyobj)
  : result (pyobj * pystr) :=
  match fuel with
  | O => Raise RecursionError
  | S fuel' =>
      '(value, s1) ← scan_once fuel' s;
      match expect 93 (skip_ws s1), expect 44 (skip_ws s1) with
      | Some rest, _ => Return (PyList (values ++ [value]), rest)
      | None, Some s2 => array_items fuel' (skip_ws s2) (values ++ [value])
      | None, None => Raise JSONDecodeError
      end
  end
with object_items (fuel : nat) (s : pystr) (pairs : list (pystr * pyobj))
  : result (pyobj * pystr) :=
  match fuel with
  | O => Raise RecursionError
  | S fuel' =>
      '(key, s1) ← scanstring (S (length s)) s;
      match expect 58 (skip_ws s1) with
      | None => Raise JSONDecodeError
      | Some s2 =>
          '(value, s3) ← scan_once fuel' (skip_ws s2);
          match expect 125 (skip_ws s3), expect 44 (skip_ws s3) with
          | Some rest, _ =>
              Return (PyDict (dict_of_pairs (pairs ++ [(key, value)])), rest)
          | None, Some s4 =>
              match expect 34 (skip_ws s4) with
              | Some s5 => object_items fuel' s5 (pairs ++ [(key, value)])
              | None => Raise JSONDecodeError
              end
          | None, None => Raise JSONDecodeError
          end
      end
  end.

(** [json.loads(s)] for a [str]: no byte order mark, one value, nothing
    but white space after it. *)
Definition loads (s : pystr) : result pyobj :=
  if bool_decide (is_Some (expect 0xfeff s)) then Raise JSONDecodeError
  else
    '(obj, rest) ← scan_once (S (length s)) (skip_ws s);
    match skip_ws rest with
    | [] => Return obj
    | _ => Raise JSONDecodeError
    end.

(** *** Payloads of text

    The payloads the round trip is stated for: characters are Unicode
    scalar values (a [str] can hold a lone surrogate, which is no text),
    and the keys of a dictionary are distinct, as they are in any
    [dict]. *)
Definition scalar (c : N) : Prop :=
  c < 0x110000 ∧ Codecs.is_surrogate c = false.

Fixpoint json_text (o : pyobj) : Prop :=
  match o with
  | PyStr s => Forall scalar s
  | PyList l => foldr (λ x P, json_text x ∧ P) True l
  | PyDict d =>
      NoDup (map fst d)
      ∧ foldr (λ kv P, let '(k, v) := kv in
                       Forall scalar k ∧ json_text v ∧ P) True d
  | _ => True
  end.

(** The fuel [scan_once] needs to read the encoding of an object back. *)
Fixpoint need (o : pyobj) : nat :=
  match o with
  | PyList l => S (foldr (λ x n, S (need x + n)) 0%nat l)
  | PyDict d => S (foldr (λ kv n, let '(_, v) := kv in S (need v + n)) 0%nat d)
  | _ => 1
  end.

(** What follows an encoded value inside an encoding: nothing, a comma,
    or a closing bracket or brace. *)
Definition follows (rest : pystr) : Prop :=
  match rest with
  | [] => True
  | c :: _ => c = 44 ∨ c = 93 ∨ c = 125
  end.

End Json.

(** ** protocol.py *)
Module Protocol.

Inductive MessageType :=
| CONNECT
| CONNECT_ACK
| DISCONNECT
| CHAT_MSG
| CHAT_ACK
| BROADCAST
| BROADCAST_ACK
| PRIVATE_MSG
| PRIVATE_ACK
| NACK
| ERROR
| HEARTBEAT
| HEARTBEAT_ACK.

Global Instance MessageType_eq_dec : EqDecision MessageType.
Proof. solve_decision. Defined.

(** [int(msg_type)] *)
Definition int_of_MessageType (t : MessageType) : Z :=
  match t with
  | CONNECT => 1
  | CONNECT_ACK => 2
  | DISCONNECT => 3
  | CHAT_MSG => 4
  | CHAT_ACK => 5
  | BROADCAST => 6
  | BROADCAST_ACK => 7
  | PRIVATE_MSG => 8
  | PRIVATE_ACK => 9
  | NACK => 10
  | ERROR => 11
  | HEARTBEAT => 12
  | HEARTBEAT_ACK => 13
  end.

Definition all_MessageTypes : list MessageType :=
  [CONNECT; CONNECT_ACK; DISCONNECT; CHAT_MSG; CHAT_ACK; BROADCAST;
   BROADCAST_ACK; PRIVATE_MSG; PRIVATE_ACK; NACK; ERROR; HEARTBEAT;
   HEARTBEAT_ACK].

(** [MessageType(n)]: the member with that value, a [ValueError] when
    there is none. *)
Definition MessageType_of_int (n : Z) : result MessageType :=
  match find (λ t, int_of_MessageType t =? n) all_MessageTypes with
  | Some t => Return t
  | None => Raise ValueError
  end.

Record ProtocolMessage := {
  version : Z;
  msg_type : MessageType;
  sequence_num : Z;
  timestamp : Z;
  payload : pyobj;
  checksum : Z
}.

Definition VERSION : Z := 1.
Definition HEADER_SIZE : nat := 24.
Definition HEADER_FORMAT : list Struct.fmt :=
  [Struct.B; Struct.B; Struct.I; Struct.Q; Struct.I; Struct.I; Struct.H].

(** [ProtocolMessage.__init__]; [now] is what [_get_timestamp()] would
    return.  [timestamp or ...]: a missing timestamp and the timestamp 0
    are both replaced by the clock. *)
Definition new_message (now : Z) (msg_type : MessageType) (sequence_num : Z)
    (payload : pyobj) (timestamp : option Z) : ProtocolMessage :=
  {| version := VERSION;
     msg_type := msg_type;
     sequence_num := sequence_num;
     timestamp := match timestamp with
                  | Some t => if t =? 0 then now else t
                  | None => now
                  end;
     payload := payload;
     checksum := 0 |}.

Definition set_checksum (c : Z) (m : ProtocolMessage) : ProtocolMessage :=
  {| version := version m;
     msg_type := msg_type m;
     sequence_num := sequence_num m;
     timestamp := timestamp m;
     payload := payload m;
     checksum := c |}.

(** The first four bytes of the MD5 digest, as a big-endian integer. *)
Definition _calculate_checksum (payload_bytes : bytes) : result Z :=
  let md5_hash := Hashlib.md5 payload_bytes in
  fields ← Struct.unpack [Struct.I] (take 4 md5_hash);
  match fields with
  | c :: _ => Return c
  | [] => Raise IndexError
  end.

Definition _calculate_checksum_static (payload_bytes : bytes) : result Z :=
  let md5_hash := Hashlib.md5 payload_bytes in
  fields ← Struct.unpack [Struct.I] (take 4 md5_hash);
  match fields with
  | c :: _ => Return c
  | [] => Raise IndexError
  end.

(** [serialize] stores the checksum in the message before it packs the
    header: the second component is the message afterwards. *)
Definition serialize (self : ProtocolMessage)
  : result bytes * ProtocolMessage :=
  let payload_json := Json.dumps (payload self) in
  match Codecs.utf8_encode payload_json with
  | Raise e => (Raise e, self)
  | Return payload_bytes =>
      let payload_len := Z.of_nat (length payload_bytes) in
      match _calculate_checksum payload_bytes with
      | Raise e => (Raise e, self)
      | Return c =>
          let self := set_checksum c self in
          (header ← Struct.pack HEADER_FORMAT
                      [version self; int_of_MessageType (msg_type self);
                       sequence_num self; timestamp self; payload_len;
                       checksum self; 0];
           Return (header ++ payload_bytes),
           self)
      end
  end.

(** [data[a:b]] for [0 <= a <= b] *)
Definition slice (data : bytes) (a b : Z) : bytes :=
  take (Z.to_nat (b - a)) (drop (Z.to_nat a) data).

Section Deserialize.
(** [json.loads] of the running interpreter: what it raises besides
    [JSONDecodeError] (a [RecursionError] on deep nesting, say) is not
    caught by [deserialize]. *)
Variable json_loads : pystr → result pyobj.

Definition deserialize (now : Z) (data : bytes)
  : result (option ProtocolMessage) :=
  if decide (length data < HEADER_SIZE)%nat then Return None
  else
    header_data ← Struct.unpack HEADER_FORMAT (take HEADER_SIZE data);
    match header_data with
    | [version; msg_type; seq_num; timestamp; payload_len; checksum; _] =>
        if negb (version =? VERSION) then Return None
        else
          let payload_start := Z.of_nat HEADER_SIZE in
          let payload_end := payload_start + payload_len in
          if Z.of_nat (length data) <? payload_end then Return None
          else
            let payload_bytes := slice data payload_start payload_end in
            calculated_checksum ← _calculate_checksum_static payload_bytes;
            if negb (calculated_checksum =? checksum) then Return None
            else
              match payload_json ← Codecs.utf8_decode payload_bytes;
                    json_loads payload_json with
              | Raise UnicodeDecodeError => Return None
              | Raise JSONDecodeError => Return None
              | Raise e => Raise e
              | Return payload =>
                  type ← MessageType_of_int msg_type;
                  let msg :=
                    new_message now type seq_num payload (Some timestamp) in
                  Return (Some (set_checksum checksum msg))
              end
    | _ => Raise ValueError
    end.
End Deserialize.

Definition ack_type_map (t : MessageType) : option MessageType :=
  match t with
  | CONNECT => Some CONNECT_ACK
  | CHAT_MSG => Some CHAT_ACK
  | BROADCAST => Some BROADCAST_ACK
  | PRIVATE_MSG => Some PRIVATE_ACK
  | HEARTBEAT => Some HEARTBEAT_ACK
  | _ => None
  end.

Definition create_ack (now : Z) (self : ProtocolMessage) : ProtocolMessage :=
  let ack_type := default CHAT_ACK (ack_type_map (msg_type self)) in
  new_message now ack_type (sequence_num self)
    (PyDict [(u "ack_for", PyInt (sequence_num self));
             (u "status", PyStr (u "success"))])
    None.

Definition create_nack (now : Z) (self : ProtocolMessage) (reason : pystr)
  : ProtocolMessage :=
  new_message now NACK (sequence_num self)
    (PyDict [(u "nack_for", PyInt (sequence_num self));
             (u "reason", PyStr reason);
             (u "status", PyStr (u "failure"))])
    None.

Module MessageBuilder.

Definition connect_message (now : Z) (username : pystr) (seq_num : Z) :=
  new_message now CONNECT seq_num
    (PyDict [(u "username", PyStr username); (u "action", PyStr (u "connect"))])
    None.

Definition disconnect_message (now : Z) (username : pystr) (seq_num : Z) :=
  new_message now DISCONNECT seq_num
    (PyDict [(u "username", PyStr username);
             (u "action", PyStr (u "disconnect"))])
    None.

Definition chat_message (now : Z) (username message : pystr) (seq_num : Z) :=
  new_message now CHAT_MSG seq_num
    (PyDict [(u "username", PyStr username); (u "message", PyStr message)])
    None.

Definition broadcast_message (now : Z) (username message : pystr)
    (seq_num : Z) :=
  new_message now BROADCAST seq_num
    (PyDict [(u "username", PyStr username); (u "message", PyStr message);
             (u "broadcast", PyBool true)])
    None.

Definition private_message (now : Z) (sender recipient message : pystr)
    (seq_num : Z) :=
  new_message now PRIVATE_MSG seq_num
    (PyDict [(u "sender", PyStr sender); (u "recipient", PyStr recipient);
             (u "message", PyStr message); (u "private", PyBool true)])
    None.

Definition heartbeat_message (now : Z) (seq_num : Z) :=
  new_message now HEARTBEAT seq_num
    (PyDict [(u "type", PyStr (u "heartbeat"))]) None.

Definition error_message (now : Z) (error_msg : pystr) (seq_num : Z) :=
  new_message now ERROR seq_num (PyDict [(u "error", PyStr error_msg)]) None.

End MessageBuilder.

End Protocol.
Export Protocol.

(** The bytes both ends hand to [sendall] for a message: the 4-byte
    length prefix and the serialized message. *)
Definition frame_of (message : ProtocolMessage) : result bytes :=
  data ← (serialize message).1;
  length_prefix ← Struct.to_bytes4 (Z.of_nat (length data));
  Return (length_prefix ++ data).

(** *** The header layout and the decode failures, as the specification
    states them *)
Module Header.

(** The big-endian integer in [size] bytes at [offset]. *)
Definition field (data : bytes) (offset size : nat) : Z :=
  Struct.from_bytes_be (take size (drop offset data)).

Definition version_of (data : bytes) : Z := field data 0 1.
Definition type_of (data : bytes) : Z := field data 1 1.
Definition sequence_of (data : bytes) : Z := field data 2 4.
Definition timestamp_of (data : bytes) : Z := field data 6 8.
Definition payload_length_of (data : bytes) : Z := field data 14 4.
Definition checksum_of (data : bytes) : Z := field data 18 4.
Definition reserved_of (data : bytes) : Z := field data 22 2.

(** The payload region the length field announces. *)
Definition payload_of (data : bytes) : bytes :=
  take (Z.to_nat (payload_length_of data)) (drop 24 data).

(** The checksum of a payload: the first 4 bytes of its MD5 digest as an
    unsigned big-endian integer. *)
Definition md5_prefix (payload_bytes : bytes) : Z :=
  Struct.from_bytes_be (take 4 (Hashlib.md5 payload_bytes)).

End Header.

(** The decode failure conditions of the specification. *)
Inductive DecodeFailure (json_loads : pystr → result pyobj) (data : bytes)
  : Prop :=
| ShortInput :
    (length data < HEADER_SIZE)%nat → DecodeFailure json_loads data
| TruncatedPayload :
    Z.of_nat (length data) < 24 + Header.payload_length_of data →
    DecodeFailure json_loads data
| VersionMismatch :
    Header.version_of data ≠ VERSION → DecodeFailure json_loads data
| ChecksumMismatch :
    Header.checksum_of data ≠ Header.md5_prefix (Header.payload_of data) →
    DecodeFailure json_loads data
| InvalidUTF8 :
    Codecs.utf8_decode (Header.payload_of data) = Raise UnicodeDecodeError →
    DecodeFailure json_loads data
| InvalidJSON payload_json :
    Codecs.utf8_decode (Header.payload_of data) = Return payload_json →
    json_loads payload_json = Raise JSONDecodeError →
    DecodeFailure json_loads data.

(** An input that passes every check of [deserialize] up to the
    conversion of the type byte. *)
Record DecodesUpToType (json_loads : pystr → result pyobj) (data : bytes)
  : Prop := {
  long_enough : (HEADER_SIZE ≤ length data)%nat;
  version_ok : Header.version_of data = VERSION;
  payload_present : 24 + Header.payload_length_of data ≤ Z.of_nat (length data);
  checksum_ok :
    Header.checksum_of data = Header.md5_prefix (Header.payload_of data);
  payload_ok :
    ∃ payload_json payload,
      Codecs.utf8_decode (Header.payload_of data) = Return payload_json
      ∧ json_loads payload_json = Return payload
}.

(** A message of the data model: built by the constructor (version 1), an
    unsigned 32-bit sequence number, an unsigned 64-bit timestamp, and a
    payload of text whose encoding fits the 32-bit length field. *)
Record WellFormedMessage (m : ProtocolMessage) : Prop := {
  wf_version : version m = VERSION;
  wf_sequence : 0 ≤ sequence_num m < 2 ^ 32;
  wf_timestamp : 0 ≤ timestamp m < 2 ^ 64;
  wf_payload : Json.json_text (payload m);
  wf_length : Z.of_nat (length (Json.dumps (payload m))) < 2 ^ 32
}.

(** *** Bytes with a type byte of any value

    A header of version 1 with the type byte [t], the sequence number and
    the timestamp 0, the length 2 and the checksum of the payload, and the
    payload [{}]. *)
Module Forged.

Definition empty_object : bytes := [Byte.x7b; Byte.x7d].

Definition of_type (t : Z) : bytes :=
  match Struct.pack HEADER_FORMAT
          [VERSION; t; 0; 0; 2; Header.md5_prefix empty_object; 0] with
  | Return header => header ++ empty_object
  | Raise _ => []
  end.

End Forged.

(** ** client.py

    The caller of [_send_reliable] and the receive thread share the
    client object.  The receive thread and the clock are the environment
    of the caller: at every point where the caller can be overtaken (before
    and after a [sendall], and in every [time.sleep]) an [interval] says
    how much time passes, whether the peer resets the connection, and what
    the receive thread takes off the socket.  Times are in milliseconds. *)
Module Client.

Inductive thread := Caller | Receiver.

(** What the model records of a run, in order: a frame handed to
    [sendall] (by which thread, and when), and an entry stored in
    [pending_acks] by [_send_reliable]. *)
Inductive event :=
| Sent (who : thread) (time : Z) (frame : bytes)
| Registered (seq_num : Z) (retries : nat) (time : Z).

Record ReliableClient := {
  socket_open : bool;
  log : list event;
  username : option pystr;
  sequence_num : Z;
  pending_acks : gmap Z (ProtocolMessage * Z * nat);
  connected : bool;
  running : bool;
  clock : Z
}.

Definition ACK_TIMEOUT : Z := 2000.
Definition MAX_RETRIES : nat := 3.

Definition set_socket_open (b : bool) (self : ReliableClient) :=
  {| socket_open := b; log := log self; username := username self;
     sequence_num := sequence_num self; pending_acks := pending_acks self;
     connected := connected self; running := running self;
     clock := clock self |}.

Definition set_log (l : list event) (self : ReliableClient) :=
  {| socket_open := socket_open self; log := l; username := username self;
     sequence_num := sequence_num self; pending_acks := pending_acks self;
     connected := connected self; running := running self;
     clock := clock self |}.

Definition set_sequence_num (n : Z) (self : ReliableClient) :=
  {| socket_open := socket_open self; log := log self;
     username := username self; sequence_num := n;
     pending_acks := pending_acks self; connected := connected self;
     running := running self; clock := clock self |}.

Definition set_pending_acks (p : gmap Z (ProtocolMessage * Z * nat))
    (self : ReliableClient) :=
  {| socket_open := socket_open self; log := log self;
     username := username self; sequence_num := sequence_num self;
     pending_acks := p; connected := connected self;
     running := running self; clock := clock self |}.

Definition set_connected (b : bool) (self : ReliableClient) :=
  {| socket_open := socket_open self; log := log self;
     username := username self; sequence_num := sequence_num self;
     pending_acks := pending_acks self; connected := b;
     running := running self; clock := clock self |}.

Definition set_running (b : bool) (self : ReliableClient) :=
  {| socket_open := socket_open self; log := log self;
     username := username self; sequence_num := sequence_num self;
     pending_acks := pending_acks self; connected := connected self;
     running := b; clock := clock self |}.

Definition set_clock (t : Z) (self : ReliableClient) :=
  {| socket_open := socket_open self; log := log self;
     username := username self; sequence_num := sequence_num self;
     pending_acks := pending_acks self; connected := connected self;
     running := running self; clock := t |}.

Definition get_next_sequence (self : ReliableClient) : Z * ReliableClient :=
  let seq := sequence_num self in
  (seq, set_sequence_num (sequence_num self + 1) self).

(** [_send_message]: any exception (from [serialize], from [to_bytes],
    from the socket) ends in [connected = False] and the result [False].
    The message comes back with the checksum [serialize] stored in it. *)
Definition _send_message (who : thread) (message : ProtocolMessage)
    (self : ReliableClient) : bool * ProtocolMessage * ReliableClient :=
  let '(data, message) := serialize message in
  match data ≫= (λ data,
          length_prefix ← Struct.to_bytes4 (Z.of_nat (length data));
          Return (length_prefix ++ data)) with
  | Return frame =>
      if socket_open self
      then (true, message,
            set_log (log self ++ [Sent who (clock self) frame]) self)
      else (false, message, set_connected false self)
  | Raise _ => (false, message, set_connected false self)
  end.

(** *** The receive path *)

Definition _handle_ack (message : ProtocolMessage) (self : ReliableClient)
  : result unit * ReliableClient :=
  match get (Protocol.payload message) (u "ack_for") PyNone with
  | Raise e => (Raise e, self)
  | Return PyNone => (Return (), self)
  | Return ack_for =>
      match int_key ack_for with
      | Raise e => (Raise e, self)
      | Return None => (Return (), self)
      | Return (Some k) =>
          (Return (), set_pending_acks (delete k (pending_acks self)) self)
      end
  end.

Definition _handle_nack (message : ProtocolMessage) (self : ReliableClient)
  : result unit * ReliableClient :=
  match nack_for ← get (Protocol.payload message) (u "nack_for") PyNone;
        _ ← get (Protocol.payload message) (u "reason")
              (PyStr (u "Unknown error"));
        int_key nack_for with
  | Raise e => (Raise e, self)
  | Return None => (Return (), self)
  | Return (Some k) =>
      (Return (), set_pending_acks (delete k (pending_acks self)) self)
  end.

(** The [_display_...] methods print; all that is left of them is the
    exception of a payload that has no [get]. *)
Definition _display (message : ProtocolMessage) (keys : list pystr)
  : result unit :=
  foldr (λ key r, _ ← get (Protocol.payload message) key PyNone; r)
    (Return ()) keys.

Definition _reply_ack (message : ProtocolMessage) (self : ReliableClient)
  : result unit * ReliableClient :=
  let ack := create_ack (clock self) message in
  let '(_, _, self) := _send_message Receiver ack self in
  (Return (), self).

Definition _handle_received_message (message : ProtocolMessage)
    (self : ReliableClient) : result unit * ReliableClient :=
  let msg_type := Protocol.msg_type message in
  if bool_decide (msg_type ∈ [CONNECT_ACK; CHAT_ACK; BROADCAST_ACK;
                              PRIVATE_ACK; HEARTBEAT_ACK])
  then _handle_ack message self
  else if bool_decide (msg_type = NACK) then _handle_nack message self
  else if bool_decide (msg_type = CHAT_MSG) then
    match _display message [u "username"; u "message"] with
    | Raise e => (Raise e, self)
    | Return _ => _reply_ack message self
    end
  else if bool_decide (msg_type = BROADCAST) then
    match _display message [u "username"; u "message"] with
    | Raise e => (Raise e, self)
    | Return _ => _reply_ack message self
    end
  else if bool_decide (msg_type = PRIVATE_MSG) then
    match _display message [u "sender"; u "message"] with
    | Raise e => (Raise e, self)
    | Return _ => _reply_ack message self
    end
  else if bool_decide (msg_type = ERROR) then
    (_display message [u "error"], self)
  else if bool_decide (msg_type = HEARTBEAT) then _reply_ack message self
  else (Return (), self).

(** [_receive_loop] on what [_receive_message] returns, in order: the
    loop runs while [running]; a message that is [None] and an exception
    both end it, and where it ends [connected] and [running] are set to
    false.  With nothing more to read the thread waits in [recv]. *)
Fixpoint _receive_loop (inbox : list (option ProtocolMessage))
    (self : ReliableClient) : ReliableClient :=
  match inbox with
  | [] => self
  | message :: inbox' =>
      if running self then
        match message with
        | None => set_running false (set_connected false self)
        | Some message =>
            match _handle_received_message message self with
            | (Return _, self) => _receive_loop inbox' self
            | (Raise _, self) =>
                set_running false (set_connected false self)
            end
        end
      else set_running false (set_connected false self)
  end.

(** *** The environment of the caller *)

Record interval := {
  elapsed : Z;
  hangup : bool;
  inbox : list (option ProtocolMessage)
}.

(** At least [least] milliseconds (the argument of [time.sleep]) pass. *)
Definition pass (least : Z) (iv : interval) (self : ReliableClient)
  : ReliableClient :=
  let self := set_clock (clock self + Z.max least (elapsed iv)) self in
  let self := if hangup iv then set_socket_open false self else self in
  _receive_loop (inbox iv) self.

(** The intervals of one attempt: before the [sendall], between the
    [sendall] and the registration, and the [time.sleep(0.1)] calls of
    the wait. *)
Record attempt_env := {
  before_send : interval;
  after_send : interval;
  sleeps : nat → interval
}.

(** *** [_send_reliable] *)

(** The wait for the ACK: [while time.time() - start_time < ACK_TIMEOUT].
    The result is [None] when the fuel runs out before the loop ends. *)
Fixpoint wait_for_ack (fuel : nat) (sleeps : nat → interval) (i : nat)
    (seq_num start_time : Z) (self : ReliableClient)
  : option (bool * ReliableClient) :=
  match fuel with
  | O => None
  | S fuel' =>
      if clock self - start_time <? ACK_TIMEOUT then
        if bool_decide (pending_acks self !! seq_num = None)
        then Some (true, self)
        else wait_for_ack fuel' sleeps (S i) seq_num start_time
               (pass 100 (sleeps i) self)
      else Some (false, self)
  end.

(** The fuel of one wait: a sleep lasts 100 ms at least. *)
Definition POLLS : nat := 21.

(** [while retries <= self.MAX_RETRIES], and what follows the loop. *)
Fixpoint send_loop (fuel : nat) (env : nat → attempt_env)
    (message : ProtocolMessage) (retries : nat) (self : ReliableClient)
  : option (bool * ReliableClient) :=
  match fuel with
  | O => None
  | S fuel' =>
      let seq_num := Protocol.sequence_num message in
      let self := pass 0 (before_send (env retries)) self in
      if (retries <=? MAX_RETRIES)%nat then
        let '(sent, message, self) := _send_message Caller message self in
        if negb sent then Some (false, self)
        else
          let self := pass 0 (after_send (env retries)) self in
          let self :=
            set_log (log self ++ [Registered seq_num retries (clock self)])
              (set_pending_acks
                 (<[seq_num := (message, clock self, retries)]>
                    (pending_acks self)) self) in
          let start_time := clock self in
          match wait_for_ack POLLS (sleeps (env retries)) 0 seq_num
                  start_time self with
          | None => None
          | Some (true, self) => Some (true, self)
          | Some (false, self) =>
              send_loop fuel' env message (S retries) self
          end
      else
        Some (false,
              set_pending_acks (delete seq_num (pending_acks self)) self)
  end.

Definition _send_reliable (env : nat → attempt_env)
    (message : ProtocolMessage) (self : ReliableClient)
  : option (bool * ReliableClient) :=
  send_loop (MAX_RETRIES + 2) env message 0 self.

(** *** What the specification says of a run *)

(** The events of the caller: all but the frames of the receive thread. *)
Definition by_caller (e : event) : bool :=
  match e with
  | Sent Receiver _ _ => false
  | _ => true
  end.
Definition caller_events (l : list event) : list event :=
  List.filter by_caller l.

(** The frames among the events. *)
Definition frames (l : list event) : list bytes :=
  flat_map (λ e, match e with
                 | Sent _ _ frame => [frame]
                 | Registered _ _ _ => []
                 end) l.

(** The order the code keeps: an attempt transmits, then registers, and
    the next attempt starts [ACK_TIMEOUT] after the registration at the
    earliest.  [retries] is the counter of the first attempt, [earliest]
    a bound on the time of its transmission. *)
Inductive attempts (seq_num : Z) (frame : bytes)
  : nat → Z → list event → Prop :=
| attempts_nil retries earliest :
    attempts seq_num frame retries earliest []
| attempts_cons retries earliest sent_at registered_at rest :
    earliest ≤ sent_at → sent_at ≤ registered_at →
    attempts seq_num frame (S retries) (registered_at + ACK_TIMEOUT) rest →
    attempts seq_num frame retries earliest
      (Sent Caller sent_at frame
         :: Registered seq_num retries registered_at :: rest).


(** Nothing comes back and the connection stays up. *)
Definition silent (iv : interval) : Prop :=
  inbox iv = [] ∧ hangup iv = false.

(** An attempt whose delivery is lost. *)
Definition lost (a : attempt_env) : Prop :=
  silent (before_send a) ∧ silent (after_send a) ∧ ∀ j, silent (sleeps a j).

(** The time the wait has slept when sleep [j] ends. *)
Fixpoint slept (a : attempt_env) (j : nat) : Z :=
  Z.max 100 (elapsed (sleeps a j))
  + match j with
    | O => 0
    | S j' => slept a j'
    end.

(** The time the wait has slept before sleep [i] starts. *)
Definition slept_before (a : attempt_env) (i : nat) : Z :=
  match i with
  | O => 0
  | S i' => slept a i'
  end.

(** A message the receive path resolves the entry of [seq_num] with:
    an ACK of any kind with that [ack_for], or a NACK with that
    [nack_for]. *)
Definition resolves (seq_num : Z) (m : ProtocolMessage) : Prop :=
  ∃ d,
    Protocol.payload m = PyDict d
    ∧ ((Protocol.msg_type m ∈ [CONNECT_ACK; CHAT_ACK; BROADCAST_ACK;
                               PRIVATE_ACK; HEARTBEAT_ACK]
        ∧ dict_lookup (u "ack_for") d = Some (PyInt seq_num))
       ∨ (Protocol.msg_type m = NACK
          ∧ dict_lookup (u "nack_for") d = Some (PyInt seq_num))).

(** An attempt that is delivered: its ACK or NACK is the one message
    that comes back, in a sleep that ends before the timeout. *)
Definition answered (seq_num : Z) (a : attempt_env) : Prop :=
  silent (before_send a) ∧ silent (after_send a)
  ∧ ∃ j m,
      (∀ j', (j' < j)%nat → silent (sleeps a j'))
      ∧ inbox (sleeps a j) = [Some m]
      ∧ hangup (sleeps a j) = false
      ∧ resolves seq_num m
      ∧ slept a j < ACK_TIMEOUT.

(** An attempt that is rejected: the one message that comes back, in a
    sleep that ends before the timeout, is a NACK for the sequence
    number. *)
Definition rejected (seq_num : Z) (a : attempt_env) : Prop :=
  silent (before_send a) ∧ silent (after_send a)
  ∧ ∃ j m d,
      (∀ j', (j' < j)%nat → silent (sleeps a j'))
      ∧ inbox (sleeps a j) = [Some m]
      ∧ hangup (sleeps a j) = false
      ∧ Protocol.msg_type m = NACK
      ∧ Protocol.payload m = PyDict d
      ∧ dict_lookup (u "nack_for") d = Some (PyInt seq_num)
      ∧ slept a j < ACK_TIMEOUT.

(** What the receive thread can change: not the clock and not the
    events of the caller; it opens no socket. *)
Record receive_step (self self' : ReliableClient) : Prop := {
  step_clock : clock self' = clock self;
  step_events : caller_events (log self') = caller_events (log self);
  step_socket : socket_open self' = socket_open self
}.

(** *** A client that connects as "bob"

    [connect] sends the CONNECT with the sequence number 0.  In
    [env_nack] the server answers the first transmission with the NACK
    of [_handle_connect]; in [env_lost] nothing ever comes back. *)
Module Example.

Definition client0 : ReliableClient :=
  {| socket_open := true; log := []; username := Some (u "bob");
     sequence_num := 1; pending_acks := ∅; connected := false;
     running := true; clock := 1000 |}.

Definition quiet : interval :=
  {| elapsed := 0; hangup := false; inbox := [] |}.

Definition connect_msg : ProtocolMessage :=
  MessageBuilder.connect_message 1000 (u "bob") 0.

Definition connect_frame : bytes :=
  match frame_of connect_msg with
  | Return frame => frame
  | Raise _ => []
  end.

Definition nack : ProtocolMessage :=
  create_nack 1001 connect_msg (u "Username already taken").

Definition env_nack : nat → attempt_env := λ _,
  {| before_send := quiet; after_send := quiet;
     sleeps := λ j,
       if decide (j = 0%nat)
       then {| elapsed := 100; hangup := false; inbox := [Some nack] |}
       else quiet |}.

Definition env_lost : nat → attempt_env := λ _,
  {| before_send := quiet; after_send := quiet; sleeps := λ _, quiet |}.


End Example.

End Client.

(** ** server.py

    The [ClientConnection] objects are shared: the dictionary [clients],
    the dictionary [username_to_client] and the thread of a client all
    hold the same object.  The model keeps the objects in a store and the
    references apart.  A reference is the [client_id] of the object, which
    [start] hands out once.  A handler runs on the state as one step. *)
Module Server.

Record ClientConnection := {
  sock_ok : bool;
  sock_closed : bool;
  wire : list bytes;
  client_id : nat;
  username : pyobj;
  connected : bool;
  last_heartbeat : Z;
  pending_acks : gmap Z ProtocolMessage
}.

Record ChatServer := {
  store : nat → ClientConnection;
  clients : list nat;
  next_client_id : nat;
  username_to_client : gmap (option (Z + pystr)) nat;
  sequence_num : Z;
  running : bool;
  clock : Z
}.

Definition set_wire (w : list bytes) (c : ClientConnection) :=
  {| sock_ok := sock_ok c; sock_closed := sock_closed c; wire := w;
     client_id := client_id c; username := username c;
     connected := connected c; last_heartbeat := last_heartbeat c;
     pending_acks := pending_acks c |}.

Definition set_username (n : pyobj) (c : ClientConnection) :=
  {| sock_ok := sock_ok c; sock_closed := sock_closed c; wire := wire c;
     client_id := client_id c; username := n;
     connected := connected c; last_heartbeat := last_heartbeat c;
     pending_acks := pending_acks c |}.

Definition set_connected (b : bool) (c : ClientConnection) :=
  {| sock_ok := sock_ok c; sock_closed := sock_closed c; wire := wire c;
     client_id := client_id c; username := username c;
     connected := b; last_heartbeat := last_heartbeat c;
     pending_acks := pending_acks c |}.

Definition set_pending_acks (p : gmap Z ProtocolMessage)
    (c : ClientConnection) :=
  {| sock_ok := sock_ok c; sock_closed := sock_closed c; wire := wire c;
     client_id := client_id c; username := username c;
     connected := connected c; last_heartbeat := last_heartbeat c;
     pending_acks := p |}.

Definition set_store (h : nat → ClientConnection) (self : ChatServer) :=
  {| store := h; clients := clients self;
     next_client_id := next_client_id self;
     username_to_client := username_to_client self;
     sequence_num := sequence_num self; running := running self;
     clock := clock self |}.

Definition set_username_to_client (m : gmap (option (Z + pystr)) nat)
    (self : ChatServer) :=
  {| store := store self; clients := clients self;
     next_client_id := next_client_id self;
     username_to_client := m;
     sequence_num := sequence_num self; running := running self;
     clock := clock self |}.

Definition set_sequence_num (n : Z) (self : ChatServer) :=
  {| store := store self; clients := clients self;
     next_client_id := next_client_id self;
     username_to_client := username_to_client self;
     sequence_num := n; running := running self; clock := clock self |}.

(** An assignment to an attribute of the object [client]. *)
Definition update (client : nat) (f : ClientConnection → ClientConnection)
    (self : ChatServer) : ChatServer :=
  set_store (<[client := f (store self client)]> (store self)) self.

Definition get_next_sequence (self : ChatServer) : Z * ChatServer :=
  let seq := sequence_num self in
  (seq, set_sequence_num (sequence_num self + 1) self).

(** The accept loop of [start], for one connection: a fresh object
    under the next client id. *)
Definition accept (sock_ok : bool) (self : ChatServer) : nat * ChatServer :=
  let client_id := next_client_id self in
  let client_conn :=
    {| sock_ok := sock_ok; sock_closed := false; wire := [];
       client_id := client_id; username := PyNone; connected := true;
       last_heartbeat := clock self; pending_acks := ∅ |} in
  (client_id,
   {| store := <[client_id := client_conn]> (store self);
      clients := if bool_decide (client_id ∈ clients self)
                 then clients self else clients self ++ [client_id];
      next_client_id := S (next_client_id self);
      username_to_client := username_to_client self;
      sequence_num := sequence_num self; running := running self;
      clock := clock self |}).

(** [ClientConnection.send_message]: any exception ends in
    [connected = False] and the result [False]. *)
Definition send_message (client : nat) (message : ProtocolMessage)
    (self : ChatServer) : bool * ProtocolMessage * ChatServer :=
  let '(data, message) := serialize message in
  match data ≫= (λ data,
          length_prefix ← Struct.to_bytes4 (Z.of_nat (length data));
          Return (length_prefix ++ data)) with
  | Return frame =>
      if sock_ok (store self client)
      then (true, message,
            update client (λ c, set_wire (wire c ++ [frame]) c) self)
      else (false, message, update client (set_connected false) self)
  | Raise _ => (false, message, update client (set_connected false) self)
  end.

(** The clients [_broadcast_message] sends to: connected, not the
    excluded one, and with a username that counts as true. *)
Definition eligible (self : ChatServer) (exclude_client : option nat)
    (c : nat) : bool :=
  connected (store self c)
  && bool_decide (Some c ≠ exclude_client)
  && truthy (username (store self c)).

(** [for client in clients_to_send: client.send_message(message)] *)
Definition fan_out (message : ProtocolMessage) (self : ChatServer)
    (clients_to_send : list nat) : ProtocolMessage * ChatServer :=
  foldl (λ '(message, self) client,
           let '(_, message, self) := send_message client message self in
           (message, self))
    (message, self) clients_to_send.

Definition _broadcast_message (message : ProtocolMessage)
    (exclude_client : option nat) (self : ChatServer) : ChatServer :=
  let clients_to_send :=
    List.filter (eligible self exclude_client) (clients self) in
  (fan_out message self clients_to_send).2.

Definition _reply_ack (client : nat) (message : ProtocolMessage)
    (self : ChatServer) : ChatServer :=
  let ack := create_ack (clock self) message in
  (send_message client ack self).2.

(** The block [with self.clients_lock:] of [_handle_connect]: the
    membership test and the registration.  It is [True] when the
    username was registered and [False] when the block returned from
    the handler after the NACK. *)
Definition _handle_connect_locked (client : nat)
    (message : ProtocolMessage) (username : pyobj) (self : ChatServer)
  : result bool * ChatServer :=
  match key_of username with
  | Raise e => (Raise e, self)
  | Return key =>
      if bool_decide (is_Some (username_to_client self !! key)) then
        let nack :=
          create_nack (clock self) message (u "Username already taken") in
        (Return false, (send_message client nack self).2)
      else
        let self := update client (set_username username) self in
        let self :=
          set_username_to_client
            (<[key := client]> (username_to_client self)) self in
        (Return true, self)
  end.

Definition _handle_connect (client : nat) (message : ProtocolMessage)
    (self : ChatServer) : result unit * ChatServer :=
  match get (Protocol.payload message) (u "username")
          (PyStr (u "User"
                  ++ str_of_Z (Z.of_nat (client_id (store self client)))))
  with
  | Raise e => (Raise e, self)
  | Return username =>
      match _handle_connect_locked client message username self with
      | (Raise e, self) => (Raise e, self)
      | (Return false, self) => (Return (), self)
      | (Return true, self) =>
          (* the lock is released *)
          let self := _reply_ack client message self in
          let '(seq, self) := get_next_sequence self in
          let join_msg :=
            MessageBuilder.broadcast_message (clock self) (u "SERVER")
              (format username ++ u " has joined the chat") seq in
          (Return (), _broadcast_message join_msg (Some client) self)
      end
  end.

Definition _handle_disconnect (client : nat) (message : ProtocolMessage)
    (self : ChatServer) : result unit * ChatServer :=
  let self := _reply_ack client message self in
  (Return (), update client (set_connected false) self).

Definition _handle_chat_message (client : nat) (message : ProtocolMessage)
    (self : ChatServer) : result unit * ChatServer :=
  match _ ← get (Protocol.payload message) (u "username")
              (username (store self client));
        get (Protocol.payload message) (u "message") (PyStr []) with
  | Raise e => (Raise e, self)
  | Return _ =>
      let self := _reply_ack client message self in
      (Return (), _broadcast_message message (Some client) self)
  end.

Definition _handle_broadcast (client : nat) (message : ProtocolMessage)
    (self : ChatServer) : result unit * ChatServer :=
  match _ ← get (Protocol.payload message) (u "username")
              (username (store self client));
        get (Protocol.payload message) (u "message") (PyStr []) with
  | Raise e => (Raise e, self)
  | Return _ =>
      let self := _reply_ack client message self in
      (Return (), _broadcast_message message None self)
  end.

Definition _handle_private_message (client : nat)
    (message : ProtocolMessage) (self : ChatServer)
  : result unit * ChatServer :=
  match _ ← get (Protocol.payload message) (u "sender")
              (username (store self client));
        recipient ← get (Protocol.payload message) (u "recipient") PyNone;
        _ ← get (Protocol.payload message) (u "message") (PyStr []);
        Return recipient with
  | Raise e => (Raise e, self)
  | Return recipient =>
      let self := _reply_ack client message self in
      match key_of recipient with
      | Raise e => (Raise e, self)
      | Return key =>
          match username_to_client self !! key with
          | Some recipient_client =>
              if connected (store self recipient_client)
              then (Return (),
                    (send_message recipient_client message self).2)
              else
                let '(seq, self) := get_next_sequence self in
                let error_msg :=
                  MessageBuilder.error_message (clock self)
                    (u "User '" ++ format recipient
                       ++ u "' not found or offline") seq in
                (Return (), (send_message client error_msg self).2)
          | None =>
              let '(seq, self) := get_next_sequence self in
              let error_msg :=
                MessageBuilder.error_message (clock self)
                  (u "User '" ++ format recipient
                     ++ u "' not found or offline") seq in
              (Return (), (send_message client error_msg self).2)
          end
      end
  end.

Definition _handle_heartbeat (client : nat) (message : ProtocolMessage)
    (self : ChatServer) : result unit * ChatServer :=
  (Return (), _reply_ack client message self).

Definition _handle_ack (client : nat) (message : ProtocolMessage)
    (self : ChatServer) : result unit * ChatServer :=
  match get (Protocol.payload message) (u "ack_for") PyNone with
  | Raise e => (Raise e, self)
  | Return PyNone => (Return (), self)
  | Return ack_for =>
      match int_key ack_for with
      | Raise e => (Raise e, self)
      | Return None => (Return (), self)
      | Return (Some k) =>
          (Return (),
           update client (λ c, set_pending_acks (delete k (pending_acks c)) c)
             self)
      end
  end.

(** The router: the last branch prints "Unknown message type". *)
Definition _process_message (client : nat) (message : ProtocolMessage)
    (self : ChatServer) : result unit * ChatServer :=
  let msg_type := Protocol.msg_type message in
  if bool_decide (msg_type = CONNECT) then
    _handle_connect client message self
  else if bool_decide (msg_type = DISCONNECT) then
    _handle_disconnect client message self
  else if bool_decide (msg_type = CHAT_MSG) then
    _handle_chat_message client message self
  else if bool_decide (msg_type = BROADCAST) then
    _handle_broadcast client message self
  else if bool_decide (msg_type = PRIVATE_MSG) then
    _handle_private_message client message self
  else if bool_decide (msg_type = HEARTBEAT) then
    _handle_heartbeat client message self
  else if bool_decide (msg_type ∈ [CHAT_ACK; BROADCAST_ACK; PRIVATE_ACK;
                                   CONNECT_ACK]) then
    _handle_ack client message self
  else (Return (), self).

(** What [send_message] does to the connection object, given the frame
    of the message or the exception of building it. *)
Definition deliver (frame : result bytes) (c : ClientConnection)
  : ClientConnection :=
  match frame with
  | Return frame =>
      if sock_ok c then set_wire (wire c ++ [frame]) c
      else set_connected false c
  | Raise _ => set_connected false c
  end.

(** *** What the specification says of the registry and the router *)





(** A CONNECT payload with the synthesized name put in. *)
Definition with_username (name : pystr) (message : ProtocolMessage)
  : ProtocolMessage :=
  {| Protocol.version := Protocol.version message;
     Protocol.msg_type := Protocol.msg_type message;
     Protocol.sequence_num := Protocol.sequence_num message;
     Protocol.timestamp := Protocol.timestamp message;
     Protocol.payload :=
       match Protocol.payload message with
       | PyDict d => PyDict (dict_set (u "username") (PyStr name) d)
       | o => o
       end;
     Protocol.checksum := Protocol.checksum message |}.

(** *** A server with two sessions

    Two connections are accepted; the first registers with the empty
    string as its username, the second as "bob". *)
Module Example.

Definition blank : ClientConnection :=
  {| sock_ok := false; sock_closed := true; wire := []; client_id := 0;
     username := PyNone; connected := false; last_heartbeat := 0;
     pending_acks := ∅ |}.

Definition empty_server : ChatServer :=
  {| store := λ _, blank; clients := []; next_client_id := 1;
     username_to_client := ∅; sequence_num := 0; running := true;
     clock := 1700000000000 |}.

Definition connect_as (name : pystr) : ProtocolMessage :=
  MessageBuilder.connect_message 1700000000001 name 0.



Definition heartbeat_ack7 : ProtocolMessage :=
  create_ack 1700000000003 (MessageBuilder.heartbeat_message 1 7).




(** One connection, and a CONNECT without a username. *)
Definition one_session : ChatServer := (accept true empty_server).2.
Definition anonymous : ProtocolMessage :=
  new_message 1700000000001 CONNECT 0
    (PyDict [(u "action", PyStr (u "connect"))]) None.

End Example.

End Server.

(** ** What [struct.pack] asks of a message

    The header fields [serialize] packs fit their formats: the version
    one byte, the sequence number and the length of the payload text four
    bytes, the timestamp eight. *)
Definition header_fits (m : ProtocolMessage) : Prop :=
  0 ≤ version m < 2 ^ 8
  ∧ 0 ≤ sequence_num m < 2 ^ 32
  ∧ 0 ≤ timestamp m < 2 ^ 64
  ∧ Z.of_nat (length (Json.dumps (payload m))) < 2 ^ 32.

(** The bytes of the payload text, which is ASCII. *)
Definition payload_bytes_of (m : ProtocolMessage) : bytes :=
  map Codecs.byte_of_N (Json.dumps (payload m)).

(** ** The receiving side of a TCP socket

    What arrives on a connection, in order: chunks of bytes as the
    transport hands them over, and possibly a reset.  The end of the list
    is the orderly shutdown of the peer.  How the bytes are cut into
    chunks is up to the transport. *)
Module Socket.

Inductive arrival :=
| Data (chunk : bytes)
| Reset.

Definition stream := list arrival.

(** [conn.recv(bufsize)]: at most [bufsize] bytes of what has arrived,
    [b''] once the peer has shut down, an [OSError] on a reset. *)
Fixpoint recv (bufsize : nat) (s : stream) : result bytes * stream :=
  match s with
  | [] => (Return [], [])
  | Reset :: _ => (Raise OSError, s)
  | Data chunk :: s' =>
      match chunk with
      | [] => recv bufsize s'
      | _ :: _ =>
          (Return (take bufsize chunk),
           match drop bufsize chunk with
           | [] => s'
           | rest => Data rest :: s'
           end)
      end
  end.

(** The bytes of a stream up to its end or its reset. *)
Fixpoint contents (s : stream) : bytes :=
  match s with
  | [] => []
  | Reset :: _ => []
  | Data chunk :: s' => chunk ++ contents s'
  end.

(** The loop of [_recv_exact], with [data] as it stands.  The result
    is [None] when the fuel runs out before the loop ends. *)
Fixpoint recv_loop (fuel : nat) (length : nat) (data : bytes) (s : stream)
  : option (result (option bytes) * stream) :=
  match fuel with
  | O => None
  | S fuel' =>
      if (List.length data <? length)%nat then
        match recv (length - List.length data) s with
        | (Raise e, s) => Some (Raise e, s)
        | (Return [], s) => Some (Return None, s)
        | (Return chunk, s) => recv_loop fuel' length (data ++ chunk) s
        end
      else Some (Return (Some data), s)
  end.

(** [_recv_exact(conn, length)] of the server and
    [_recv_exact(length)] of the client, which are the same code. *)
Definition _recv_exact (length : nat) (s : stream)
  : option (result (option bytes) * stream) :=
  recv_loop (S length) length [] s.

Section ReceiveMessage.
Variable json_loads : pystr → result pyobj.

(** [_receive_message], of the server and of the client: every
    exception ends in the result [None].  [not length_data] and
    [not msg_data] hold of [None] and of [b'']. *)
Definition _receive_message (now : Z) (s : stream)
  : option (option ProtocolMessage * stream) :=
  r ← _recv_exact 4 s;
  match r with
  | (Raise _, s) | (Return None, s) | (Return (Some []), s) =>
      Some (None, s)
  | (Return (Some length_data), s) =>
      let msg_length := Z.to_nat (Struct.from_bytes_be length_data) in
      r ← _recv_exact msg_length s;
      match r with
      | (Raise _, s) | (Return None, s) | (Return (Some []), s) =>
          Some (None, s)
      | (Return (Some msg_data), s) =>
          match deserialize json_loads now msg_data with
          | Return message => Some (message, s)
          | Raise _ => Some (None, s)
          end
      end
  end.
End ReceiveMessage.

End Socket.

(** ** server.py: the life of a session

    [_handle_client] is the thread of one connection; what arrives on the
    connection is a [Socket.stream].  The clock of the server stands for
    [time.time()], in milliseconds. *)
Module Sessions.
Import Server Socket.

Definition set_last_heartbeat (t : Z) (c : ClientConnection) :=
  {| sock_ok := sock_ok c; sock_closed := sock_closed c; wire := wire c;
     client_id := client_id c; username := username c;
     connected := connected c; last_heartbeat := t;
     pending_acks := pending_acks c |}.

Definition set_clients (l : list nat) (self : ChatServer) :=
  {| store := store self; clients := l;
     next_client_id := next_client_id self;
     username_to_client := username_to_client self;
     sequence_num := sequence_num self; running := running self;
     clock := clock self |}.

(** [ClientConnection.close]: the socket is closed, and a closed socket
    sends nothing. *)
Definition close (c : ClientConnection) : ClientConnection :=
  {| sock_ok := false; sock_closed := true; wire := wire c;
     client_id := client_id c; username := username c;
     connected := false; last_heartbeat := last_heartbeat c;
     pending_acks := pending_acks c |}.

(** [_disconnect_client].  [client.username in self.username_to_client]
    hashes the username, which a [list] or a [dict] does not allow. *)
Definition _disconnect_client (client : nat) (self : ChatServer)
  : result unit * ChatServer :=
  (* with self.clients_lock: *)
  let self :=
    set_clients
      (List.filter (λ c, negb (bool_decide (c = client_id (store self client))))
         (clients self)) self in
  let name := username (store self client) in
  match
    (if truthy name
     then key ← key_of name;
          Return (set_username_to_client
                    (delete key (username_to_client self)) self)
     else Return self)
  with
  | Raise e => (Raise e, self)
  | Return self =>
      (* the lock is released *)
      let self :=
        if truthy name then
          let '(seq, self) := get_next_sequence self in
          let leave_msg :=
            MessageBuilder.broadcast_message (clock self) (u "SERVER")
              (format name ++ u " has left the chat") seq in
          _broadcast_message leave_msg None self
        else self in
      (Return (), update client close self)
  end.

Section HandleClient.
Variable json_loads : pystr → result pyobj.

(** The loop of [_handle_client]: it ends when the session is no
    longer connected or the server no longer running, when
    [_receive_message] returns [None], and when [_process_message]
    raises.  The result is [None] when the fuel runs out. *)
Fixpoint handle_loop (fuel : nat) (client : nat) (inbound : stream)
    (self : ChatServer) : option (ChatServer * stream) :=
  match fuel with
  | O => None
  | S fuel' =>
      if connected (store self client) && running self then
        received ← _receive_message json_loads (clock self) inbound;
        match received with
        | (None, inbound) => Some (self, inbound)
        | (Some message, inbound) =>
            let self :=
              update client (set_last_heartbeat (clock self)) self in
            match _process_message client message self with
            | (Return _, self) => handle_loop fuel' client inbound self
            | (Raise _, self) => Some (self, inbound)
            end
        end
      else Some (self, inbound)
  end.

(** [_handle_client]: the loop, and [_disconnect_client] in the
    [finally] clause. *)
Definition _handle_client (fuel : nat) (client : nat) (inbound : stream)
    (self : ChatServer) : option (result unit * ChatServer) :=
  ending ← handle_loop fuel client inbound self;
  Some (_disconnect_client client ending.1).

End HandleClient.

(** One round of [_heartbeat_loop], after its [time.sleep(30)]: the
    sessions that sent nothing for more than 90 seconds are marked as
    not connected. *)
Definition heartbeat_round (self : ChatServer) : ChatServer :=
  let current_time := clock self in
  foldl (λ self client,
           if 90000 <? current_time - last_heartbeat (store self client)
           then update client (set_connected false) self
           else self)
    self (clients self).

End Sessions.

(** *** What the handlers keep

    [only_sends]: the later state differs from the earlier one by frames
    put on sockets, by [connected] flags, by tables of pending
    acknowledgments, by heartbeat times and by the sequence counter;
    the table of clients, the registry and the username, the id and the
    socket of every session are the same. *)
Module Kept.
Import Server Sessions.

Record same_session (c c' : ClientConnection) : Prop := {
  same_username : username c' = username c;
  same_client_id : client_id c' = client_id c;
  same_sock_ok : sock_ok c' = sock_ok c;
  same_sock_closed : sock_closed c' = sock_closed c
}.

Record only_sends (self self' : ChatServer) : Prop := {
  same_clients : clients self' = clients self;
  same_registry : username_to_client self' = username_to_client self;
  same_next_client_id : next_client_id self' = next_client_id self;
  same_running : running self' = running self;
  same_clock : clock self' = clock self;
  same_sessions : ∀ c, same_session (store self c) (store self' c)
}.

(** The sessions in the table of clients are stored under their ids,
    which [accept] has handed out, and a session whose username is set
    is bound to it in the registry. *)
Record registry_consistent (self : ChatServer) : Prop := {
  ids_are_keys : ∀ c, c ∈ clients self → client_id (store self c) = c;
  ids_are_old : ∀ c, c ∈ clients self → (c < next_client_id self)%nat;
  names_are_bound :
    ∀ c, c ∈ clients self → username (store self c) ≠ PyNone →
      ∃ key, key_of (username (store self c)) = Return key
             ∧ username_to_client self !! key = Some c
}.

(** The states of a server from [start] to [stop]: it starts without
    clients; the accept loop adds a connection; the thread of a session
    in the table processes a message it has received, and ends with
    [_disconnect_client]; the heartbeat thread makes a round; time
    passes.  A step is a whole call: the table of clients, the registry
    and the usernames are written under [clients_lock] only, once in a
    call. *)
Inductive reachable : ChatServer → Prop :=
| reachable_start self :
    clients self = [] → username_to_client self = ∅ →
    reachable self
| reachable_accept ok self :
    reachable self → reachable (accept ok self).2
| reachable_message client message now self :
    reachable self → client ∈ clients self →
    reachable
      (_process_message client message
         (update client (set_last_heartbeat now) self)).2
| reachable_disconnect client self :
    reachable self → client ∈ clients self →
    reachable (_disconnect_client client self).2
| reachable_heartbeat self :
    reachable self → reachable (heartbeat_round self)
| reachable_tick t self :
    reachable self →
    reachable
      {| store := store self; clients := clients self;
         next_client_id := next_client_id self;
         username_to_client := username_to_client self;
         sequence_num := sequence_num self; running := running self;
         clock := t |}.

End Kept.

(** ** client.py: the operations of the caller *)
Module ClientApi.
Import Client.

(** [send_chat_message]; [self.username] is [None] before
    [connect]. *)
Definition send_chat_message (env : nat → attempt_env) (message : pystr)
    (self : ReliableClient) : option (bool * ReliableClient) :=
  if negb (connected self) then Some (false, self)
  else
    let '(seq, self) := get_next_sequence self in
    let chat_msg :=
      match username self with
      | Some name =>
          MessageBuilder.chat_message (clock self) name message seq
      | None =>
          new_message (clock self) CHAT_MSG seq
            (PyDict [(u "username", PyNone); (u "message", PyStr message)])
            None
      end in
    _send_reliable env chat_msg self.

(** [send_broadcast] *)
Definition send_broadcast (env : nat → attempt_env) (message : pystr)
    (self : ReliableClient) : option (bool * ReliableClient) :=
  if negb (connected self) then Some (false, self)
  else
    let '(seq, self) := get_next_sequence self in
    let broadcast_msg :=
      match username self with
      | Some name =>
          MessageBuilder.broadcast_message (clock self) name message seq
      | None =>
          new_message (clock self) BROADCAST seq
            (PyDict [(u "username", PyNone); (u "message", PyStr message);
                     (u "broadcast", PyBool true)])
            None
      end in
    _send_reliable env broadcast_msg self.

(** [send_private_message] *)
Definition send_private_message (env : nat → attempt_env)
    (recipient message : pystr) (self : ReliableClient)
  : option (bool * ReliableClient) :=
  if negb (connected self) then Some (false, self)
  else
    let '(seq, self) := get_next_sequence self in
    let private_msg :=
      match username self with
      | Some name =>
          MessageBuilder.private_message (clock self) name recipient
            message seq
      | None =>
          new_message (clock self) PRIVATE_MSG seq
            (PyDict [(u "sender", PyNone); (u "recipient", PyStr recipient);
                     (u "message", PyStr message);
                     (u "private", PyBool true)])
            None
      end in
    _send_reliable env private_msg self.

(** [disconnect]: the DISCONNECT goes out once, with no wait for an
    ACK; closing the socket is all that is left of [socket.close()]. *)
Definition disconnect (self : ReliableClient) : ReliableClient :=
  let self :=
    if connected self then
      let '(seq, self) := get_next_sequence self in
      let disconnect_msg :=
        match username self with
        | Some name =>
            MessageBuilder.disconnect_message (clock self) name seq
        | None =>
            new_message (clock self) DISCONNECT seq
              (PyDict [(u "username", PyNone);
                       (u "action", PyStr (u "disconnect"))])
              None
        end in
      (_send_message Caller disconnect_msg self).2
    else self in
  let self := set_running false (set_connected false self) in
  set_socket_open false self.

Definition set_username (name : option pystr) (self : ReliableClient) :=
  {| socket_open := socket_open self; log := log self; username := name;
     sequence_num := sequence_num self; pending_acks := pending_acks self;
     connected := connected self; running := running self;
     clock := clock self |}.


(** *** Acknowledgments that come too early

    An attempt whose acknowledgment the receive thread handles after
    the [sendall] of the caller and before the caller has stored the
    entry; nothing else comes back. *)
Definition early (seq_num : Z) (a : attempt_env) : Prop :=
  silent (before_send a)
  ∧ (∃ m, inbox (after_send a) = [Some m]
          ∧ hangup (after_send a) = false
          ∧ resolves seq_num m)
  ∧ ∀ j, silent (sleeps a j).

End ClientApi.

(** ** Runs to try the lemmas on *)
Module Runs.
Import Server Server.Example.

(** One session: its thread has received the CONNECT of "bob" and
    processed it. *)
Definition bob_session : ChatServer :=
  (_process_message 1 (connect_as (u "bob"))
     (update 1 (Sessions.set_last_heartbeat (clock one_session))
        one_session)).2.

(** The bytes of a DISCONNECT of "bob" and the message they decode
    to. *)
Definition bye_sent : ProtocolMessage :=
  MessageBuilder.disconnect_message 1700000000005 (u "bob") 1.
Definition bye_data : bytes :=
  match (serialize bye_sent).1 with
  | Return data => data
  | Raise _ => []
  end.
Definition bye : ProtocolMessage :=
  match deserialize Json.loads (clock bob_session) bye_data with
  | Return (Some message) => message
  | _ => bye_sent
  end.





(** Every transmission of the CONNECT is acknowledged before the
    caller has stored its entry. *)
Definition env_early : nat → Client.attempt_env := λ _,
  {| Client.before_send := Client.Example.quiet;
     Client.after_send :=
       {| Client.elapsed := 1; Client.hangup := false;
          Client.inbox :=
            [Some (create_ack 1001 Client.Example.connect_msg)] |};
     Client.sleeps := λ _, Client.Example.quiet |}.

End Runs.

(** * Part two: lemmas and theorems *)

(** * Facts about the [struct] module *)
Module StructFacts.
Import Struct.

Lemma Z_of_byte_range b : 0 ≤ Z_of_byte b < 256.
Proof.
  unfold Z_of_byte. pose proof (Byte.to_N_bounded b). lia.
Qed.

Lemma Z_of_byte_of_Z z : 0 ≤ z < 256 → Z_of_byte (byte_of_Z z) = z.
Proof.
  intros Hz. unfold Z_of_byte, byte_of_Z.
  destruct (Byte.of_N (Z.to_N z)) as [b|] eqn:Hb; simpl.
  - apply Byte.to_of_N in Hb. lia.
  - apply Byte.of_N_None_iff in Hb. lia.
Qed.

Lemma length_to_bytes_be n z : length (to_bytes_be n z) = n.
Proof. induction n; simpl; congruence. Qed.

Lemma from_bytes_be_acc bs acc :
  fold_left (λ a b, a * 256 + Z_of_byte b) bs acc
  = acc * 256 ^ Z.of_nat (length bs) + from_bytes_be bs.
Proof.
  unfold from_bytes_be. revert acc.
  induction bs as [|b bs IH]; intros acc; simpl fold_left.
  - simpl. lia.
  - rewrite IH, (IH (0 * 256 + Z_of_byte b)).
    rewrite length_cons, Nat2Z.inj_succ, Z.pow_succ_r by lia. ring.
Qed.

Lemma from_bytes_be_cons b bs :
  from_bytes_be (b :: bs)
  = Z_of_byte b * 256 ^ Z.of_nat (length bs) + from_bytes_be bs.
Proof.
  unfold from_bytes_be at 1. simpl fold_left.
  rewrite from_bytes_be_acc. ring.
Qed.

Lemma from_bytes_be_range bs :
  0 ≤ from_bytes_be bs < 256 ^ Z.of_nat (length bs).
Proof.
  induction bs as [|b bs IH].
  - unfold from_bytes_be. simpl. lia.
  - rewrite from_bytes_be_cons, length_cons, Nat2Z.inj_succ,
      Z.pow_succ_r by lia.
    pose proof (Z_of_byte_range b). nia.
Qed.

Lemma from_to_bytes_be_mod n z :
  0 ≤ z → from_bytes_be (to_bytes_be n z) = z mod 256 ^ Z.of_nat n.
Proof.
  intros Hz. induction n as [|n IH].
  - simpl. unfold from_bytes_be. simpl. by rewrite Z.mod_1_r.
  - simpl to_bytes_be. rewrite from_bytes_be_cons, IH, length_to_bytes_be.
    rewrite Z_of_byte_of_Z by (apply Z.mod_pos_bound; lia).
    rewrite Nat2Z.inj_succ, Z.pow_succ_r by lia.
    assert (0 < 256 ^ Z.of_nat n) by (apply Z.pow_pos_nonneg; lia).
    rewrite (Z.mul_comm 256), Z.rem_mul_r by lia. lia.
Qed.

Lemma from_to_bytes_be n z :
  0 ≤ z < 256 ^ Z.of_nat n → from_bytes_be (to_bytes_be n z) = z.
Proof.
  intros Hz. rewrite from_to_bytes_be_mod by lia. apply Z.mod_small. lia.
Qed.

Lemma fits_spec c v : fits c v = true ↔ 0 ≤ v < 256 ^ Z.of_nat (size_of c).
Proof. unfold fits. rewrite andb_true_iff, Z.leb_le, Z.ltb_lt. tauto. Qed.

Lemma pack_length f : ∀ vs data,
  pack f vs = Return data → length data = calcsize f.
Proof.
  induction f as [|c f IH]; intros [|v vs] data; simpl; try discriminate.
  - by intros [= <-].
  - destruct (fits c v); [|discriminate].
    destruct (pack f vs) as [rest|] eqn:Hrest; simpl; [|discriminate].
    intros [= <-]. rewrite length_app, length_to_bytes_be, (IH vs rest); auto.
Qed.

Lemma unpack_fields_pack f : ∀ vs data tail,
  pack f vs = Return data → unpack_fields f (data ++ tail) = vs.
Proof.
  induction f as [|c f IH]; intros [|v vs] data tail; simpl; try discriminate.
  - done.
  - destruct (fits c v) eqn:Hfit; [|discriminate].
    destruct (pack f vs) as [rest|] eqn:Hrest; simpl; [|discriminate].
    intros [= <-]. rewrite <- app_assoc.
    rewrite take_app_length' by (by rewrite length_to_bytes_be).
    rewrite drop_app_length' by (by rewrite length_to_bytes_be).
    rewrite from_to_bytes_be by (by apply fits_spec).
    f_equal. eauto.
Qed.

Lemma unpack_pack f vs data :
  pack f vs = Return data → unpack f data = Return vs.
Proof.
  intros Hp. unfold unpack.
  rewrite decide_True by eauto using pack_length.
  f_equal. rewrite <- (app_nil_r data). eauto using unpack_fields_pack.
Qed.

Lemma pack_fits f : ∀ vs,
  Forall2 (λ c v, fits c v = true) f vs → ∃ data, pack f vs = Return data.
Proof.
  induction f as [|c f IH]; intros vs Hall;
    inversion Hall as [|? v ? vs' Hfit Hrest]; subst; simpl.
  - eauto.
  - destruct (IH _ Hrest) as [rest ->]. rewrite Hfit. simpl. eauto.
Qed.

End StructFacts.

(** * Facts about the frame codec *)
Module HashlibFacts.
Import Struct Hashlib.

Lemma length_to_bytes_le n z : length (to_bytes_le n z) = n.
Proof. revert z. induction n; intros z; simpl; auto. Qed.

Lemma length_md5 msg : length (md5 msg) = 16%nat.
Proof.
  unfold md5.
  destruct (fold_left compress _ _) as [[[a b] c] d].
  by rewrite !length_app, !length_to_bytes_le.
Qed.

End HashlibFacts.

Section CodecFacts.
Import Struct StructFacts.

Lemma calculate_checksum_md5 payload_bytes :
  _calculate_checksum payload_bytes
  = Return (Header.md5_prefix payload_bytes).
Proof.
  unfold _calculate_checksum, unpack, Header.md5_prefix.
  rewrite decide_True
    by (by rewrite length_take, HashlibFacts.length_md5).
  cbn [mbind result_bind unpack_fields size_of].
  by rewrite take_take.
Qed.

Lemma calculate_checksum_static_md5 payload_bytes :
  _calculate_checksum_static payload_bytes
  = Return (Header.md5_prefix payload_bytes).
Proof. apply calculate_checksum_md5. Qed.

Lemma unpack_fields_take f : ∀ (data : bytes) n,
  (calcsize f ≤ n)%nat → unpack_fields f (take n data) = unpack_fields f data.
Proof.
  induction f as [|c f IH]; intros data n Hn; simpl in *; [done|].
  rewrite take_take, Nat.min_l by lia.
  rewrite skipn_firstn_comm, IH by lia. done.
Qed.

Lemma unpack_header data :
  (HEADER_SIZE ≤ length data)%nat →
  unpack HEADER_FORMAT (take HEADER_SIZE data)
  = Return [Header.version_of data; Header.type_of data;
            Header.sequence_of data; Header.timestamp_of data;
            Header.payload_length_of data; Header.checksum_of data;
            Header.reserved_of data].
Proof.
  intros Hlen. unfold unpack.
  change (calcsize HEADER_FORMAT) with HEADER_SIZE.
  rewrite decide_True by (rewrite length_take; lia).
  rewrite unpack_fields_take by done.
  simpl. rewrite !drop_drop. done.
Qed.

Lemma slice_payload data :
  slice data (Z.of_nat HEADER_SIZE)
    (Z.of_nat HEADER_SIZE + Header.payload_length_of data)
  = Header.payload_of data.
Proof.
  unfold slice, Header.payload_of, HEADER_SIZE. f_equal. lia.
Qed.

Variable json_loads : pystr → result pyobj.

(** [deserialize] on an input that holds a whole header: the checks in
    the order the code makes them. *)
Lemma deserialize_unfold now data :
  (HEADER_SIZE ≤ length data)%nat →
  deserialize json_loads now data =
    if negb (Header.version_of data =? VERSION) then Return None
    else if Z.of_nat (length data) <? 24 + Header.payload_length_of data
    then Return None
    else if negb (Header.md5_prefix (Header.payload_of data)
                  =? Header.checksum_of data)
    then Return None
    else
      match payload_json ← Codecs.utf8_decode (Header.payload_of data);
            json_loads payload_json with
      | Raise UnicodeDecodeError => Return None
      | Raise JSONDecodeError => Return None
      | Raise e => Raise e
      | Return payload =>
          type ← MessageType_of_int (Header.type_of data);
          Return (Some (set_checksum (Header.checksum_of data)
                          (new_message now type (Header.sequence_of data)
                             payload (Some (Header.timestamp_of data)))))
      end.
Proof.
  intros Hlen. unfold deserialize.
  rewrite decide_False by lia.
  rewrite unpack_header by done. cbn [mbind result_bind].
  destruct (negb _); [done|].
  change (Z.of_nat HEADER_SIZE) with 24 at 1.
  destruct (_ <? _); [done|].
  rewrite slice_payload, calculate_checksum_static_md5.
  cbn [mbind result_bind]. done.
Qed.

Lemma MessageType_of_int_range n :
  (∃ t, MessageType_of_int n = Return t) ↔ 1 ≤ n ≤ 13.
Proof.
  split.
  - intros [t Ht]. unfold MessageType_of_int in Ht.
    destruct (find _ _) as [t'|] eqn:Hfind; [|discriminate].
    apply find_some in Hfind as [_ Heq]. apply Z.eqb_eq in Heq.
    destruct t'; simpl in Heq; lia.
  - intros Hn.
    assert (n = 1 ∨ n = 2 ∨ n = 3 ∨ n = 4 ∨ n = 5 ∨ n = 6 ∨ n = 7 ∨ n = 8
            ∨ n = 9 ∨ n = 10 ∨ n = 11 ∨ n = 12 ∨ n = 13) as Hcases by lia.
    repeat destruct Hcases as [->|Hcases]; try subst n;
      unfold MessageType_of_int; simpl; eauto.
Qed.

Lemma MessageType_of_int_outside n :
  ¬ (1 ≤ n ≤ 13) → MessageType_of_int n = Raise ValueError.
Proof.
  intros Hn. destruct (MessageType_of_int n) as [t|e] eqn:Ht.
  - exfalso. apply Hn, MessageType_of_int_range. eauto.
  - unfold MessageType_of_int in Ht. by destruct (find _ _); simplify_eq.
Qed.

Lemma MessageType_of_int_of t :
  MessageType_of_int (int_of_MessageType t) = Return t.
Proof. by destruct t. Qed.

(** C8: [deserialize] returns [None], and no message, for an input
    shorter than the 24-byte header, for a payload-length field that
    announces more bytes than the input holds, for a version other than
    1, for a checksum field that differs from the checksum of the payload
    bytes, and for payload bytes that are not valid UTF-8 or not a valid
    JSON document. *)
Theorem deserialize_failure_is_None now data :
  DecodeFailure json_loads data →
  deserialize json_loads now data = Return None.
Proof.
  intros Hfail.
  destruct (decide (length data < HEADER_SIZE)%nat) as [Hshort|Hlong].
  { unfold deserialize. by rewrite decide_True. }
  rewrite deserialize_unfold by lia.
  destruct (Header.version_of data =? VERSION) eqn:Hv; [|done].
  apply Z.eqb_eq in Hv. simpl.
  destruct (_ <? _) eqn:Hl; [done|]. apply Z.ltb_ge in Hl.
  destruct (Header.md5_prefix _ =? _) eqn:Hc; [|done].
  apply Z.eqb_eq in Hc. simpl.
  destruct Hfail as [?|?|?|?|Hutf|s Hutf Hjson]; try (done || lia).
  - by rewrite Hutf.
  - rewrite Hutf. cbn [mbind result_bind]. by rewrite Hjson.
Qed.

(** C9: an input whose header, version, payload length, checksum and
    JSON payload are all valid, but whose type byte is outside 1..13,
    makes [deserialize] raise [ValueError] (from the [MessageType]
    conversion) where a failure would be the result [None]. *)
Theorem deserialize_unknown_type_raises now data :
  DecodesUpToType json_loads data →
  ¬ (1 ≤ Header.type_of data ≤ 13) →
  deserialize json_loads now data = Raise ValueError.
Proof.
  intros [Hlen Hv Hp Hc (s & p & Hs & Hjson)] Hty.
  rewrite deserialize_unfold by done.
  rewrite Hv, Z.eqb_refl. simpl.
  rewrite (proj2 (Z.ltb_ge _ _)) by lia.
  rewrite Hc, Z.eqb_refl. simpl.
  rewrite Hs. cbn [mbind result_bind]. rewrite Hjson.
  by rewrite MessageType_of_int_outside.
Qed.

End CodecFacts.

(** * Facts about the JSON encoder and decoder *)
Module JsonFacts.
Import Json.
Local Open Scope N_scope.

Lemma hex_val_digit n : n < 16 → hex_val (hex_digit n) = Some n.
Proof.
  intros Hn.
  assert (n = 0 ∨ n = 1 ∨ n = 2 ∨ n = 3 ∨ n = 4 ∨ n = 5 ∨ n = 6 ∨ n = 7
          ∨ n = 8 ∨ n = 9 ∨ n = 10 ∨ n = 11 ∨ n = 12 ∨ n = 13 ∨ n = 14
          ∨ n = 15) as Hcases by lia.
  repeat destruct Hcases as [->|Hcases]; try subst n; reflexivity.
Qed.

Lemma hex_digit_ascii n : n < 16 → hex_digit n < 128.
Proof. intros Hn. unfold hex_digit. destruct (n <? 10); lia. Qed.

Lemma decode_u_escape n rest :
  n < 0x10000 →
  ∃ hex4, u_escape n = 92 :: 117 :: hex4
          ∧ decode_uXXXX (hex4 ++ rest) = Return (n, rest).
Proof.
  intros Hn. eexists. split; [reflexivity|].
  assert (0 < 16) by lia.
  unfold decode_uXXXX. simpl app. lazy beta iota.
  rewrite !hex_val_digit by (apply N.mod_lt; lia).
  do 2 f_equal.
  pose proof (N.div_mod n 4096). pose proof (N.div_mod (n / 4096) 16).
  pose proof (N.div_mod n 256). pose proof (N.div_mod (n / 256) 16).
  pose proof (N.div_mod n 16). pose proof (N.div_mod (n / 16) 16).
  pose proof (N.mod_lt n 4096). pose proof (N.mod_lt n 256).
  pose proof (N.mod_lt n 16).
  assert (n / 4096 < 16) by (apply N.Div0.div_lt_upper_bound; lia).
  rewrite (N.mod_small (n / 4096) 16) by lia.
  assert (n / 256 = 16 * (n / 4096) + (n / 256) mod 16) as E1.
  { rewrite (N.div_mod (n / 256) 16) at 1 by lia.
    rewrite N.Div0.div_div. reflexivity. }
  assert (n / 16 = 16 * (n / 256) + (n / 16) mod 16) as E2.
  { rewrite (N.div_mod (n / 16) 16) at 1 by lia.
    rewrite N.Div0.div_div. reflexivity. }
  lia.
Qed.

Lemma lor_high_low a x :
  x < 1024 → N.lor (a * 1024) x = a * 1024 + x.
Proof.
  intros Hx.
  rewrite <- N.lxor_lor, <- N.add_nocarry_lxor; auto;
    apply N.bits_inj; intros i; rewrite N.land_spec, N.bits_0;
    change 1024 with (2 ^ 10);
    (destruct (N.lt_ge_cases i 10);
     [ rewrite N.mul_pow2_bits_low by done; reflexivity
     | rewrite (N.bits_above_log2 x i), andb_false_r; [reflexivity|];
       destruct (N.eq_dec x 0) as [->|];
       [ simpl; lia
       | apply N.lt_le_trans with 10; [|done];
         apply N.log2_lt_pow2; lia ] ]).
Qed.

(** The surrogate pair [json.dumps] writes for a character above the
    basic plane, and the character [scanstring] puts together again. *)
Lemma surrogate_pair c :
  0x10000 ≤ c < 0x110000 →
  let n := c - 0x10000 in
  let hi := N.lor 0xd800 (N.land (N.shiftr n 10) 0x3ff) in
  let lo := N.lor 0xdc00 (N.land n 0x3ff) in
  0xd800 ≤ hi ≤ 0xdbff ∧ 0xdc00 ≤ lo ≤ 0xdfff
  ∧ 0x10000 + N.lor (N.shiftl (hi - 0xd800) 10) (lo - 0xdc00) = c.
Proof.
  intros Hc n hi lo.
  assert (N.land (N.shiftr n 10) 0x3ff = n / 1024) as Ehi.
  { change 0x3ff with (N.ones 10).
    rewrite N.land_ones, N.shiftr_div_pow2. change (2 ^ 10) with 1024.
    apply N.mod_small. apply N.Div0.div_lt_upper_bound. subst n. lia. }
  assert (N.land n 0x3ff = n mod 1024) as Elo.
  { change 0x3ff with (N.ones 10). by rewrite N.land_ones. }
  pose proof (N.mod_lt n 1024 ltac:(lia)) as Hlo.
  assert (n / 1024 < 1024) as Hhi
    by (apply N.Div0.div_lt_upper_bound; subst n; lia).
  assert (hi = 0xd800 + n / 1024) as ->.
  { subst hi. rewrite Ehi. change 0xd800 with (54 * 1024).
    by apply lor_high_low. }
  assert (lo = 0xdc00 + n mod 1024) as ->.
  { subst lo. rewrite Elo. change 0xdc00 with (55 * 1024).
    by apply lor_high_low. }
  split; [lia|]. split; [lia|].
  replace (0xd800 + n / 1024 - 0xd800) with (n / 1024) by lia.
  replace (0xdc00 + n mod 1024 - 0xdc00) with (n mod 1024) by lia.
  rewrite N.shiftl_mul_pow2. change (2 ^ 10) with 1024.
  rewrite lor_high_low by done.
  pose proof (N.div_mod n 1024 ltac:(lia)). subst n. lia.
Qed.

Lemma scanstring_plain fuel c s :
  c ≠ 34 → c ≠ 92 → 32 ≤ c →
  scanstring (S fuel) (c :: s)
  = '(str, rest) ← scanstring fuel s; Return (c :: str, rest).
Proof.
  intros H1 H2 H3. cbn [scanstring].
  rewrite (proj2 (N.eqb_neq c 34)), (proj2 (N.eqb_neq c 92)) by done.
  by rewrite (proj2 (N.ltb_ge c 32)).
Qed.

Lemma scanstring_backslash fuel esc ch s :
  esc ≠ 117 → backslash esc = Some ch →
  scanstring (S fuel) (92 :: esc :: s)
  = '(str, rest) ← scanstring fuel s; Return (ch :: str, rest).
Proof.
  intros H1 H2. cbn [scanstring].
  change (92 =? 34) with false. change (92 =? 92) with true.
  cbv beta iota. rewrite (proj2 (N.eqb_neq esc 117)) by done.
  by rewrite H2.
Qed.

Lemma scanstring_u fuel hex4 uni s :
  decode_uXXXX hex4 = Return (uni, s) →
  ¬ (0xd800 ≤ uni ≤ 0xdbff) →
  scanstring (S fuel) (92 :: 117 :: hex4)
  = '(str, rest) ← scanstring fuel s; Return (uni :: str, rest).
Proof.
  intros H1 H2. cbn [scanstring].
  change (92 =? 34) with false. change (92 =? 92) with true.
  change (117 =? 117) with true. cbv beta iota.
  rewrite H1. cbn [mbind result_bind].
  destruct (N.leb_spec 0xd800 uni), (N.leb_spec uni 0xdbff);
    cbn [andb]; try done.
  exfalso. apply H2. lia.
Qed.

Lemma scanstring_pair fuel hex4 uni hex4' uni2 s :
  decode_uXXXX hex4 = Return (uni, 92 :: 117 :: hex4') →
  decode_uXXXX hex4' = Return (uni2, s) →
  0xd800 ≤ uni ≤ 0xdbff → 0xdc00 ≤ uni2 ≤ 0xdfff →
  scanstring (S fuel) (92 :: 117 :: hex4)
  = '(str, rest) ← scanstring fuel s;
    Return ((0x10000 + N.lor (N.shiftl (uni - 0xd800) 10) (uni2 - 0xdc00))
              :: str, rest).
Proof.
  intros H1 H2 H3 H4. cbn [scanstring].
  change (92 =? 34) with false. change (92 =? 92) with true.
  change (117 =? 117) with true. cbv beta iota.
  rewrite H1. cbn [mbind result_bind].
  rewrite (proj2 (N.leb_le 0xd800 uni)), (proj2 (N.leb_le uni 0xdbff)) by lia.
  cbn [andb prefix_of]. change (92 =? 92) with true.
  change (117 =? 117) with true. cbv beta iota.
  rewrite H2. cbn [mbind result_bind].
  by rewrite (proj2 (N.leb_le 0xdc00 uni2)), (proj2 (N.leb_le uni2 0xdfff))
    by lia.
Qed.

(** One character of a text, escaped and scanned again. *)
Lemma scanstring_escape_char fuel c s :
  scalar c →
  scanstring (S fuel) (escape_char c ++ s)
  = '(str, rest) ← scanstring fuel s; Return (c :: str, rest).
Proof.
  intros [Hc Hsur]. unfold escape_char.
  destruct (N.eqb_spec c 34) as [->|?];
    [by apply scanstring_backslash|].
  destruct (N.eqb_spec c 92) as [->|?];
    [by apply scanstring_backslash|].
  destruct (N.eqb_spec c 8) as [->|?];
    [by apply scanstring_backslash|].
  destruct (N.eqb_spec c 12) as [->|?];
    [by apply scanstring_backslash|].
  destruct (N.eqb_spec c 10) as [->|?];
    [by apply scanstring_backslash|].
  destruct (N.eqb_spec c 13) as [->|?];
    [by apply scanstring_backslash|].
  destruct (N.eqb_spec c 9) as [->|?];
    [by apply scanstring_backslash|].
  destruct ((32 <=? c) && (c <=? 126)) eqn:Hprint.
  { apply andb_true_iff in Hprint as [H1%N.leb_le _].
    by apply scanstring_plain. }
  unfold Codecs.is_surrogate in Hsur.
  destruct (N.ltb_spec c 0x10000) as [Hlow|Hhigh].
  - destruct (decode_u_escape c s Hlow) as (hex4 & -> & Hdec).
    simpl app. apply scanstring_u; [done|].
    intros [H1 H2].
    rewrite (proj2 (N.leb_le 0xD800 c)), (proj2 (N.leb_le c 0xDFFF)) in Hsur
      by lia.
    done.
  - pose proof (surrogate_pair c ltac:(lia)) as Hpair.
    cbv zeta in Hpair. destruct Hpair as (Hhi & Hlo & Heq).
    cbv zeta. set (k := c - 0x10000) in *.
    set (hi := N.lor 0xd800 _) in *. set (lo := N.lor 0xdc00 _) in *.
    destruct (decode_u_escape lo s ltac:(lia)) as (hex4' & Elo & Hdec').
    destruct (decode_u_escape hi (92 :: 117 :: hex4' ++ s) ltac:(lia))
      as (hex4 & Ehi & Hdec).
    rewrite Ehi, Elo. rewrite <- Heq.
    simpl app. rewrite <- app_assoc. simpl app.
    by eapply scanstring_pair.
Qed.

Lemma scanstring_escape s : ∀ fuel rest,
  Forall scalar s → (length s < fuel)%nat →
  scanstring fuel (flat_map escape_char s ++ 34 :: rest) = Return (s, rest).
Proof.
  induction s as [|c s IH]; intros fuel rest Hs Hfuel;
    (destruct fuel as [|fuel]; [simpl in Hfuel; lia|]).
  - reflexivity.
  - inversion Hs; subst. cbn [flat_map]. rewrite <- app_assoc.
    rewrite scanstring_escape_char by done.
    rewrite IH by (auto; simpl in Hfuel; lia). reflexivity.
Qed.

Lemma escape_char_nonempty c : (1 ≤ length (escape_char c))%nat.
Proof.
  unfold escape_char, u_escape.
  repeat match goal with
         | |- context [if ?b then _ else _] => destruct b
         end; simpl; try rewrite length_app; simpl; lia.
Qed.

Lemma length_flat_map_escape s :
  (length s ≤ length (flat_map escape_char s))%nat.
Proof.
  induction s as [|c s IH]; simpl; [lia|].
  rewrite length_app. pose proof (escape_char_nonempty c). lia.
Qed.


(** *** Numbers *)

Lemma digit_of_digit c :
  48 ≤ c ≤ 57 → is_Some (digit_of c).
Proof.
  intros Hc.
  assert (c = 48 ∨ c = 49 ∨ c = 50 ∨ c = 51 ∨ c = 52 ∨ c = 53 ∨ c = 54
          ∨ c = 55 ∨ c = 56 ∨ c = 57) as Hcases by lia.
  repeat destruct Hcases as [->|Hcases]; try subst c; by eexists.
Qed.

Lemma follows_no_digit rest : follows rest → starts_with_digit rest = false.
Proof.
  destruct rest as [|c rest]; [done|].
  intros [ -> | [ -> | -> ] ]; reflexivity.
Qed.

Lemma follows_no_float rest : follows rest → float_follows rest = false.
Proof.
  destruct rest as [|c rest]; [done|].
  intros [ -> | [ -> | -> ] ]; reflexivity.
Qed.

Lemma scan_digits_stop rest :
  starts_with_digit rest = false → scan_digits rest = (Decimal.Nil, rest).
Proof.
  destruct rest as [|c rest]; [done|]. simpl.
  destruct (digit_of c); [|done].
  intros Hd. apply bool_decide_eq_false in Hd. destruct Hd. by eexists.
Qed.

Lemma scan_digits_chars d rest :
  starts_with_digit rest = false →
  scan_digits (chars_of_uint d ++ rest) = (d, rest).
Proof.
  intros Hrest.
  induction d as [ |d IH|d IH|d IH|d IH|d IH|d IH|d IH|d IH|d IH|d IH];
    [by apply scan_digits_stop|..];
    cbn [chars_of_uint app scan_digits];
    match goal with
    | |- context [digit_of ?c] =>
        let r := eval vm_compute in (digit_of c) in
        change (digit_of c) with r
    end; cbv beta iota; by rewrite IH.
Qed.

Lemma unorm_to_uint p : Decimal.unorm (Pos.to_uint p) = Pos.to_uint p.
Proof.
  rewrite <- DecimalPos.Unsigned.to_of, DecimalPos.Unsigned.of_to.
  reflexivity.
Qed.

(** The decimal digits of a positive number start with a digit other
    than zero. *)
Lemma chars_of_pos_head p :
  ∃ c tl, chars_of_uint (Pos.to_uint p) = c :: tl ∧ 49 ≤ c ≤ 57.
Proof.
  pose proof (unorm_to_uint p) as Hnorm.
  pose proof (DecimalPos.Unsigned.to_uint_nonnil p) as Hnil.
  pose proof (DecimalPos.Unsigned.to_uint_nonzero p) as Hzero.
  destruct (Pos.to_uint p) as [ |d|d|d|d|d|d|d|d|d|d];
    try (simpl; eexists _, _; split; [reflexivity|lia]).
  - done.
  - exfalso. rewrite DecimalFacts.unorm_D0 in Hnorm.
    destruct d as [ |d|d|d|d|d|d|d|d|d|d]; try done;
      match type of Hnorm with
      | Decimal.unorm ?u = _ =>
          pose proof (DecimalFacts.nb_digits_unorm u ltac:(done)) as Hnb;
          rewrite Hnorm in Hnb; simpl in Hnb; lia
      end.
Qed.

Lemma scan_int_part_pos p rest :
  starts_with_digit rest = false →
  scan_int_part (chars_of_uint (Pos.to_uint p) ++ rest)
  = Some (Pos.to_uint p, rest).
Proof.
  intros Hrest.
  destruct (chars_of_pos_head p) as (c & tl & Hhd & Hc).
  pose proof (scan_digits_chars (Pos.to_uint p) rest Hrest) as Hscan.
  rewrite Hhd in *. cbn [app scan_int_part].
  rewrite (proj2 (N.eqb_neq c 48)) by lia.
  rewrite bool_decide_eq_true_2 by (apply digit_of_digit; lia).
  by rewrite <- Hscan.
Qed.

Lemma str_of_Z_head z :
  ∃ c tl, str_of_Z z = c :: tl ∧ (c = 45 ∨ 48 ≤ c ≤ 57).
Proof.
  unfold str_of_Z. destruct z as [|p|p]; simpl.
  - eexists _, _. split; [reflexivity|]. lia.
  - destruct (chars_of_pos_head p) as (c & tl & -> & Hc).
    eexists _, _. split; [reflexivity|]. lia.
  - eexists _, _. split; [reflexivity|]. lia.
Qed.

Lemma scan_number_int z rest :
  follows rest →
  scan_number (str_of_Z z ++ rest) = Some (Return (PyInt z, rest)).
Proof.
  intros Hrest.
  pose proof (follows_no_digit _ Hrest) as Hnd.
  pose proof (follows_no_float _ Hrest) as Hnf.
  unfold str_of_Z. destruct z as [|p|p]; simpl Z.to_int.
  - unfold scan_number. simpl. by rewrite Hnf.
  - unfold scan_number.
    destruct (chars_of_pos_head p) as (c & tl & Hhd & Hc).
    pose proof (scan_int_part_pos p rest Hnd) as Hint.
    rewrite Hhd in *. cbn [app] in *.
    rewrite (proj2 (N.eqb_neq c 45)) by lia.
    rewrite Hint, Hnf.
    do 4 f_equal. apply (DecimalZ.of_to (Z.pos p)).
  - unfold scan_number. cbn [app]. change (45 =? 45) with true.
    cbv beta iota.
    rewrite scan_int_part_pos, Hnf by done.
    do 4 f_equal. apply (DecimalZ.of_to (Z.neg p)).
Qed.

Lemma scan_atom_number c tl :
  c ≠ 110 → c ≠ 116 → c ≠ 102 →
  scan_atom (c :: tl)
  = match scan_number (c :: tl) with
    | Some r => r
    | None =>
        match prefix_of (u "NaN") (c :: tl),
              prefix_of (u "Infinity") (c :: tl),
              prefix_of (u "-Infinity") (c :: tl) with
        | None, None, None => Raise JSONDecodeError
        | _, _, _ => Raise FloatUnsupported
        end
    end.
Proof.
  intros H1 H2 H3. unfold scan_atom.
  change (u "null") with [110; 117; 108; 108].
  change (u "true") with [116; 114; 117; 101].
  change (u "false") with [102; 97; 108; 115; 101].
  cbn [prefix_of].
  rewrite (proj2 (N.eqb_neq 110 c)), (proj2 (N.eqb_neq 116 c)),
    (proj2 (N.eqb_neq 102 c)) by done.
  reflexivity.
Qed.

Lemma scan_once_atom fuel c tl :
  c ≠ 34 → c ≠ 123 → c ≠ 91 →
  scan_once (S fuel) (c :: tl) = scan_atom (c :: tl).
Proof.
  intros H1 H2 H3. cbn [scan_once].
  by rewrite (proj2 (N.eqb_neq c 34)), (proj2 (N.eqb_neq c 123)),
    (proj2 (N.eqb_neq c 91)) by done.
Qed.

Lemma scan_once_int fuel z rest :
  follows rest →
  scan_once (S fuel) (str_of_Z z ++ rest) = Return (PyInt z, rest).
Proof.
  intros Hrest.
  pose proof (scan_number_int z rest Hrest) as Hnum.
  destruct (str_of_Z_head z) as (c & tl & Hhd & Hc).
  rewrite Hhd in *. cbn [app] in *.
  rewrite scan_once_atom, scan_atom_number, Hnum by lia. reflexivity.
Qed.


(** *** Objects *)

Lemma pyobj_ind' (P : pyobj → Prop) :
  P PyNone → (∀ b, P (PyBool b)) → (∀ z, P (PyInt z)) → (∀ s, P (PyStr s)) →
  (∀ l, Forall P l → P (PyList l)) →
  (∀ d, Forall (λ kv, P kv.2) d → P (PyDict d)) →
  ∀ o, P o.
Proof.
  intros HNone HBool HInt HStr HList HDict.
  fix IH 1. intros [ |b|z|s|l|d].
  - exact HNone.
  - exact (HBool b).
  - exact (HInt z).
  - exact (HStr s).
  - apply HList.
    induction l as [|x l IHl]; constructor; [apply IH | exact IHl].
  - apply HDict.
    induction d as [|[k v] d IHd]; constructor; [apply IH | exact IHd].
Qed.

Lemma u_comma : u ", " = [44; 32].
Proof. reflexivity. Qed.
Lemma u_colon : u ": " = [58; 32].
Proof. reflexivity. Qed.

(** An encoding starts with a character that is no white space and
    closes nothing. *)
Lemma dumps_head o :
  ∃ c tl, dumps o = c :: tl ∧ is_ws c = false ∧ c ≠ 93 ∧ c ≠ 125.
Proof.
  destruct o as [ |[]|z|s|l|d]; try (by eexists _, _).
  destruct (str_of_Z_head z) as (c & tl & Hhd & Hc).
  exists c, tl. split; [done|].
  unfold is_ws.
  rewrite (proj2 (N.eqb_neq c 32)), (proj2 (N.eqb_neq c 9)),
    (proj2 (N.eqb_neq c 10)), (proj2 (N.eqb_neq c 13)) by lia.
  split; [done|]. lia.
Qed.

Lemma skip_ws_dumps o rest : skip_ws (dumps o ++ rest) = dumps o ++ rest.
Proof.
  destruct (dumps_head o) as (c & tl & -> & Hws & _).
  simpl. by rewrite Hws.
Qed.

Lemma expect_close_dumps o rest : expect 93 (dumps o ++ rest) = None.
Proof.
  destruct (dumps_head o) as (c & tl & -> & _ & Hc & _).
  simpl. by rewrite (proj2 (N.eqb_neq c 93)).
Qed.

Lemma scan_once_str fuel s rest :
  Forall scalar s →
  scan_once (S fuel) (encode_basestring_ascii s ++ rest)
  = Return (PyStr s, rest).
Proof.
  intros Hs. unfold encode_basestring_ascii. cbn [app scan_once].
  change (34 =? 34) with true. cbv beta iota.
  rewrite <- app_assoc. cbn [app].
  rewrite scanstring_escape; [done|done|].
  rewrite length_app. pose proof (length_flat_map_escape s). simpl. lia.
Qed.

Lemma scan_key k rest :
  Forall scalar k →
  ∃ tl, encode_basestring_ascii k ++ rest = 34 :: tl
        ∧ ∀ fuel, (length tl < fuel)%nat →
                  scanstring fuel tl = Return (k, rest).
Proof.
  intros Hk. unfold encode_basestring_ascii.
  exists (flat_map escape_char k ++ 34 :: rest). split.
  { cbn [app]. by rewrite <- app_assoc. }
  intros fuel Hfuel. apply scanstring_escape; [done|].
  pose proof (length_flat_map_escape k).
  rewrite length_app in Hfuel. lia.
Qed.

Lemma join_cons_cons sep p q ps :
  join sep (p :: q :: ps) = p ++ sep ++ join sep (q :: ps).
Proof. reflexivity. Qed.

Lemma skip_ws_nonws c s : is_ws c = false → skip_ws (c :: s) = c :: s.
Proof. intros Hc. simpl. by rewrite Hc. Qed.

Lemma skip_ws_space s : skip_ws (32 :: s) = skip_ws s.
Proof. reflexivity. Qed.

Lemma expect_hit c s : expect c (c :: s) = Some s.
Proof. simpl. by rewrite N.eqb_refl. Qed.

Lemma expect_miss c c' s : c' ≠ c → expect c (c' :: s) = None.
Proof. intros Hc. simpl. by rewrite (proj2 (N.eqb_neq c' c)). Qed.

(** The items of a non-empty array. *)
Lemma array_items_dumps l : ∀ fuel rest values,
  Forall (λ o, ∀ fuel rest, (need o ≤ fuel)%nat → follows rest →
               scan_once fuel (dumps o ++ rest) = Return (o, rest)) l →
  l ≠ [] →
  (foldr (λ x n, S (need x + n)) 0 l ≤ fuel)%nat →
  array_items fuel (join (u ", ") (map dumps l) ++ 93 :: rest) values
  = Return (PyList (values ++ l), rest).
Proof.
  induction l as [|x l IH]; intros fuel rest values Hall Hne Hfuel; [done|].
  inversion Hall as [|? ? Hx Hl]; subst. cbn [foldr] in Hfuel.
  destruct fuel as [|fuel]; [lia|]. cbn [array_items].
  destruct l as [|y l].
  - cbn [map join]. rewrite Hx by (simpl; auto; lia).
    cbn [mbind result_bind].
    by rewrite (skip_ws_nonws 93), expect_hit by done.
  - change (join (u ", ") (map dumps (x :: y :: l)))
      with (dumps x ++ u ", " ++ join (u ", ") (map dumps (y :: l))).
    rewrite u_comma, <- !app_assoc. cbn [app].
    rewrite Hx by (simpl; auto; lia).
    cbn [mbind result_bind].
    rewrite (skip_ws_nonws 44) by done.
    rewrite expect_miss, expect_hit, skip_ws_space by done.
    change (map dumps (y :: l)) with (dumps y :: map dumps l).
    assert (∃ tl, join [44; 32] (dumps y :: map dumps l) = dumps y ++ tl)
      as [tl Htl].
    { destruct l; cbn [map join]; [exists []; by rewrite app_nil_r|eauto]. }
    rewrite <- u_comma.
    change (dumps y :: map dumps l) with (map dumps (y :: l)).
    pose proof (IH fuel rest (values ++ [x]) Hl ltac:(done)
                  ltac:(cbn [foldr] in *; lia)) as HIH.
    rewrite u_comma in *. cbn [map] in HIH |- *.
    rewrite Htl in HIH |- *. rewrite <- app_assoc in HIH |- *.
    rewrite skip_ws_dumps. rewrite HIH.
    by rewrite <- app_assoc.
Qed.


Lemma dict_set_fresh k v d :
  k ∉ map fst d → dict_set k v d = d ++ [(k, v)].
Proof.
  induction d as [|[k' v'] d IH]; intros Hk; simpl; [done|].
  rewrite decide_False by (intros ->; apply Hk; simpl; left).
  rewrite IH; [done|]. intros Hin. apply Hk. simpl. by right.
Qed.

Lemma dict_of_pairs_app d : ∀ acc,
  NoDup (map fst (acc ++ d)) →
  fold_left (λ d kv, dict_set kv.1 kv.2 d) d acc = acc ++ d.
Proof.
  induction d as [|[k v] d IH]; intros acc Hnd; simpl.
  - by rewrite app_nil_r.
  - rewrite dict_set_fresh.
    + rewrite IH; rewrite <- app_assoc; done.
    + rewrite map_app in Hnd. apply NoDup_app in Hnd as (_ & Hdisj & _).
      intros Hin. apply (Hdisj k Hin). simpl. left.
Qed.

Lemma dict_of_pairs_NoDup d : NoDup (map fst d) → dict_of_pairs d = d.
Proof. intros Hnd. by apply (dict_of_pairs_app d []). Qed.

Lemma json_text_list l : json_text (PyList l) ↔ Forall json_text l.
Proof.
  cbn [json_text]. induction l as [|x l IH]; simpl.
  - split; auto.
  - rewrite IH. split; [intros []; by constructor|by inversion 1].
Qed.

Lemma json_text_dict d :
  json_text (PyDict d)
  ↔ NoDup (map fst d)
    ∧ Forall (λ kv, Forall scalar kv.1 ∧ json_text kv.2) d.
Proof.
  cbn [json_text]. apply and_iff_compat_l.
  induction d as [|[k v] d IH]; simpl.
  - split; auto.
  - rewrite IH. split; [intros (? & ? & ?); by constructor|].
    inversion 1 as [|? ? [] ?]; auto.
Qed.

Lemma item_head kv : ∃ tl, item kv = 34 :: tl.
Proof. destruct kv as [k v]. by eexists. Qed.

Lemma join_items_head kv d :
  ∃ tl, join (u ", ") (map item (kv :: d)) = 34 :: tl.
Proof.
  destruct (item_head kv) as [tl Htl].
  destruct d; cbn [map join]; rewrite Htl; by eexists.
Qed.

(** The items of a non-empty object; the input starts after the quote
    that opens the first key. *)
Lemma object_items_dumps d : ∀ fuel rest pairs tl,
  Forall (λ kv, Forall scalar kv.1
                ∧ ∀ fuel rest, (need kv.2 ≤ fuel)%nat → follows rest →
                    scan_once fuel (dumps kv.2 ++ rest)
                    = Return (kv.2, rest)) d →
  d ≠ [] →
  (foldr (λ kv n, let '(_, v) := kv in S (need v + n)) 0 d ≤ fuel)%nat →
  join (u ", ") (map item d) ++ 125 :: rest = 34 :: tl →
  object_items fuel tl pairs
  = Return (PyDict (dict_of_pairs (pairs ++ d)), rest).
Proof.
  induction d as [|[k v] d IH]; intros fuel rest pairs tl Hall Hne Hfuel Htl;
    [done|].
  inversion Hall as [|? ? [Hk Hv] Hd]; subst. simpl in Hk, Hv.
  cbn [foldr] in Hfuel.
  destruct fuel as [|fuel]; [lia|]. cbn [object_items].
  assert (∃ restv,
    join (u ", ") (map item ((k, v) :: d)) ++ 125 :: rest
    = encode_basestring_ascii k ++ u ": " ++ dumps v ++ restv
    ∧ follows restv
    ∧ match d with
      | [] => restv = 125 :: rest
      | _ => restv
             = 44 :: 32 :: join (u ", ") (map item d) ++ 125 :: rest
      end) as (restv & Hsplit & Hfollow & Hrestv).
  { destruct d as [|kv' d'].
    - exists (125 :: rest). cbn [map join item].
      rewrite <- !app_assoc. simpl. auto.
    - exists (44 :: 32 :: join (u ", ") (map item (kv' :: d'))
                 ++ 125 :: rest).
      split; [|split; [simpl; auto|reflexivity]].
      cbn [map]. rewrite join_cons_cons. cbn [item].
      rewrite u_comma, <- !app_assoc. reflexivity. }
  rewrite Hsplit in Htl.
  destruct (scan_key k (u ": " ++ dumps v ++ restv) Hk)
    as (tl' & Hkey & Hscan).
  rewrite Hkey in Htl. injection Htl as <-.
  rewrite Hscan by lia. cbn [mbind result_bind].
  rewrite u_colon. cbn [app].
  rewrite (skip_ws_nonws 58), expect_hit, skip_ws_space, skip_ws_dumps
    by done.
  rewrite Hv by (auto; lia). cbn [mbind result_bind].
  destruct d as [|kv' d'].
  - subst restv.
    by rewrite (skip_ws_nonws 125), expect_hit by done.
  - subst restv.
    rewrite (skip_ws_nonws 44), expect_miss, expect_hit, skip_ws_space
      by done.
    destruct (join_items_head kv' d') as [tl'' Htl''].
    rewrite Htl''. cbn [app].
    rewrite (skip_ws_nonws 34), expect_hit by done.
    rewrite (IH fuel rest (pairs ++ [(k, v)]) (tl'' ++ 125 :: rest) Hd
               ltac:(done)).
    + by rewrite <- app_assoc.
    + cbn [foldr] in *. lia.
    + by rewrite Htl''.
Qed.

(** [scan_once] reads the encoding of a payload of text back, whatever
    follows it inside an encoding. *)
Lemma scan_once_dumps o :
  json_text o → ∀ fuel rest,
  (need o ≤ fuel)%nat → follows rest →
  scan_once fuel (dumps o ++ rest) = Return (o, rest).
Proof.
  induction o as [ |b|z|s|l IHl|d IHd] using pyobj_ind';
    intros Htext fuel rest Hfuel Hrest;
    (destruct fuel as [|fuel]; [simpl in Hfuel; lia|]).
  - reflexivity.
  - by destruct b.
  - by apply scan_once_int.
  - by apply scan_once_str.
  - apply json_text_list in Htext.
    change (dumps (PyList l))
      with (91 :: join (u ", ") (map dumps l) ++ [93]).
    cbn [app scan_once]. change (91 =? 34) with false.
    change (91 =? 123) with false. change (91 =? 91) with true.
    cbv beta iota. rewrite <- app_assoc. cbn [app].
    destruct l as [|x l].
    + cbn [map join app].
      by rewrite (skip_ws_nonws 93), expect_hit by done.
    + assert (∃ tl, join (u ", ") (map dumps (x :: l)) = dumps x ++ tl)
        as [tl Htl].
      { destruct l; cbn [map join];
          [exists []; by rewrite app_nil_r|eauto]. }
      pose proof (array_items_dumps (x :: l) fuel rest []) as Hitems.
      rewrite Htl in Hitems |- *. rewrite <- app_assoc in Hitems |- *.
      rewrite skip_ws_dumps, expect_close_dumps.
      apply Hitems; [|done|cbn [need] in Hfuel; lia].
      apply Forall_forall. intros o Ho fuel' rest'.
      rewrite Forall_forall in IHl, Htext. by apply IHl, Htext.
  - apply json_text_dict in Htext as [Hnd Htext].
    change (dumps (PyDict d))
      with (123 :: join (u ", ") (map item d) ++ [125]).
    cbn [app scan_once]. change (123 =? 34) with false.
    change (123 =? 123) with true.
    cbv beta iota. rewrite <- app_assoc. cbn [app].
    destruct d as [|kv d].
    + cbn [map join app].
      by rewrite (skip_ws_nonws 125), expect_hit by done.
    + destruct (join_items_head kv d) as [tl Htl].
      rewrite Htl. cbn [app].
      rewrite (skip_ws_nonws 34), expect_miss, expect_hit by done.
      rewrite (object_items_dumps (kv :: d) fuel rest [] (tl ++ 125 :: rest)).
      * cbn [app]. by rewrite dict_of_pairs_NoDup.
      * apply Forall_forall. intros [k v] Hkv.
        rewrite Forall_forall in IHd, Htext.
        destruct (Htext _ Hkv) as [Hk Hv]. split; [done|].
        intros fuel' rest'. by apply (IHd _ Hkv).
      * done.
      * cbn [need] in Hfuel. lia.
      * by rewrite Htl.
Qed.


(** *** The encoding is ASCII, and long enough for the fuel of [loads] *)

Lemma ascii_u_escape n : ascii (u_escape n).
Proof.
  unfold u_escape.
  repeat constructor; try lia; apply hex_digit_ascii, N.mod_lt; lia.
Qed.

Lemma ascii_escape_char c : ascii (escape_char c).
Proof.
  unfold escape_char.
  repeat match goal with
         | |- context [if ?b then _ else _] => destruct b eqn:?
         end;
    try (repeat constructor; lia);
    try apply ascii_u_escape;
    try (apply Forall_app; split; apply ascii_u_escape).
  constructor; [|constructor].
  match goal with
  | H : (_ <=? _) && (_ <=? _) = true |- _ =>
      apply andb_true_iff in H as [_ H%N.leb_le]
  end. lia.
Qed.

Lemma ascii_encode_basestring s : ascii (encode_basestring_ascii s).
Proof.
  unfold encode_basestring_ascii. constructor; [lia|].
  apply Forall_app. split; [|repeat constructor; lia].
  induction s; simpl; [constructor|].
  apply Forall_app. split; [apply ascii_escape_char|done].
Qed.

Lemma ascii_chars_of_uint d : ascii (chars_of_uint d).
Proof. induction d; simpl; constructor; (lia || done). Qed.

Lemma ascii_join sep parts :
  ascii sep → Forall ascii parts → ascii (join sep parts).
Proof.
  intros Hsep. induction 1 as [|p [|q ps] Hp Hps IH]; cbn [join]; auto.
  - constructor.
  - apply Forall_app. split; [done|]. apply Forall_app. split; [done|].
    apply IH.
Qed.

Lemma ascii_dumps o : ascii (dumps o).
Proof.
  induction o as [ |b|z|s|l IHl|d IHd] using pyobj_ind'.
  - repeat constructor; lia.
  - destruct b; repeat constructor; lia.
  - simpl. unfold str_of_Z. destruct (Z.to_int z);
      [|constructor; [lia|]]; apply ascii_chars_of_uint.
  - apply ascii_encode_basestring.
  - change (dumps (PyList l))
      with (91 :: join (u ", ") (map dumps l) ++ [93]).
    constructor; [lia|]. apply Forall_app. split; [|repeat constructor; lia].
    apply ascii_join; [repeat constructor; lia|]. by apply Forall_map.
  - change (dumps (PyDict d))
      with (123 :: join (u ", ") (map item d) ++ [125]).
    constructor; [lia|]. apply Forall_app. split; [|repeat constructor; lia].
    apply ascii_join; [repeat constructor; lia|]. apply Forall_map.
    eapply Forall_impl; [exact IHd|]. intros [k v] Hv. cbn [snd item] in *.
    apply Forall_app. split; [apply ascii_encode_basestring|].
    apply Forall_app. split; [repeat constructor; lia|done].
Qed.

Lemma need_items_bound l :
  Forall (λ o, (need o ≤ S (length (dumps o)))%nat) l →
  (foldr (λ x n, S (need x + n)) 0 l
   ≤ length (join (u ", ") (map dumps l)) + 2)%nat.
Proof.
  induction 1 as [|x [|y l] Hx Hl IH]; [simpl; lia|cbn; lia|].
  cbn [map] in *. rewrite join_cons_cons, !length_app.
  cbn [foldr] in *. rewrite u_comma in *. cbn [length]. lia.
Qed.

Lemma need_pairs_bound d :
  Forall (λ kv, (need kv.2 ≤ S (length (dumps kv.2)))%nat) d →
  (foldr (λ kv n, let '(_, v) := kv in S (need v + n)) 0 d
   ≤ length (join (u ", ") (map item d)) + 2)%nat.
Proof.
  induction 1 as [|[k v] [|[k' v'] d] Hx Hl IH]; [simpl; lia| |].
  - cbn [map join foldr item snd] in *. rewrite !length_app. lia.
  - cbn [map] in *. rewrite join_cons_cons, !length_app.
    cbn [foldr item snd] in *. rewrite !length_app.
    rewrite u_colon, u_comma in *. cbn [length]. lia.
Qed.

Lemma need_bound o : (need o ≤ S (length (dumps o)))%nat.
Proof.
  induction o as [ |b|z|s|l IHl|d IHd] using pyobj_ind'; try (simpl; lia).
  - change (dumps (PyList l))
      with (91 :: join (u ", ") (map dumps l) ++ [93]).
    pose proof (need_items_bound l IHl).
    cbn [need length]. rewrite length_app. simpl. lia.
  - change (dumps (PyDict d))
      with (123 :: join (u ", ") (map item d) ++ [125]).
    pose proof (need_pairs_bound d IHd).
    cbn [need length]. rewrite length_app. simpl. lia.
Qed.

(** [json.loads(json.dumps(o)) == o] for a payload of text. *)
Theorem loads_dumps o : json_text o → loads (dumps o) = Return o.
Proof.
  intros Htext. unfold loads.
  pose proof (ascii_dumps o) as Hascii.
  destruct (dumps_head o) as (c & tl & Hhd & Hws & _).
  assert (expect 0xfeff (dumps o) = None) as ->.
  { rewrite Hhd in *. inversion Hascii; subst.
    apply expect_miss. lia. }
  rewrite bool_decide_eq_false_2 by (by intros [? [=]]).
  pose proof (skip_ws_dumps o []) as Hskip.
  pose proof (scan_once_dumps o Htext (S (length (dumps o))) []
                (need_bound o) I) as Hscan.
  rewrite app_nil_r in Hskip, Hscan. by rewrite Hskip, Hscan.
Qed.

End JsonFacts.

(** * The round trip through the frame codec *)
Module CodecsFacts.
Import Codecs.

Lemma to_N_byte_of_N c : (c < 256)%N → Byte.to_N (byte_of_N c) = c.
Proof.
  intros Hc. unfold byte_of_N.
  destruct (Byte.of_N c) as [b|] eqn:Hb; simpl.
  - by apply Byte.to_of_N.
  - apply Byte.of_N_None_iff in Hb. lia.
Qed.

Lemma utf8_encode_ascii s :
  Json.ascii s → utf8_encode s = Return (map byte_of_N s).
Proof.
  induction 1 as [|c s Hc Hs IH]; [done|].
  cbn [utf8_encode map]. unfold encode_char.
  rewrite (proj2 (N.ltb_lt c 0x80)) by done.
  cbn [mbind result_bind]. by rewrite IH.
Qed.

Lemma utf8_decode_ascii s :
  Json.ascii s → utf8_decode (map byte_of_N s) = Return s.
Proof.
  induction 1 as [|c s Hc Hs IH]; [done|].
  cbn [utf8_decode map]. rewrite to_N_byte_of_N by lia.
  rewrite (proj2 (N.ltb_lt c 0x80)) by done.
  by rewrite IH.
Qed.

End CodecsFacts.

Section RoundTrip.
Import Struct StructFacts.

Lemma md5_prefix_range payload_bytes :
  0 ≤ Header.md5_prefix payload_bytes < 2 ^ 32.
Proof.
  unfold Header.md5_prefix.
  pose proof (from_bytes_be_range (take 4 (Hashlib.md5 payload_bytes))) as H.
  rewrite length_take, HashlibFacts.length_md5 in H. exact H.
Qed.

Lemma int_of_MessageType_range t : 1 ≤ int_of_MessageType t ≤ 13.
Proof. destruct t; simpl; lia. Qed.

(** The fields and the payload region of a frame that [struct.pack]
    and a payload make up. *)
Lemma header_of_pack v t s ts len c r header tail :
  pack HEADER_FORMAT [v; t; s; ts; len; c; r] = Return header →
  let data := header ++ tail in
  length header = HEADER_SIZE
  ∧ Header.version_of data = v ∧ Header.type_of data = t
  ∧ Header.sequence_of data = s ∧ Header.timestamp_of data = ts
  ∧ Header.payload_length_of data = len ∧ Header.checksum_of data = c.
Proof.
  intros Hpack data.
  pose proof (pack_length _ _ _ Hpack) as Hlen.
  change (calcsize HEADER_FORMAT) with HEADER_SIZE in Hlen.
  pose proof (unpack_header data) as Hun.
  unfold data in Hun at 2.
  rewrite take_app_length' in Hun by done.
  rewrite (unpack_pack _ _ _ Hpack) in Hun.
  specialize (Hun ltac:(unfold data; rewrite length_app; lia)).
  injection Hun as -> -> -> -> -> -> ->. done.
Qed.

(** C3: for a message [m] of any of the 13 types with a payload of
    text, [serialize] succeeds and [deserialize] of its bytes yields a
    message with the type, the sequence number and the payload of
    [m]. *)
Theorem deserialize_serialize now m :
  WellFormedMessage m →
  ∃ data m',
    (serialize m).1 = Return data
    ∧ deserialize Json.loads now data = Return (Some m')
    ∧ msg_type m' = msg_type m
    ∧ sequence_num m' = sequence_num m
    ∧ payload m' = payload m.
Proof.
  intros [Hv Hseq Hts Htext Hlen].
  pose proof (JsonFacts.ascii_dumps (payload m)) as Hascii.
  set (payload_bytes := map Codecs.byte_of_N (Json.dumps (payload m))).
  assert (length payload_bytes = length (Json.dumps (payload m))) as Hbytes
    by apply length_map.
  destruct (pack_fits HEADER_FORMAT
              [version m; int_of_MessageType (msg_type m); sequence_num m;
               timestamp m; Z.of_nat (length payload_bytes);
               Header.md5_prefix payload_bytes; 0]) as [header Hpack].
  { pose proof (md5_prefix_range payload_bytes).
    pose proof (int_of_MessageType_range (msg_type m)).
    repeat constructor; apply fits_spec; simpl; rewrite ?Hv; unfold VERSION;
      lia. }
  exists (header ++ payload_bytes).
  eexists. split.
  { unfold serialize.
    rewrite CodecsFacts.utf8_encode_ascii by done.
    fold payload_bytes. rewrite calculate_checksum_md5.
    cbn [fst set_checksum version msg_type sequence_num timestamp checksum].
    by rewrite Hpack. }
  destruct (header_of_pack _ _ _ _ _ _ _ _ payload_bytes Hpack)
    as (Hhl & Hfv & Hft & Hfs & Hfts & Hfl & Hfc).
  assert (Header.payload_of (header ++ payload_bytes) = payload_bytes)
    as Hpayload.
  { unfold Header.payload_of. rewrite Hfl, Nat2Z.id.
    rewrite drop_app_length' by done. apply firstn_all. }
  rewrite deserialize_unfold by (rewrite length_app; lia).
  rewrite Hfv, Hv, Z.eqb_refl. cbn [negb].
  rewrite Hfl, length_app, Hhl.
  rewrite (proj2 (Z.ltb_ge _ _)) by (unfold HEADER_SIZE; lia).
  rewrite Hpayload, Hfc, Z.eqb_refl. cbn [negb].
  unfold payload_bytes at 1.
  rewrite CodecsFacts.utf8_decode_ascii by done.
  cbn [mbind result_bind].
  rewrite JsonFacts.loads_dumps by done.
  rewrite Hft, MessageType_of_int_of. cbn [mbind result_bind].
  split; [reflexivity|]. rewrite Hfs. done.
Qed.

End RoundTrip.

(** * Frames *)
Module FrameFacts.

Lemma serialize_set_checksum c m :
  (serialize (set_checksum c m)).1 = (serialize m).1.
Proof.
  unfold serialize. simpl.
  destruct (Codecs.utf8_encode _); [|done].
  by destruct (_calculate_checksum _).
Qed.

Lemma serialize_message m :
  (serialize m).2 = m ∨ ∃ c, (serialize m).2 = set_checksum c m.
Proof.
  unfold serialize.
  destruct (Codecs.utf8_encode _); [|by left].
  destruct (_calculate_checksum _); [right; by eexists|by left].
Qed.

Lemma frame_of_set_checksum c m : frame_of (set_checksum c m) = frame_of m.
Proof. unfold frame_of. by rewrite serialize_set_checksum. Qed.

Lemma frame_of_serialized m : frame_of (serialize m).2 = frame_of m.
Proof.
  destruct (serialize_message m) as [->|[c ->]];
    [done|apply frame_of_set_checksum].
Qed.

Lemma sequence_num_serialized m :
  Protocol.sequence_num (serialize m).2 = Protocol.sequence_num m.
Proof. by destruct (serialize_message m) as [->|[c ->]]. Qed.

End FrameFacts.

(** * The stop-and-wait sender *)
Module ClientFacts.
Import Client FrameFacts.

(** ** [_send_message] *)

Lemma send_message_spec who m self :
  ∃ sent self', _send_message who m self = (sent, (serialize m).2, self')
    ∧ ((sent = true ∧ socket_open self = true
        ∧ ∃ frame, frame_of m = Return frame
            ∧ self' = set_log (log self ++ [Sent who (clock self) frame])
                        self)
       ∨ (sent = false ∧ self' = set_connected false self
          ∧ (socket_open self = false ∨ ∃ e, frame_of m = Raise e))).
Proof.
  unfold _send_message, frame_of.
  destruct (serialize m) as [data m'] eqn:Hser. cbn [fst snd].
  destruct (data ≫= _) as [frame|e] eqn:Hframe.
  - destruct (socket_open self) eqn:Hopen; eexists _, _;
      (split; [reflexivity|]); [left|right]; eauto 10.
  - eexists _, _. split; [reflexivity|]. right. eauto 10.
Qed.

(** ** The receive thread leaves the events of the caller alone *)

Lemma caller_events_app l1 l2 :
  caller_events (l1 ++ l2) = caller_events l1 ++ caller_events l2.
Proof. apply List.filter_app. Qed.

Lemma receive_step_refl self : receive_step self self.
Proof. done. Qed.

Lemma receive_step_trans s1 s2 s3 :
  receive_step s1 s2 → receive_step s2 s3 → receive_step s1 s3.
Proof. intros [] []; split; congruence. Qed.

Lemma send_message_receiver m self :
  receive_step self (_send_message Receiver m self).2.
Proof.
  destruct (send_message_spec Receiver m self)
    as (sent & self' & -> & [(_ & _ & frame & _ & ->)|(_ & -> & _)]);
    split; simpl; try done.
  rewrite caller_events_app. simpl. by rewrite app_nil_r.
Qed.

Lemma reply_ack_step m self : receive_step self (_reply_ack m self).2.
Proof.
  unfold _reply_ack.
  pose proof (send_message_receiver (create_ack (clock self) m) self) as H.
  by destruct (_send_message _ _ _) as [[? ?] ?].
Qed.

Lemma handle_ack_step m self : receive_step self (_handle_ack m self).2.
Proof.
  unfold _handle_ack.
  destruct (get _ _ _) as [[ | | | | | ]|]; try done;
    by destruct (int_key _) as [[]|].
Qed.

Lemma handle_nack_step m self : receive_step self (_handle_nack m self).2.
Proof.
  unfold _handle_nack. by destruct (_ ≫= _) as [[]|].
Qed.

Lemma handle_received_message_step m self :
  receive_step self (_handle_received_message m self).2.
Proof.
  unfold _handle_received_message.
  repeat case_bool_decide;
    auto using handle_ack_step, handle_nack_step, reply_ack_step,
      receive_step_refl;
    destruct (_display _ _); auto using reply_ack_step, receive_step_refl.
Qed.

Lemma receive_loop_step inbox : ∀ self,
  receive_step self (_receive_loop inbox self).
Proof.
  induction inbox as [|[m|] inbox IH]; intros self; simpl; [done|..];
    destruct (running self); try done.
  pose proof (handle_received_message_step m self) as Hstep.
  destruct (_handle_received_message m self) as [[[]|e] self']; simpl in *.
  - eapply receive_step_trans; [exact Hstep|apply IH].
  - eapply receive_step_trans; [exact Hstep|]. done.
Qed.

Lemma pass_clock least iv self :
  clock (pass least iv self) = clock self + Z.max least (elapsed iv).
Proof.
  unfold pass. rewrite (step_clock _ _ (receive_loop_step _ _)).
  by destruct (hangup iv).
Qed.

Lemma pass_events least iv self :
  caller_events (log (pass least iv self)) = caller_events (log self).
Proof.
  unfold pass. rewrite (step_events _ _ (receive_loop_step _ _)).
  by destruct (hangup iv).
Qed.

Lemma pass_silent least iv self :
  silent iv →
  pass least iv self = set_clock (clock self + Z.max least (elapsed iv)) self.
Proof. intros [Hin Hup]. unfold pass. by rewrite Hin, Hup. Qed.

(** ** The wait ends, and it ends by a timeout after [ACK_TIMEOUT] *)

Lemma wait_for_ack_total sleeps seq_num start_time : ∀ fuel i self,
  (1 ≤ fuel)%nat →
  ACK_TIMEOUT + 100 - (clock self - start_time) ≤ 100 * Z.of_nat fuel →
  ∃ b self',
    wait_for_ack fuel sleeps i seq_num start_time self = Some (b, self')
    ∧ caller_events (log self') = caller_events (log self)
    ∧ clock self ≤ clock self'
    ∧ (b = false → start_time + ACK_TIMEOUT ≤ clock self').
Proof.
  unfold ACK_TIMEOUT.
  induction fuel as [|fuel IH]; intros i self Hfuel Htime; [lia|].
  cbn [wait_for_ack]. unfold ACK_TIMEOUT.
  destruct (Z.ltb_spec (clock self - start_time) 2000) as [Hlt|Hge].
  - case_bool_decide.
    + eexists _, _. split; [reflexivity|]. repeat split; (done || lia).
    + pose proof (pass_clock 100 (sleeps i) self) as Hclock.
      pose proof (pass_events 100 (sleeps i) self) as Hevents.
      destruct (IH (S i) (pass 100 (sleeps i) self)) as
        (b & self' & Hwait & Hev & Hcl & Hto); [lia|lia|].
      exists b, self'. split; [done|]. repeat split; try (congruence || lia).
      done.
  - eexists _, _. split; [reflexivity|]. repeat split; (done || lia).
Qed.

Lemma attempts_earlier seq_num frame retries earliest earliest' evs :
  attempts seq_num frame retries earliest evs → earliest' ≤ earliest →
  attempts seq_num frame retries earliest' evs.
Proof.
  intros Hatt Hle. destruct Hatt; constructor; (done || lia).
Qed.

Lemma attempts_alternate seq_num frame retries earliest evs :
  attempts seq_num frame retries earliest evs →
  ∃ n, length evs = (2 * n)%nat
       ∧ frames evs = replicate n frame.
Proof.
  induction 1 as [|? ? ? ? ? ? ? ? (n & Hlen & Hfr)].
  - by exists 0%nat.
  - exists (S n). simpl. rewrite Hlen, Hfr. split; [lia|done].
Qed.

(** ** Any run of [_send_reliable]

    Whatever the environment does, the loop ends; the caller has
    transmitted the same frame at most [MAX_RETRIES + 1] times, each
    transmission followed by the registration of the entry, and each
    retransmission [ACK_TIMEOUT] after the registration before it. *)
Lemma send_loop_trace env : ∀ fuel message retries self,
  (retries ≤ S MAX_RETRIES)%nat →
  (S (S MAX_RETRIES) - retries ≤ fuel)%nat →
  ∃ b self' evs,
    send_loop fuel env message retries self = Some (b, self')
    ∧ caller_events (log self') = caller_events (log self) ++ evs
    ∧ (length evs ≤ 2 * (S MAX_RETRIES - retries))%nat
    ∧ match frame_of message with
      | Return frame =>
          attempts (Protocol.sequence_num message) frame retries
            (clock self) evs
      | Raise _ => evs = []
      end.
Proof.
  unfold MAX_RETRIES.
  induction fuel as [|fuel IH]; intros message retries self Hr Hfuel;
    [lia|].
  cbn [send_loop]. unfold MAX_RETRIES.
  set (self1 := pass 0 (before_send (env retries)) self).
  pose proof (pass_events 0 (before_send (env retries)) self) as Hev1.
  pose proof (pass_clock 0 (before_send (env retries)) self) as Hcl1.
  fold self1 in Hev1, Hcl1.
  destruct (Nat.leb_spec retries 3) as [Hle|Hgt].
  2:{ eexists _, _, []. split; [reflexivity|]. rewrite app_nil_r.
      split; [done|]. split; [simpl; lia|].
      destruct (frame_of message); [constructor|done]. }
  destruct (send_message_spec Caller message self1)
    as (sent & self2 & -> &
        [(-> & Hopen & frame & Hframe & ->)|(-> & -> & _)]).
  2:{ eexists _, _, []. split; [reflexivity|]. rewrite app_nil_r.
      split; [done|]. split; [simpl; lia|].
      destruct (frame_of message); [constructor|done]. }
  cbn [negb].
  set (self2 := set_log _ self1).
  set (self3 := pass 0 (after_send (env retries)) self2).
  pose proof (pass_events 0 (after_send (env retries)) self2) as Hev3.
  pose proof (pass_clock 0 (after_send (env retries)) self2) as Hcl3.
  fold self3 in Hev3, Hcl3.
  set (self4 := set_log _ (set_pending_acks _ self3)).
  destruct (wait_for_ack_total (sleeps (env retries))
              (Protocol.sequence_num message) (clock self3) POLLS 0 self4)
    as (b & self5 & Hwait & Hev5 & Hcl5 & Hto);
    [unfold POLLS; lia|unfold ACK_TIMEOUT, POLLS; simpl; lia|].
  change (clock self4) with (clock self3) in *.
  rewrite Hwait.
  assert (caller_events (log self5)
          = caller_events (log self)
            ++ [Sent Caller (clock self1) frame;
                Registered (Protocol.sequence_num message) retries
                  (clock self3)]) as Hlog.
  { rewrite Hev5. unfold self4. cbn [log set_log].
    rewrite caller_events_app, Hev3. unfold self2. cbn [log set_log].
    rewrite caller_events_app, Hev1, <- app_assoc. done. }
  assert (clock self ≤ clock self1 ≤ clock self3) as Hclocks.
  { unfold self2 in Hcl3. simpl in Hcl3. lia. }
  destruct b.
  - eexists _, _, _. split; [reflexivity|]. split; [exact Hlog|].
    split; [simpl; lia|]. rewrite Hframe.
    constructor; [lia|lia|constructor].
  - destruct (IH (serialize message).2 (S retries) self5)
      as (b & self6 & evs & Hloop & Hev6 & Hlen & Hatt); [lia|lia|].
    rewrite Hloop. eexists _, _, _. split; [reflexivity|].
    split; [rewrite Hev6, Hlog, <- app_assoc; reflexivity|].
    split; [simpl; lia|].
    rewrite frame_of_serialized, sequence_num_serialized, Hframe in Hatt.
    rewrite Hframe. constructor; [lia|lia|].
    eapply attempts_earlier; [exact Hatt|]. specialize (Hto eq_refl). lia.
Qed.


(** ** Lost and answered attempts *)

Lemma slept_lower a j : 100 * (Z.of_nat j + 1) ≤ slept a j.
Proof. induction j as [|j IH]; cbn [slept]; lia. Qed.

Lemma slept_mono a i j : (i ≤ j)%nat → slept a i ≤ slept a j.
Proof.
  induction 1 as [|j Hle IH]; [done|]. cbn [slept]. lia.
Qed.

Lemma slept_before_lt a i j :
  (i ≤ j)%nat → slept_before a i + 100 ≤ slept a j.
Proof.
  destruct i as [|i]; intros Hle; simpl.
  - pose proof (slept_lower a j). lia.
  - pose proof (slept_mono a i (Nat.pred j) ltac:(lia)).
    destruct j as [|j]; [lia|]. cbn [slept Nat.pred] in *. lia.
Qed.

Lemma wait_for_ack_silent sleeps seq_num start_time :
  (∀ j, silent (sleeps j)) →
  ∀ fuel i self,
    (1 ≤ fuel)%nat →
    ACK_TIMEOUT + 100 - (clock self - start_time) ≤ 100 * Z.of_nat fuel →
    is_Some (pending_acks self !! seq_num) →
    ∃ t, wait_for_ack fuel sleeps i seq_num start_time self
         = Some (false, set_clock t self)
         ∧ start_time + ACK_TIMEOUT ≤ t.
Proof.
  intros Hsilent. unfold ACK_TIMEOUT.
  induction fuel as [|fuel IH]; intros i self Hfuel Htime Hpending; [lia|].
  cbn [wait_for_ack]. unfold ACK_TIMEOUT.
  destruct (Z.ltb_spec (clock self - start_time) 2000) as [Hlt|Hge].
  - rewrite bool_decide_eq_false_2
      by (intros Hnone; rewrite Hnone in Hpending; by destruct Hpending).
    rewrite pass_silent by done.
    destruct (IH (S i) (set_clock (clock self + Z.max 100
                                     (elapsed (sleeps i))) self))
      as (t & -> & Ht); [simpl; lia|simpl; lia|done|].
    exists t. by destruct self.
  - exists (clock self). split; [by destruct self|lia].
Qed.

Lemma handle_resolves seq_num m self :
  resolves seq_num m →
  _handle_received_message m self
  = (Return (),
     set_pending_acks (delete seq_num (pending_acks self)) self).
Proof.
  intros (d & Hpayload & [[Hack Hget]|[Hnack Hget]]);
    unfold _handle_received_message.
  - rewrite bool_decide_eq_true_2 by done.
    unfold _handle_ack, get. by rewrite Hpayload, Hget.
  - rewrite Hnack.
    rewrite bool_decide_eq_false_2 by (by rewrite !elem_of_cons, elem_of_nil;
                                       intros [|[|[|[|[|]]]]]).
    rewrite bool_decide_eq_true_2 by done.
    unfold _handle_nack, get. by rewrite Hpayload, Hget.
Qed.

Lemma wait_for_ack_answered a seq_num start_time m j :
  (∀ j', (j' < j)%nat → silent (sleeps a j')) →
  inbox (sleeps a j) = [Some m] → hangup (sleeps a j) = false →
  resolves seq_num m → slept a j < ACK_TIMEOUT →
  ∀ k i self fuel,
    (i + k)%nat = j → (k + 2 ≤ fuel)%nat →
    clock self - start_time = slept_before a i →
    running self = true →
    ∃ self',
      wait_for_ack fuel (sleeps a) i seq_num start_time self
      = Some (true, self')
      ∧ pending_acks self' !! seq_num = None
      ∧ log self' = log self ∧ socket_open self' = socket_open self.
Proof.
  intros Hsilent Hinbox Hup Hres Hslept. unfold ACK_TIMEOUT in *.
  induction k as [|k IH]; intros i self fuel Hik Hfuel Hclock Hrun;
    (destruct fuel as [|fuel]; [lia|]); cbn [wait_for_ack];
    unfold ACK_TIMEOUT;
    pose proof (slept_before_lt a i j ltac:(lia)) as Hbefore;
    rewrite (proj2 (Z.ltb_lt (clock self - start_time) 2000)) by lia;
    (case_bool_decide as Hpending; [by eexists|]).
  - assert (i = j) as -> by lia.
    unfold pass. rewrite Hinbox, Hup. cbn [_receive_loop].
    cbn [running set_clock]. rewrite Hrun, (handle_resolves seq_num) by done.
    destruct fuel as [|fuel]; [lia|]. cbn [wait_for_ack].
    cbn [clock set_pending_acks set_clock pending_acks].
    unfold ACK_TIMEOUT.
    assert (clock self + Z.max 100 (elapsed (sleeps a j)) - start_time
            = slept a j) as Hnow.
    { destruct j; cbn [slept slept_before] in *; lia. }
    rewrite (proj2 (Z.ltb_lt _ 2000)) by lia.
    rewrite bool_decide_eq_true_2 by apply lookup_delete_eq.
    eexists. split; [reflexivity|]. simpl.
    split; [apply lookup_delete_eq|done].
  - rewrite pass_silent by (apply Hsilent; lia).
    destruct (IH (S i) (set_clock (clock self + Z.max 100
                                     (elapsed (sleeps a i))) self) fuel)
      as (self' & -> & Hnone & Hlog & Hsock); [lia|lia| |done|].
    { destruct i; cbn [slept slept_before clock set_clock] in *; lia. }
    exists self'. by destruct self.
Qed.


Lemma frames_caller_events_attempt l t1 t2 frame seq_num retries :
  frames (caller_events
            (l ++ [Sent Caller t1 frame; Registered seq_num retries t2]))
  = frames (caller_events l) ++ [frame].
Proof.
  rewrite caller_events_app. unfold frames. by rewrite flat_map_app.
Qed.

(** An attempt whose delivery is lost: the frame goes out, the entry is
    registered, the wait times out, and the loop goes on with the next
    value of [retries]. *)
Lemma lost_attempt env fuel message retries self frame :
  lost (env retries) → (retries ≤ MAX_RETRIES)%nat →
  socket_open self = true → frame_of message = Return frame →
  ∃ self' t1 t2,
    send_loop (S fuel) env message retries self
    = send_loop fuel env (serialize message).2 (S retries) self'
    ∧ socket_open self' = true ∧ running self' = running self
    ∧ log self'
      = log self ++ [Sent Caller t1 frame;
                     Registered (Protocol.sequence_num message) retries t2].
Proof.
  intros (Hbefore & Hafter & Hsleeps) Hr Hopen Hframe.
  cbn [send_loop]. rewrite (proj2 (Nat.leb_le _ _)) by done.
  rewrite pass_silent by done.
  set (self1 := set_clock _ self).
  destruct (send_message_spec Caller message self1)
    as (sent & self2 & -> &
        [(-> & _ & frame' & Hframe' & ->)|(_ & _ & [Hclosed|[e He]])]);
    [|change (socket_open self1) with (socket_open self) in Hclosed;
      congruence|by rewrite Hframe in He].
  assert (frame' = frame) as -> by congruence.
  cbn [negb]. rewrite pass_silent by done.
  set (self4 := set_log _ (set_pending_acks _ _)).
  destruct (wait_for_ack_silent (sleeps (env retries))
              (Protocol.sequence_num message) (clock self4) Hsleeps
              POLLS 0 self4) as (t & Hwait & _);
    [unfold POLLS; lia|unfold POLLS, ACK_TIMEOUT; lia| |].
  { unfold self4. cbn [pending_acks set_log set_pending_acks].
    rewrite lookup_insert_eq. by eexists. }
  change (clock (set_clock _ (set_log _ self1))) with (clock self4).
  rewrite Hwait.
  eexists _, _, _. split; [reflexivity|]. simpl.
  split; [done|]. split; [done|]. by rewrite <- app_assoc.
Qed.

(** An attempt that is answered in time ends the loop with [True]; an
    ACK and a NACK do so alike. *)
Lemma answered_attempt env fuel message retries self frame :
  answered (Protocol.sequence_num message) (env retries) →
  (retries ≤ MAX_RETRIES)%nat →
  socket_open self = true → running self = true →
  frame_of message = Return frame →
  ∃ self' t1 t2,
    send_loop (S fuel) env message retries self = Some (true, self')
    ∧ pending_acks self' !! Protocol.sequence_num message = None
    ∧ log self'
      = log self ++ [Sent Caller t1 frame;
                     Registered (Protocol.sequence_num message) retries t2].
Proof.
  intros (Hbefore & Hafter & j & m & Hsilent & Hinbox & Hup & Hres & Hslept)
    Hr Hopen Hrun Hframe.
  cbn [send_loop]. rewrite (proj2 (Nat.leb_le _ _)) by done.
  rewrite pass_silent by done.
  set (self1 := set_clock _ self).
  destruct (send_message_spec Caller message self1)
    as (sent & self2 & -> &
        [(-> & _ & frame' & Hframe' & ->)|(_ & _ & [Hclosed|[e He]])]);
    [|change (socket_open self1) with (socket_open self) in Hclosed;
      congruence|by rewrite Hframe in He].
  assert (frame' = frame) as -> by congruence.
  cbn [negb]. rewrite pass_silent by done.
  set (self4 := set_log _ (set_pending_acks _ _)).
  pose proof (slept_lower (env retries) j) as Hlow.
  destruct (wait_for_ack_answered (env retries)
              (Protocol.sequence_num message) (clock self4) m j
              Hsilent Hinbox Hup Hres Hslept j 0%nat self4 POLLS)
    as (self' & Hwait & Hnone & Hlog & _);
    [done|unfold POLLS, ACK_TIMEOUT in *; lia|simpl; lia|done|].
  change (clock (set_clock _ (set_log _ self1))) with (clock self4).
  rewrite Hwait.
  eexists _, _, _. split; [reflexivity|]. split; [done|].
  rewrite Hlog. simpl. by rewrite <- app_assoc.
Qed.

Lemma send_loop_answered env frame seq_num : ∀ K retries fuel message self,
  (retries + K ≤ MAX_RETRIES)%nat →
  (∀ i, (retries ≤ i < retries + K)%nat → lost (env i)) →
  answered seq_num (env (retries + K)%nat) →
  (K + 1 ≤ fuel)%nat →
  socket_open self = true → running self = true →
  frame_of message = Return frame →
  Protocol.sequence_num message = seq_num →
  ∃ self',
    send_loop fuel env message retries self = Some (true, self')
    ∧ frames (caller_events (log self'))
      = frames (caller_events (log self)) ++ replicate (S K) frame
    ∧ pending_acks self' !! seq_num = None.
Proof.
  induction K as [|K IH];
    intros retries fuel message self Hr Hlost Hans Hfuel Hopen Hrun Hframe
      Hseq;
    (destruct fuel as [|fuel]; [lia|]).
  - rewrite Nat.add_0_r in Hans. subst seq_num.
    destruct (answered_attempt env fuel message retries self frame)
      as (self' & t1 & t2 & -> & Hnone & Hlog); try done; [lia|].
    exists self'. split; [done|]. split; [|done].
    by rewrite Hlog, frames_caller_events_attempt.
  - destruct (lost_attempt env fuel message retries self frame)
      as (self1 & t1 & t2 & -> & Hopen1 & Hrun1 & Hlog1); try done;
      [apply Hlost; lia|lia|].
    destruct (IH (S retries) fuel (serialize message).2 self1)
      as (self' & -> & Hframes & Hnone);
      [lia|intros i Hi; apply Hlost; lia
      |by replace (S retries + K)%nat with (retries + S K)%nat by lia
      |lia|done|congruence|by rewrite frame_of_serialized
      |by rewrite sequence_num_serialized|].
    exists self'. split; [done|]. split; [|done].
    rewrite Hframes, Hlog1, frames_caller_events_attempt, <- app_assoc.
    done.
Qed.





Lemma rejected_answered seq_num a : rejected seq_num a → answered seq_num a.
Proof.
  intros (Hbefore & Hafter & j & m & d & Hquiet & Hinbox & Hup & Htype
          & Hpayload & Hnack & Hslept).
  split; [done|]. split; [done|].
  exists j, m. repeat split; try done; try apply Hquiet; try done.
  exists d. split; [done|]. by right.
Qed.

(** C1, as the code has it: when the NACK for the sequence number of
    the message comes back to the first transmission, [_handle_nack]
    removes the entry, the wait sees the entry gone and
    [_send_reliable] returns [True], the value it returns for an ACK.
    There is no retry: the frame went out once. *)
Theorem send_reliable_nack_is_success env message self frame :
  socket_open self = true → running self = true →
  frame_of message = Return frame →
  rejected (Protocol.sequence_num message) (env 0%nat) →
  ∃ self',
    _send_reliable env message self = Some (true, self')
    ∧ frames (caller_events (log self'))
      = frames (caller_events (log self)) ++ [frame]
    ∧ pending_acks self' !! Protocol.sequence_num message = None.
Proof.
  intros Hopen Hrun Hframe Hnack. unfold _send_reliable.
  apply (send_loop_answered env frame (Protocol.sequence_num message)
           0 0); try done.
  - unfold MAX_RETRIES. lia.
  - intros i Hi. lia.
  - by apply rejected_answered.
  - unfold MAX_RETRIES. lia.
Qed.

End ClientFacts.

(** * The session registry and the router *)
Module ServerFacts.
Import Server FrameFacts.

(** ** [send_message] touches one object *)

Lemma store_update client f self :
  store (update client f self) client = f (store self client).
Proof. unfold update. simpl. apply fn_lookup_insert. Qed.

Lemma store_update_ne client f self c :
  c ≠ client → store (update client f self) c = store self c.
Proof. intros Hne. unfold update. simpl. by apply fn_lookup_insert_ne. Qed.

Lemma send_message_deliver client message self :
  ∃ sent,
    send_message client message self
    = (sent, (serialize message).2,
       update client (deliver (frame_of message)) self).
Proof.
  unfold send_message, frame_of, deliver, update.
  destruct (serialize message) as [data m']. cbn [fst snd].
  destruct (data ≫= _) as [frame|e]; [|by eexists].
  destruct (sock_ok (store self client)); by eexists.
Qed.

Lemma send_message_state client message self :
  (send_message client message self).2
  = update client (deliver (frame_of message)) self.
Proof. by destruct (send_message_deliver client message self) as [? ->]. Qed.

Lemma deliver_username frame c : username (deliver frame c) = username c.
Proof. destruct frame; simpl; [destruct (sock_ok c)|]; done. Qed.

Lemma deliver_client_id frame c : client_id (deliver frame c) = client_id c.
Proof. destruct frame; simpl; [destruct (sock_ok c)|]; done. Qed.

Lemma deliver_pending_acks frame c :
  pending_acks (deliver frame c) = pending_acks c.
Proof. destruct frame; simpl; [destruct (sock_ok c)|]; done. Qed.

Lemma deliver_sock_ok frame c : sock_ok (deliver frame c) = sock_ok c.
Proof. destruct frame; simpl; [destruct (sock_ok c) eqn:E|]; done. Qed.

Lemma deliver_sock_closed frame c :
  sock_closed (deliver frame c) = sock_closed c.
Proof. destruct frame; simpl; [destruct (sock_ok c)|]; done. Qed.



(** ** The fan-out *)



Lemma reply_ack_state client message self :
  _reply_ack client message self
  = update client (deliver (frame_of (create_ack (clock self) message)))
      self.
Proof. unfold _reply_ack. apply send_message_state. Qed.

Lemma get_dict d key default :
  get (PyDict d) key default
  = Return (from_option id default (dict_lookup key d)).
Proof. done. Qed.






(** ** The registry *)

Lemma fan_out_frame targets : ∀ message self,
  let self' := (fan_out message self targets).2 in
  clients self' = clients self
  ∧ username_to_client self' = username_to_client self
  ∧ ∀ c, username (store self' c) = username (store self c)
         ∧ sock_closed (store self' c) = sock_closed (store self c).
Proof.
  induction targets as [|t targets IH]; intros message self self'.
  - done.
  - subst self'. unfold fan_out. cbn [foldl].
    destruct (send_message_deliver t message self) as [sent ->].
    fold (fan_out (serialize message).2
            (update t (deliver (frame_of message)) self) targets).
    destruct (IH (serialize message).2
                (update t (deliver (frame_of message)) self))
      as (Hcl & Hreg & Hstore).
    split; [done|]. split; [done|].
    intros c. destruct (Hstore c) as [-> ->].
    destruct (decide (c = t)) as [->|Hne].
    + by rewrite store_update, deliver_username, deliver_sock_closed.
    + by rewrite store_update_ne.
Qed.


Lemma handle_connect_locked_registers client message name key self :
  key_of name = Return key →
  username_to_client self !! key = None →
  _handle_connect_locked client message name self
  = (Return true,
     set_username_to_client (<[key := client]> (username_to_client self))
       (update client (set_username name) self)).
Proof.
  intros Hkey Hfree. unfold _handle_connect_locked.
  rewrite Hkey, Hfree, bool_decide_eq_false_2; [done|].
  by intros [? ?].
Qed.

(** What is left of [_handle_connect] after the lock is released
    writes neither the registry nor a username. *)
Lemma handle_connect_after_lock client message name self d :
  Protocol.payload message = PyDict d →
  dict_lookup (u "username") d = Some name →
  let locked := (_handle_connect_locked client message name self).2 in
  let self' := (_handle_connect client message self).2 in
  username_to_client self' = username_to_client locked
  ∧ clients self' = clients locked
  ∧ ∀ c, username (store self' c) = username (store locked c).
Proof.
  intros Hpayload Hname locked self'. subst locked self'.
  unfold _handle_connect. rewrite Hpayload, get_dict, Hname.
  cbn [from_option id].
  destruct (_handle_connect_locked client message name self)
    as [[[]|e] self1]; [|done..].
  unfold get_next_sequence, _broadcast_message. cbv zeta. cbn [snd].
  match goal with
  | |- context [fan_out ?m ?s ?l] =>
      destruct (fan_out_frame l m s) as (Hcl & Hreg & Hstore)
  end.
  split; [rewrite Hreg; by rewrite reply_ack_state|].
  split; [rewrite Hcl; by rewrite reply_ack_state|].
  intros c. destruct (Hstore c) as [-> _].
  cbn [store set_sequence_num]. rewrite reply_ack_state.
  destruct (decide (c = client)) as [->|Hne].
  - by rewrite store_update, deliver_username.
  - by rewrite store_update_ne.
Qed.



Lemma dict_lookup_dict_set k v d : dict_lookup k (dict_set k v d) = Some v.
Proof.
  induction d as [|[k' v'] d IH]; simpl.
  - by rewrite decide_True.
  - destruct (decide (k = k')) as [->|Hne]; simpl.
    + by rewrite decide_True.
    + by rewrite decide_False.
Qed.

(** C10: a CONNECT whose payload has no 'username' is handled as the
    same CONNECT with the username 'User<client_id>' in its payload;
    when that name is free the session is registered under it.  The
    client id is the one [start] gave the connection from the counter
    [next_client_id], which it increments. *)
Theorem handle_connect_default_username client message self d :
  Protocol.payload message = PyDict d →
  dict_lookup (u "username") d = None →
  let name :=
    u "User" ++ str_of_Z (Z.of_nat (client_id (store self client))) in
  _handle_connect client message self
  = _handle_connect client (with_username name message) self
  ∧ (username_to_client self !! Some (inr name) = None →
     ∃ self',
       _handle_connect client message self = (Return (), self')
       ∧ username (store self' client) = PyStr name
       ∧ username_to_client self'
         = <[Some (inr name) := client]> (username_to_client self))
  ∧ (∀ ok,
       (accept ok self).1 = next_client_id self
       ∧ client_id (store (accept ok self).2 (accept ok self).1)
         = next_client_id self
       ∧ next_client_id (accept ok self).2 = S (next_client_id self)).
Proof.
  intros Hpayload Hname name.
  split; [|split].
  - unfold _handle_connect, with_username. cbn [Protocol.payload].
    rewrite Hpayload, !get_dict, Hname, dict_lookup_dict_set.
    reflexivity.
  - intros Hfree.
    destruct (handle_connect_after_lock client
                (with_username name message) (PyStr name) self
                (dict_set (u "username") (PyStr name) d))
      as (Hreg & _ & Hstore).
    { unfold with_username. cbn [Protocol.payload]. by rewrite Hpayload. }
    { apply dict_lookup_dict_set. }
    assert (_handle_connect client message self
            = _handle_connect client (with_username name message) self)
      as Heq.
    { unfold _handle_connect, with_username. cbn [Protocol.payload].
      rewrite Hpayload, !get_dict, Hname, dict_lookup_dict_set.
      reflexivity. }
    rewrite <- Heq in Hreg, Hstore.
    rewrite (handle_connect_locked_registers _ _ _ (Some (inr name)))
      in Hreg, Hstore by done.
    cbn [snd username_to_client set_username_to_client store] in Hreg, Hstore.
    exists (_handle_connect client message self).2.
    split.
    + unfold _handle_connect. rewrite Hpayload, get_dict, Hname.
      cbn [from_option]. fold name.
      by rewrite (handle_connect_locked_registers _ _ _ (Some (inr name))).
    + split; [|done]. by rewrite Hstore, store_update.
  - intros ok. unfold accept. cbn [fst snd store client_id next_client_id].
    by rewrite fn_lookup_insert.
Qed.

(** ** The router *)

(** A message type that is none of a list of types. *)
Ltac no_member H :=
  exfalso;
  repeat (apply elem_of_cons in H as [H|H]; [discriminate H|]);
  by apply elem_of_nil in H.





End ServerFacts.

(** * The theorems at work *)

(** ** The codec *)

(** The empty input is shorter than a header. *)
Lemma deserialize_empty_input :
  deserialize Json.loads 0 [] = Return None.
Proof.
  apply deserialize_failure_is_None, ShortInput.
  unfold HEADER_SIZE. simpl. lia.
Defined.

(** The type byte 14 under a header that is right in everything else. *)
Lemma deserialize_type_14 :
  deserialize Json.loads 0 (Forged.of_type 14) = Raise ValueError.
Proof.
  apply deserialize_unknown_type_raises.
  - split.
    + vm_compute. lia.
    + vm_compute. reflexivity.
    + vm_compute. discriminate.
    + vm_compute. reflexivity.
    + exists (u "{}"), (PyDict []). split; vm_compute; reflexivity.
  - assert (Header.type_of (Forged.of_type 14) = 14) as ->
      by (vm_compute; reflexivity).
    lia.
Defined.

(** The CONNECT of "bob" comes back from its bytes. *)
Lemma connect_round_trip :
  ∃ data m',
    (serialize Client.Example.connect_msg).1 = Return data
    ∧ deserialize Json.loads 0 data = Return (Some m')
    ∧ msg_type m' = CONNECT
    ∧ sequence_num m' = 0
    ∧ payload m' = payload Client.Example.connect_msg.
Proof.
  apply (deserialize_serialize 0 Client.Example.connect_msg).
  split.
  - reflexivity.
  - vm_compute. split; [discriminate|reflexivity].
  - vm_compute. split; [discriminate|reflexivity].
  - simpl. split.
    + apply (bool_decide_unpack _). vm_compute. exact I.
    + repeat split; apply (bool_decide_unpack _); vm_compute; exact I.
  - vm_compute. reflexivity.
Defined.

(** ** The client *)
Module ClientRuns.
Import Client Client.Example ClientFacts.

Lemma connect_frame_built : frame_of connect_msg = Return connect_frame.
Proof. vm_compute. reflexivity. Qed.

Lemma quiet_silent : silent quiet.
Proof. done. Qed.


(** The NACK of the server comes back in the first sleep: the CONNECT
    is reported as sent with success, after one transmission. *)
Lemma connect_rejected_reports_success :
  ∃ self',
    _send_reliable env_nack connect_msg client0 = Some (true, self')
    ∧ frames (caller_events (log self'))
      = frames (caller_events (log client0)) ++ [connect_frame]
    ∧ pending_acks self' !! Protocol.sequence_num connect_msg = None.
Proof.
  apply (send_reliable_nack_is_success env_nack connect_msg client0
           connect_frame).
  - reflexivity.
  - reflexivity.
  - exact connect_frame_built.
  - split; [exact quiet_silent|]. split; [exact quiet_silent|].
    exists 0%nat, nack. eexists.
    split; [intros j' Hj'; lia|].
    split; [reflexivity|]. split; [reflexivity|].
    split; [reflexivity|]. split; [reflexivity|].
    split; [reflexivity|]. vm_compute. reflexivity.
Defined.



End ClientRuns.

(** ** The server *)
Module ServerRuns.
Import Server Server.Example ServerFacts.













(** The first connection sends a CONNECT without a username: it is
    handled as the CONNECT of "User1". *)
Lemma anonymous_is_User1 :
  _handle_connect 1 anonymous one_session
  = _handle_connect 1 (with_username (u "User1") anonymous) one_session.
Proof.
  destruct (handle_connect_default_username 1 anonymous one_session _
              eq_refl eq_refl) as [Hsame _].
  exact Hsame.
Defined.

End ServerRuns.

(** * More of the codec *)
Module CodecMore.
Import Struct StructFacts.

(** ** What [serialize] writes *)


Lemma pack_returns f : ∀ vs data,
  pack f vs = Return data → Forall2 (λ c v, fits c v = true) f vs.
Proof.
  induction f as [|c f IH]; intros [|v vs] data; simpl; try discriminate.
  - constructor.
  - destruct (fits c v) eqn:Hfit; [|discriminate].
    destruct (pack f vs) as [rest|] eqn:Hrest; simpl; [|discriminate].
    intros _. constructor; eauto.
Qed.

Lemma serialize_pack m :
  serialize m
  = (header ← pack HEADER_FORMAT
                [version m; int_of_MessageType (msg_type m);
                 sequence_num m; timestamp m;
                 Z.of_nat (length (payload_bytes_of m));
                 Header.md5_prefix (payload_bytes_of m); 0];
     Return (header ++ payload_bytes_of m),
     set_checksum (Header.md5_prefix (payload_bytes_of m)) m).
Proof.
  unfold serialize, payload_bytes_of.
  rewrite CodecsFacts.utf8_encode_ascii by apply JsonFacts.ascii_dumps.
  by rewrite calculate_checksum_md5.
Qed.

Lemma header_fits_pack m :
  header_fits m ↔
  Forall2 (λ c v, fits c v = true) HEADER_FORMAT
    [version m; int_of_MessageType (msg_type m); sequence_num m;
     timestamp m; Z.of_nat (length (payload_bytes_of m));
     Header.md5_prefix (payload_bytes_of m); 0].
Proof.
  unfold header_fits, payload_bytes_of. rewrite length_map.
  pose proof (md5_prefix_range
                (map Codecs.byte_of_N (Json.dumps (payload m)))).
  pose proof (int_of_MessageType_range (msg_type m)).
  split.
  - intros (Hv & Hs & Ht & Hl).
    repeat constructor; apply fits_spec; simpl; lia.
  - intros Hall.
    repeat match goal with
           | H : Forall2 _ _ _ |- _ =>
               inversion H as [|? ? ? ? ?%fits_spec ?]; clear H; subst
           end.
    simpl in *. lia.
Qed.

Lemma serialize_Return_fits m data :
  (serialize m).1 = Return data → header_fits m.
Proof.
  rewrite serialize_pack, header_fits_pack. cbn [fst].
  destruct (pack HEADER_FORMAT _) as [header|e] eqn:Hpack;
    cbn [mbind result_bind]; [|done].
  intros _. eauto using pack_returns.
Qed.


(** X2: The layout of the bytes: 24 bytes of header, then the payload
    text; the header holds the version, the type, the sequence number
    and the timestamp of the message, the length and the checksum of
    the payload, and two zero bytes. *)
Theorem serialize_layout m :
  header_fits m →
  ∃ data,
    (serialize m).1 = Return data
    ∧ length data = (24 + length (Json.dumps (payload m)))%nat
    ∧ drop 24 data = payload_bytes_of m
    ∧ Header.version_of data = version m
    ∧ Header.type_of data = int_of_MessageType (msg_type m)
    ∧ Header.sequence_of data = sequence_num m
    ∧ Header.timestamp_of data = timestamp m
    ∧ Header.payload_length_of data
      = Z.of_nat (length (Json.dumps (payload m)))
    ∧ Header.checksum_of data = Header.md5_prefix (payload_bytes_of m)
    ∧ Header.reserved_of data = 0
    ∧ checksum (serialize m).2 = Header.checksum_of data.
Proof.
  intros [header Hpack]%header_fits_pack%pack_fits.
  rewrite serialize_pack, Hpack. cbn [fst snd mbind result_bind].
  exists (header ++ payload_bytes_of m). split; [done|].
  destruct (header_of_pack _ _ _ _ _ _ _ _ (payload_bytes_of m) Hpack)
    as (Hhl & Hfv & Hft & Hfs & Hfts & Hfl & Hfc).
  change HEADER_SIZE with 24%nat in Hhl.
  rewrite Hfv, Hft, Hfs, Hfts, Hfl, Hfc.
  assert (length (payload_bytes_of m) = length (Json.dumps (payload m)))
    as Hpl by apply length_map.
  rewrite length_app, Hhl, Hpl. repeat split; try done.
  - by rewrite drop_app_length'.
  - unfold Header.reserved_of, Header.field.
    pose proof (unpack_fields_pack _ _ _ (payload_bytes_of m) Hpack)
      as Hfields.
    simpl in Hfields. rewrite !drop_drop in Hfields.
    by injection Hfields.
Qed.


(** ** What [deserialize] accepts *)
Section Accepts.
Variable json_loads : pystr → result pyobj.

Lemma MessageType_of_int_inv n t :
  MessageType_of_int n = Return t → int_of_MessageType t = n.
Proof.
  unfold MessageType_of_int.
  destruct (find _ _) as [t'|] eqn:Hfind; [|discriminate].
  intros [= <-]. apply find_some in Hfind as [_ Heq].
  by apply Z.eqb_eq in Heq.
Qed.

(** The message [deserialize] returns, read off the input. *)
Lemma deserialize_Some_inv now data m :
  deserialize json_loads now data = Return (Some m) →
  DecodesUpToType json_loads data
  ∧ MessageType_of_int (Header.type_of data) = Return (msg_type m)
  ∧ m = set_checksum (Header.checksum_of data)
          (new_message now (msg_type m) (Header.sequence_of data)
             (payload m) (Some (Header.timestamp_of data)))
  ∧ ∃ text,
      Codecs.utf8_decode (Header.payload_of data) = Return text
      ∧ json_loads text = Return (payload m).
Proof.
  intros Hdec.
  destruct (decide (length data < HEADER_SIZE)%nat) as [Hshort|Hlong].
  { unfold deserialize in Hdec. by rewrite decide_True in Hdec. }
  rewrite deserialize_unfold in Hdec by lia.
  destruct (Header.version_of data =? VERSION) eqn:Hv; [|done].
  apply Z.eqb_eq in Hv. cbn [negb] in Hdec.
  destruct (_ <? _) eqn:Hl; [done|]. apply Z.ltb_ge in Hl.
  destruct (Header.md5_prefix _ =? _) eqn:Hc; [|done].
  apply Z.eqb_eq in Hc. cbn [negb] in Hdec.
  destruct (Codecs.utf8_decode _) as [text|e] eqn:Htext;
    cbn [mbind result_bind] in Hdec; [|by destruct e].
  destruct (json_loads text) as [p|e] eqn:Hp; [|by destruct e].
  destruct (MessageType_of_int _) as [t|e] eqn:Ht;
    cbn [mbind result_bind] in Hdec; [|done].
  injection Hdec as <-. cbn [msg_type payload set_checksum new_message].
  split; [|by eauto].
  split; try done; [lia|eauto].
Qed.

(** X3: [deserialize] returns a message exactly when the input passes
    every check and its type byte is one of the 13 types. *)
Theorem deserialize_accepts_iff now data :
  (∃ m, deserialize json_loads now data = Return (Some m))
  ↔ DecodesUpToType json_loads data ∧ 1 ≤ Header.type_of data ≤ 13.
Proof.
  split.
  - intros [m (Hup & Ht & _)%deserialize_Some_inv].
    split; [done|]. apply MessageType_of_int_range. eauto.
  - intros [[Hlen Hv Hp Hc (text & p & Htext & Hjson)]
              [t Ht]%MessageType_of_int_range].
    rewrite deserialize_unfold by done.
    rewrite Hv, Z.eqb_refl. cbn [negb].
    rewrite (proj2 (Z.ltb_ge _ _)) by lia.
    rewrite Hc, Z.eqb_refl. cbn [negb].
    rewrite Htext. cbn [mbind result_bind]. rewrite Hjson, Ht.
    cbn [mbind result_bind]. eauto.
Qed.

(** X4: The message [deserialize] returns has the version 1, the type,
    the sequence number and the checksum of the header, and that
    checksum is the one of the payload bytes.  Its timestamp is the
    one of the header unless that is 0: a timestamp 0 is replaced by
    the clock of the receiver. *)
Theorem deserialize_fields now data m :
  deserialize json_loads now data = Return (Some m) →
  version m = VERSION
  ∧ int_of_MessageType (msg_type m) = Header.type_of data
  ∧ sequence_num m = Header.sequence_of data
  ∧ checksum m = Header.checksum_of data
  ∧ checksum m = Header.md5_prefix (Header.payload_of data)
  ∧ timestamp m
    = (if Header.timestamp_of data =? 0 then now
       else Header.timestamp_of data).
Proof.
  intros (Hup & Ht & Hm & _)%deserialize_Some_inv.
  apply MessageType_of_int_inv in Ht.
  destruct Hup as [_ _ _ Hc _]. rewrite Hm. cbn.
  by rewrite <- Hc.
Qed.

Lemma field_app data junk offset size :
  (offset + size ≤ length data)%nat →
  Header.field (data ++ junk) offset size = Header.field data offset size.
Proof.
  intros Hlen. unfold Header.field. f_equal.
  rewrite drop_app_le by lia.
  rewrite take_app_le by (rewrite length_drop; lia). done.
Qed.

(** X5: Bytes after the payload the header announces are not read: the
    result is the one of the input without them. *)
Theorem deserialize_trailing_bytes now data junk :
  (HEADER_SIZE ≤ length data)%nat →
  24 + Header.payload_length_of data ≤ Z.of_nat (length data) →
  deserialize json_loads now (data ++ junk)
  = deserialize json_loads now data.
Proof.
  unfold HEADER_SIZE. intros Hlen Hpayload.
  assert (0 ≤ Header.payload_length_of data) as Hpos.
  { unfold Header.payload_length_of, Header.field.
    apply StructFacts.from_bytes_be_range. }
  rewrite !deserialize_unfold
    by (unfold HEADER_SIZE; rewrite ?length_app; lia).
  unfold Header.version_of, Header.type_of, Header.sequence_of,
    Header.timestamp_of, Header.checksum_of, Header.payload_of,
    Header.payload_length_of.
  rewrite !field_app by lia.
  fold (Header.payload_length_of data).
  rewrite drop_app_le by lia.
  rewrite take_app_le by (rewrite length_drop; lia).
  rewrite length_app.
  rewrite (proj2 (Z.ltb_ge (Z.of_nat (length data + length junk)) _))
    by lia.
  rewrite (proj2 (Z.ltb_ge (Z.of_nat (length data)) _)) by lia.
  done.
Qed.

End Accepts.

End CodecMore.

(** * Reading frames off a socket *)
Module SocketFacts.
Import Socket.

(** One [recv] of at least one byte: a non-empty prefix of what is
    there, or the end, or the reset. *)
Lemma recv_spec bufsize : ∀ s r s',
  (0 < bufsize)%nat →
  recv bufsize s = (r, s') →
  match r with
  | Return [] => contents s = [] ∧ contents s' = []
  | Return chunk =>
      (length chunk ≤ bufsize)%nat
      ∧ contents s = chunk ++ contents s'
  | Raise e => e = OSError ∧ contents s = [] ∧ contents s' = []
  end.
Proof.
  induction s as [|[chunk|] s IH]; intros r s' Hpos; cbn [recv].
  - intros Heq. injection Heq as <- <-. by split.
  - destruct chunk as [|b chunk]; [by apply IH|].
    intros Heq. injection Heq as <- <-.
    destruct bufsize as [|n]; [lia|]. cbn [take drop].
    split; [cbn [length]; rewrite length_take; lia|].
    cbn [contents]. pose proof (take_drop n chunk) as Hsplit.
    destruct (drop n chunk) as [|b' rest] eqn:Hdrop.
    + rewrite app_nil_r in Hsplit. by rewrite Hsplit.
    + cbn [contents]. rewrite <- Hsplit at 1.
      cbn [app]. by rewrite <- !app_assoc.
  - intros Heq. injection Heq as <- <-. by repeat split.
Qed.

(** The loop of [_recv_exact] from [data], with fuel for the bytes
    that are missing. *)
Lemma recv_loop_spec size : ∀ fuel data s,
  (length data ≤ size)%nat → (size - length data < fuel)%nat →
  ∃ r s',
    recv_loop fuel size data s = Some (r, s')
    ∧ match r with
      | Return (Some got) =>
          got = take size (data ++ contents s)
          ∧ length got = size
          ∧ contents s' = drop (size - length data) (contents s)
      | Return None => (length (data ++ contents s) < size)%nat
      | Raise e =>
          e = OSError ∧ (length (data ++ contents s) < size)%nat
      end.
Proof.
  induction fuel as [|fuel IH]; intros data s Hdata Hfuel; [lia|].
  cbn [recv_loop].
  destruct (length data <? size)%nat eqn:Hlt.
  - apply Nat.ltb_lt in Hlt.
    destruct (recv (size - length data) s) as [r s1] eqn:Hrecv.
    apply recv_spec in Hrecv; [|lia].
    destruct r as [[|b chunk]|e].
    + destruct Hrecv as [Hs _]. eexists _, _. split; [done|].
      rewrite Hs, app_nil_r. done.
    + destruct Hrecv as [Hlen Hs].
      destruct (IH (data ++ b :: chunk) s1) as (r & s' & -> & Hr).
      { rewrite length_app. lia. }
      { rewrite length_app. cbn [length] in *. lia. }
      exists r, s'. split; [done|].
      rewrite Hs. rewrite <- app_assoc in Hr.
      destruct r as [[got|]|e]; try done.
      destruct Hr as (Hgot & Hlength & Hrest).
      split; [done|]. split; [done|].
      rewrite Hrest, length_app.
      rewrite <- (drop_app_add (b :: chunk) (contents s1)).
      f_equal. cbn [length] in *. lia.
    + destruct Hrecv as (-> & Hs & _). eexists _, _. split; [done|].
      rewrite Hs, app_nil_r. done.
  - apply Nat.ltb_ge in Hlt. eexists _, _. split; [done|].
    assert (length data = size) as Hsize by lia.
    rewrite take_app_length' by done.
    rewrite Hsize, Nat.sub_diag. done.
Qed.

Lemma recv_exact_chunks size s :
  ∃ r s',
    _recv_exact size s = Some (r, s')
    ∧ match r with
      | Return (Some got) =>
          got = take size (contents s)
          ∧ length got = size
          ∧ contents s' = drop size (contents s)
      | Return None => (length (contents s) < size)%nat
      | Raise e => e = OSError ∧ (length (contents s) < size)%nat
      end.
Proof.
  destruct (recv_loop_spec size (S size) [] s) as (r & s' & Hrun & Hr);
    [cbn [length]; lia..|].
  exists r, s'. split; [done|].
  cbn [app length] in Hr. by rewrite Nat.sub_0_r in Hr.
Qed.

(** X6: [_recv_exact] puts the chunks together: however the transport cut
    the bytes, when [size] bytes or more arrive it returns the first
    [size] of them and leaves the rest to be read; when fewer arrive
    before the end of the stream or a reset, it returns [None] or
    raises the [OSError] of the reset. *)
Theorem recv_exact_spec size s :
  ∃ r s',
    _recv_exact size s = Some (r, s')
    ∧ if (size <=? length (contents s))%nat
      then r = Return (Some (take size (contents s)))
           ∧ contents s' = drop size (contents s)
      else r = Return None ∨ r = Raise OSError.
Proof.
  destruct (recv_exact_chunks size s) as (r & s' & Hrun & Hr).
  exists r, s'. split; [done|].
  destruct (Nat.leb_spec size (length (contents s))) as [Hle|Hlt].
  - destruct r as [[got|]|e]; [|lia|lia].
    destruct Hr as (-> & _ & Hrest). done.
  - destruct r as [[got|]|e]; [|by left|right; by destruct Hr as [-> _]].
    destruct Hr as (-> & Hlen & _). rewrite length_take in Hlen. lia.
Qed.


(** The bytes [serialize] returns hold a header at least. *)
Lemma serialize_length m data :
  (serialize m).1 = Return data → (24 ≤ length data)%nat.
Proof.
  rewrite CodecMore.serialize_pack. cbn [fst].
  destruct (Struct.pack _ _) as [header|e] eqn:Hpack; [|done].
  apply StructFacts.pack_length in Hpack.
  intros [= <-]. rewrite length_app, Hpack. simpl. lia.
Qed.

(** What [frame_of] puts before the bytes of the message. *)
Lemma frame_of_inv m frame :
  frame_of m = Return frame →
  ∃ data,
    (serialize m).1 = Return data
    ∧ Z.of_nat (length data) < 2 ^ 32
    ∧ frame = Struct.to_bytes_be 4 (Z.of_nat (length data)) ++ data.
Proof.
  unfold frame_of. destruct (serialize m).1 as [data|e]; [|done].
  cbn [mbind result_bind]. unfold Struct.to_bytes4.
  destruct (_ && _) eqn:Hfit; [|done].
  apply andb_true_iff in Hfit as [_ Hlt%Z.ltb_lt].
  cbn [mbind result_bind]. intros [= <-]. eauto.
Qed.

Section Framing.
Variable json_loads : pystr → result pyobj.

(** [_receive_message] on the length prefix and the bytes of one
    message, followed by whatever: the result is what [deserialize]
    makes of the bytes, with an exception turned into [None], and
    what follows is left to be read. *)
Lemma receive_message_data now s data more :
  (0 < length data)%nat → Z.of_nat (length data) < 2 ^ 32 →
  contents s
  = Struct.to_bytes_be 4 (Z.of_nat (length data)) ++ data ++ more →
  ∃ s',
    _receive_message json_loads now s
    = Some (match deserialize json_loads now data with
            | Return message => message
            | Raise _ => None
            end, s')
    ∧ contents s' = more.
Proof.
  intros Hpos Hlt Hs. unfold _receive_message.
  remember (Struct.to_bytes_be 4 (Z.of_nat (length data))) as prefix
    eqn:Hdef.
  assert (length prefix = 4%nat) as Hprefix
    by (rewrite Hdef; apply StructFacts.length_to_bytes_be).
  destruct (recv_exact_chunks 4 s) as (r & s1 & -> & Hr).
  cbn [mbind option_bind].
  destruct r as [[got|]|e];
    [|rewrite Hs, !length_app in Hr; lia
     |rewrite Hs, !length_app in Hr; lia].
  destruct Hr as (Hgot & Hlen & Hs1).
  rewrite Hs in Hgot, Hs1.
  rewrite take_app_length' in Hgot by done.
  rewrite drop_app_length' in Hs1 by done. subst got.
  destruct prefix as [|b0 prefix]; [done|]. rewrite Hdef.
  rewrite StructFacts.from_to_bytes_be by (simpl; lia).
  rewrite Nat2Z.id.
  destruct (recv_exact_chunks (length data) s1) as (r & s2 & -> & Hr).
  cbn [mbind option_bind].
  destruct r as [[got|]|e];
    [|rewrite Hs1, !length_app in Hr; lia
     |rewrite Hs1, !length_app in Hr; lia].
  destruct Hr as (Hgot & Hlen' & Hs2).
  rewrite Hs1 in Hgot, Hs2.
  rewrite take_app_length in Hgot. rewrite drop_app_length in Hs2.
  subst got. destruct data as [|b data]; [simpl in Hpos; lia|].
  exists s2. split; [|done].
  by destruct (deserialize json_loads now (b :: data)).
Qed.

(** X7: The frame the sender writes for a message, read back by
    [_receive_message]: however the transport cut the bytes, the
    result is [deserialize] of the bytes [serialize] returned, and
    the bytes after the frame are left for the next call. *)
Theorem receive_message_frame now s message frame more :
  frame_of message = Return frame →
  contents s = frame ++ more →
  ∃ data s',
    (serialize message).1 = Return data
    ∧ _receive_message json_loads now s
      = Some (match deserialize json_loads now data with
              | Return message => message
              | Raise _ => None
              end, s')
    ∧ contents s' = more.
Proof.
  intros (data & Hdata & Hlt & ->)%frame_of_inv Hs.
  pose proof (serialize_length _ _ Hdata) as Hlen.
  rewrite <- app_assoc in Hs.
  destruct (receive_message_data now s data more) as (s' & Hrun & Hmore);
    [lia|done|done|].
  by exists data, s'.
Qed.

(** X8: A frame of length 0, the end of the stream and a reset all read
    as [None]: as a connection that was closed. *)
Theorem receive_message_nothing now s :
  (length (contents s) < 4)%nat
  ∨ take 4 (contents s) = Struct.to_bytes_be 4 0 →
  ∃ s', _receive_message json_loads now s = Some (None, s').
Proof.
  intros Hs. unfold _receive_message.
  destruct (recv_exact_chunks 4 s) as (r & s1 & -> & Hr).
  cbn [mbind option_bind].
  destruct r as [[[|b0 got]|]|e]; eauto.
  destruct Hr as (Hgot & Hlen & Hs1).
  destruct Hs as [Hshort|Hzero].
  { rewrite Hgot, length_take in Hlen. lia. }
  rewrite Hgot, Hzero.
  change (Z.to_nat (Struct.from_bytes_be (Struct.to_bytes_be 4 0)))
    with 0%nat.
  destruct (recv_exact_chunks 0 s1) as (r & s2 & -> & Hr).
  cbn [mbind option_bind].
  destruct r as [[[|b1 got1]|]|e]; eauto.
  destruct Hr as (_ & Hlen1 & _). done.
Qed.

End Framing.



End SocketFacts.

(** * The sessions of the server *)
Module KeptFacts.
Import Server Sessions Kept ServerFacts.

(** ** What the handlers leave alone *)

Lemma same_session_refl c : same_session c c.
Proof. done. Qed.

Lemma same_session_trans c1 c2 c3 :
  same_session c1 c2 → same_session c2 c3 → same_session c1 c3.
Proof. intros [] []. split; congruence. Qed.

Lemma only_sends_refl self : only_sends self self.
Proof. done. Qed.

Lemma only_sends_trans s1 s2 s3 :
  only_sends s1 s2 → only_sends s2 s3 → only_sends s1 s3.
Proof.
  intros [? ? ? ? ? H12] [? ? ? ? ? H23].
  split; try congruence.
  intros c. eapply same_session_trans; [apply H12|apply H23].
Qed.

Lemma only_sends_update client f self :
  same_session (store self client) (f (store self client)) →
  only_sends self (update client f self).
Proof.
  intros Hf. split; try done. intros c.
  destruct (decide (c = client)) as [->|Hne].
  - by rewrite store_update.
  - by rewrite store_update_ne.
Qed.

Lemma deliver_same frame c : same_session c (deliver frame c).
Proof.
  split; auto using deliver_username, deliver_client_id, deliver_sock_ok,
    deliver_sock_closed.
Qed.

Lemma send_message_only_sends client message self :
  only_sends self (send_message client message self).2.
Proof.
  rewrite send_message_state. apply only_sends_update, deliver_same.
Qed.

Lemma reply_ack_only_sends client message self :
  only_sends self (_reply_ack client message self).
Proof. apply send_message_only_sends. Qed.

Lemma set_sequence_num_only_sends n self :
  only_sends self (set_sequence_num n self).
Proof. done. Qed.

Lemma fan_out_only_sends targets : ∀ message self,
  only_sends self (fan_out message self targets).2.
Proof.
  induction targets as [|t targets IH]; intros message self; [done|].
  unfold fan_out. cbn [foldl].
  destruct (send_message_deliver t message self) as [sent ->].
  fold (fan_out (serialize message).2
          (update t (deliver (frame_of message)) self) targets).
  eapply only_sends_trans; [|apply IH].
  apply only_sends_update, deliver_same.
Qed.

Lemma broadcast_only_sends message exclude self :
  only_sends self (_broadcast_message message exclude self).
Proof. apply fan_out_only_sends. Qed.

Lemma handle_disconnect_only_sends client message self :
  only_sends self (_handle_disconnect client message self).2.
Proof.
  unfold _handle_disconnect. cbn [snd].
  eapply only_sends_trans; [apply reply_ack_only_sends|].
  by apply only_sends_update.
Qed.

Lemma handle_chat_message_only_sends client message self :
  only_sends self (_handle_chat_message client message self).2.
Proof.
  unfold _handle_chat_message. destruct (_ ≫= _); [|done]. cbn [snd].
  eapply only_sends_trans;
    [apply reply_ack_only_sends|apply broadcast_only_sends].
Qed.

Lemma handle_broadcast_only_sends client message self :
  only_sends self (_handle_broadcast client message self).2.
Proof.
  unfold _handle_broadcast. destruct (_ ≫= _); [|done]. cbn [snd].
  eapply only_sends_trans;
    [apply reply_ack_only_sends|apply broadcast_only_sends].
Qed.

Lemma error_only_sends client text self :
  only_sends self
    (let '(seq, self) := get_next_sequence self in
     (send_message client
        (MessageBuilder.error_message (clock self) text seq) self).2).
Proof.
  unfold get_next_sequence.
  eapply only_sends_trans;
    [apply set_sequence_num_only_sends|apply send_message_only_sends].
Qed.

Lemma handle_private_message_only_sends client message self :
  only_sends self (_handle_private_message client message self).2.
Proof.
  unfold _handle_private_message.
  destruct (_ ≫= _) as [recipient|e]; [|done].
  destruct (key_of recipient) as [key|e]; cbn [snd];
    [|apply reply_ack_only_sends].
  eapply only_sends_trans; [apply reply_ack_only_sends|].
  destruct (username_to_client _ !! key) as [recipient_client|].
  - destruct (connected _); cbn [snd].
    + apply send_message_only_sends.
    + apply (error_only_sends client).
  - apply (error_only_sends client).
Qed.

Lemma handle_heartbeat_only_sends client message self :
  only_sends self (_handle_heartbeat client message self).2.
Proof. apply reply_ack_only_sends. Qed.

Lemma handle_ack_only_sends client message self :
  only_sends self (_handle_ack client message self).2.
Proof.
  unfold _handle_ack.
  destruct (get _ _ _) as [ack_for|e]; [|done].
  destruct ack_for; cbn [int_key snd]; try done.
  all: by apply only_sends_update.
Qed.

(** [_handle_connect] either only sends (the NACK), or binds the
    username, which was free, and then only sends. *)
Lemma handle_connect_kept client message self :
  let self' := (_handle_connect client message self).2 in
  only_sends self self'
  ∨ ∃ name key,
      key_of name = Return key
      ∧ username_to_client self !! key = None
      ∧ only_sends
          (set_username_to_client
             (<[key := client]> (username_to_client self))
             (update client (set_username name) self))
          self'.
Proof.
  unfold _handle_connect.
  destruct (get _ _ _) as [name|e]; [|by left].
  unfold _handle_connect_locked.
  destruct (key_of name) as [key|e] eqn:Hkey; [|by left].
  case_bool_decide as Hbound; cbn [snd].
  - left. apply send_message_only_sends.
  - right. exists name, key. split; [done|].
    split; [by apply eq_None_not_Some|].
    unfold get_next_sequence.
    eapply only_sends_trans; [apply reply_ack_only_sends|].
    eapply only_sends_trans; [apply set_sequence_num_only_sends|].
    apply broadcast_only_sends.
Qed.

Lemma process_message_kept client message self :
  let self' := (_process_message client message self).2 in
  only_sends self self'
  ∨ ∃ name key,
      key_of name = Return key
      ∧ username_to_client self !! key = None
      ∧ only_sends
          (set_username_to_client
             (<[key := client]> (username_to_client self))
             (update client (set_username name) self))
          self'.
Proof.
  unfold _process_message. cbv zeta.
  repeat case_bool_decide;
    auto using handle_connect_kept, handle_disconnect_only_sends,
      handle_chat_message_only_sends, handle_broadcast_only_sends,
      handle_private_message_only_sends, handle_heartbeat_only_sends,
      handle_ack_only_sends, only_sends_refl.
Qed.


(** ** The registry stays consistent *)

Lemma only_sends_consistent self self' :
  only_sends self self' → registry_consistent self →
  registry_consistent self'.
Proof.
  intros [Hcl Hreg Hnext _ _ Hsame] [Hkeys Hold Hbound].
  split; intros c; rewrite Hcl; intros Hc.
  - destruct (Hsame c) as [_ -> _ _]. auto.
  - rewrite Hnext. auto.
  - destruct (Hsame c) as [-> _ _ _]. rewrite Hreg. auto.
Qed.

Lemma register_consistent client name key self :
  key_of name = Return key →
  username_to_client self !! key = None →
  registry_consistent self →
  registry_consistent
    (set_username_to_client (<[key := client]> (username_to_client self))
       (update client (set_username name) self)).
Proof.
  intros Hkey Hfree [Hkeys Hold Hbound].
  split; intros c; cbn [clients set_username_to_client update set_store
                        next_client_id username_to_client store].
  - intros Hc. destruct (decide (c = client)) as [->|Hne].
    + rewrite fn_lookup_insert. cbn. auto.
    + rewrite fn_lookup_insert_ne by done. auto.
  - auto.
  - intros Hc. destruct (decide (c = client)) as [->|Hne].
    + rewrite fn_lookup_insert. cbn [username set_username].
      intros _. exists key. by rewrite lookup_insert_eq.
    + rewrite fn_lookup_insert_ne by done. intros Hname.
      destruct (Hbound c Hc Hname) as (key' & Hkey' & Hlookup).
      exists key'. split; [done|].
      rewrite lookup_insert_ne; [done|]. congruence.
Qed.

Lemma process_message_consistent client message self :
  registry_consistent self →
  registry_consistent (_process_message client message self).2.
Proof.
  intros Hcons.
  destruct (process_message_kept client message self)
    as [Hsends|(name & key & Hkey & Hfree & Hsends)].
  - by eapply only_sends_consistent.
  - eapply only_sends_consistent; [exact Hsends|].
    by apply register_consistent.
Qed.

Lemma process_message_clients client message self :
  clients (_process_message client message self).2 = clients self.
Proof.
  destruct (process_message_kept client message self)
    as [[-> _ _ _ _ _]|(name & key & _ & _ & [-> _ _ _ _ _])]; done.
Qed.

Lemma accept_consistent ok self :
  registry_consistent self → registry_consistent (accept ok self).2.
Proof.
  intros [Hkeys Hold Hbound].
  assert (next_client_id self ∉ clients self) as Hfresh.
  { intros Hin%Hold. lia. }
  unfold accept. cbn [snd].
  rewrite bool_decide_eq_false_2 by done.
  split; intros c; cbn [clients store next_client_id username_to_client];
    intros [Hc| ->%list_elem_of_singleton]%elem_of_app.
  - rewrite fn_lookup_insert_ne by (pose proof (Hold c Hc); lia). auto.
  - by rewrite fn_lookup_insert.
  - apply Hold in Hc. lia.
  - lia.
  - rewrite fn_lookup_insert_ne by (pose proof (Hold c Hc); lia). auto.
  - by rewrite fn_lookup_insert.
Qed.

Lemma heartbeat_round_only_sends self :
  only_sends self (heartbeat_round self).
Proof.
  unfold heartbeat_round. generalize (clock self) as now.
  generalize (clients self) as l. intros l. revert self.
  induction l as [|c l IH]; intros self now; [done|]. cbn [foldl].
  eapply only_sends_trans; [|apply IH].
  destruct (_ <? _); [by apply only_sends_update|done].
Qed.

Lemma update_clients client f self :
  clients (update client f self) = clients self.
Proof. done. Qed.

Lemma update_registry client f self :
  username_to_client (update client f self) = username_to_client self.
Proof. done. Qed.

Lemma update_consistent client f self :
  username (f (store self client)) = username (store self client) →
  client_id (f (store self client)) = client_id (store self client) →
  registry_consistent self → registry_consistent (update client f self).
Proof.
  intros Hname Hid [Hkeys Hold Hbound].
  split; intros c Hc; cbn [clients update set_store] in Hc; [|by auto|].
  - destruct (decide (c = client)) as [->|Hne].
    + rewrite store_update, Hid. auto.
    + rewrite store_update_ne by done. auto.
  - destruct (decide (c = client)) as [->|Hne].
    + rewrite store_update, Hname. auto.
    + rewrite store_update_ne by done. auto.
Qed.

Lemma set_clients_consistent l self :
  l ⊆ clients self → registry_consistent self →
  registry_consistent (set_clients l self).
Proof.
  intros Hsub [Hkeys Hold Hbound].
  split; intros c Hc; cbn [clients set_clients] in Hc; apply Hsub in Hc.
  - by apply Hkeys.
  - by apply Hold.
  - by apply Hbound.
Qed.

(** [_disconnect_client] of a session of a consistent server: the
    session leaves the table of clients, the username it has is no
    longer bound, and the server is consistent. *)
Lemma disconnect_client_spec client self :
  registry_consistent self → client ∈ clients self →
  ∃ self',
    _disconnect_client client self = (Return (), self')
    ∧ clients self'
      = List.filter (λ c, negb (bool_decide (c = client))) (clients self)
    ∧ username_to_client self'
      = (if truthy (username (store self client))
         then match key_of (username (store self client)) with
              | Return key => delete key (username_to_client self)
              | Raise _ => username_to_client self
              end
         else username_to_client self)
    ∧ (∀ c, username (store self' c) = username (store self c))
    ∧ connected (store self' client) = false
    ∧ sock_closed (store self' client) = true
    ∧ registry_consistent self'.
Proof.
  intros Hcons Hin. destruct Hcons as [Hkeys Hold Hbound].
  unfold _disconnect_client. rewrite (Hkeys client Hin).
  cbn [store set_clients].
  set (name := username (store self client)).
  set (self1 := set_clients _ self).
  assert (registry_consistent self1) as Hcons1.
  { apply set_clients_consistent; [|done].
    intros c [Hc _]%list_elem_of_In%filter_In. by apply list_elem_of_In. }
  assert (∀ c, c ∈ clients self1 → c ≠ client ∧ c ∈ clients self) as Hin1.
  { intros c [Hc Hne]%list_elem_of_In%filter_In.
    split; [|by apply list_elem_of_In].
    intros ->. by rewrite bool_decide_eq_true_2 in Hne. }
  destruct (truthy name) eqn:Htruthy.
  - destruct (Hbound client Hin) as (key & Hkey & Hlookup).
    { fold name. by destruct name. }
    fold name in Hkey. rewrite Hkey. cbn [mbind result_bind].
    unfold get_next_sequence.
    set (self2 := set_username_to_client _ self1).
    assert (registry_consistent self2) as Hcons2.
    { destruct Hcons1 as [Hkeys1 Hold1 Hbound1].
      split; [done|done|]. intros c Hc Hname.
      destruct (Hbound1 c Hc Hname) as (key' & Hkey' & Hlookup').
      exists key'. split; [done|].
      cbn [username_to_client self2 set_username_to_client].
      rewrite lookup_delete_ne; [done|].
      intros ->. cbn in Hlookup'. rewrite Hlookup in Hlookup'.
      injection Hlookup' as ->. by destruct (Hin1 c Hc). }
    match goal with
    | |- context [_broadcast_message ?m None ?s] =>
        pose proof (broadcast_only_sends m None s) as Hsends
    end.
    eexists. split; [reflexivity|].
    destruct Hsends as [Hcl Hreg Hnext Hrun Hclock Hsame].
    split; [by rewrite update_clients, Hcl|].
    split; [by rewrite update_registry, Hreg|].
    split.
    { intros c. destruct (decide (c = client)) as [->|Hne].
      - rewrite store_update. cbn [username close].
        by destruct (Hsame client) as [-> _ _ _].
      - rewrite store_update_ne by done.
        by destruct (Hsame c) as [-> _ _ _]. }
    rewrite store_update. split; [done|]. split; [done|].
    apply update_consistent; [done|done|].
    eapply only_sends_consistent; [|exact Hcons2].
    eapply only_sends_trans;
      [apply (set_sequence_num_only_sends (sequence_num self2 + 1))|].
    apply broadcast_only_sends.
  - eexists. split; [reflexivity|].
    split; [done|]. split; [done|].
    split.
    { intros c. destruct (decide (c = client)) as [->|Hne].
      - by rewrite store_update.
      - by rewrite store_update_ne. }
    rewrite store_update. split; [done|]. split; [done|].
    by apply update_consistent.
Qed.


Lemma start_consistent self : clients self = [] → registry_consistent self.
Proof.
  intros Hcl.
  split; intros c Hc; rewrite Hcl in Hc; by apply elem_of_nil in Hc.
Qed.

Lemma reachable_consistent self : reachable self → registry_consistent self.
Proof.
  induction 1 as [self Hcl Hreg|ok self _ IH|client message now self _ IH Hin
                 |client self _ IH Hin|self _ IH|t self _ IH].
  - by apply start_consistent.
  - by apply accept_consistent.
  - apply process_message_consistent. by apply update_consistent.
  - by destruct (disconnect_client_spec client self IH Hin)
      as (self' & -> & _ & _ & _ & _ & _ & Hcons).
  - eapply only_sends_consistent; [apply heartbeat_round_only_sends|done].
  - by destruct IH.
Qed.

(** X9: Username exclusivity: in every state the server reaches between
    [start] and [stop], a session
    in the table of clients whose username is set is the session the
    registry binds that username to, so that no two sessions in the
    table have the same username. *)
Theorem usernames_exclusive self :
  reachable self →
  (∀ c, c ∈ clients self → username (store self c) ≠ PyNone →
     ∃ key, key_of (username (store self c)) = Return key
            ∧ username_to_client self !! key = Some c)
  ∧ (∀ c c', c ∈ clients self → c' ∈ clients self →
       username (store self c) ≠ PyNone →
       username (store self c) = username (store self c') → c = c').
Proof.
  intros [_ _ Hbound]%reachable_consistent. split; [done|].
  intros c c' Hc Hc' Hname Heq.
  destruct (Hbound c Hc Hname) as (key & Hkey & Hlookup).
  destruct (Hbound c' Hc') as (key' & Hkey' & Hlookup'); [congruence|].
  congruence.
Qed.

(** ** A name that is never released *)



(** ** The thread of a session *)
Section HandleClient.
Import Socket SocketFacts.
Variable json_loads : pystr → result pyobj.



(** X12: A frame that does not decode ends the session: when
    [deserialize] returns [None] for the bytes of a frame, or raises,
    the loop of [_handle_client] stops there, nothing that follows on
    the connection is read, and the session is disconnected. *)
Theorem undecodable_frame_disconnects fuel client inbound self data more :
  connected (store self client) = true → running self = true →
  (0 < length data)%nat → Z.of_nat (length data) < 2 ^ 32 →
  contents inbound
  = Struct.to_bytes_be 4 (Z.of_nat (length data)) ++ data ++ more →
  (∀ message,
     deserialize json_loads (clock self) data ≠ Return (Some message)) →
  _handle_client json_loads (S fuel) client inbound self
  = Some (_disconnect_client client self).
Proof.
  intros Hconn Hrun Hpos Hlt Hin Hbad.
  unfold _handle_client. cbn [handle_loop].
  rewrite Hconn, Hrun. cbn [andb].
  destruct (receive_message_data json_loads (clock self) inbound data
              more Hpos Hlt Hin) as (inbound' & -> & _).
  cbn [mbind option_bind].
  destruct (deserialize json_loads (clock self) data)
    as [[message|]|e] eqn:Hdec; [by destruct (Hbad message)|done..].
Qed.

End HandleClient.

End KeptFacts.

(** * Routing *)
Module RoutingFacts.
Import Server Sessions Kept ServerFacts KeptFacts.



(** ** Private messages *)




(** ** A fan-out over sockets that fail *)


(** ** The heartbeat round *)



(** ** A DISCONNECT *)
Section Disconnect.
Import Socket SocketFacts.
Variable json_loads : pystr → result pyobj.

(** X17: A DISCONNECT message is answered with its ACK and ends the
    session: [_handle_client] reads nothing that follows it on the
    connection and goes on to [_disconnect_client]. *)
Theorem disconnect_message_ends_session
    fuel client inbound self data message more :
  connected (store self client) = true → running self = true →
  (0 < length data)%nat → Z.of_nat (length data) < 2 ^ 32 →
  contents inbound
  = Struct.to_bytes_be 4 (Z.of_nat (length data)) ++ data ++ more →
  deserialize json_loads (clock self) data = Return (Some message) →
  Protocol.msg_type message = DISCONNECT →
  _handle_client json_loads (S (S fuel)) client inbound self
  = Some (_disconnect_client client
            (update client (set_connected false)
               (_reply_ack client message
                  (update client (set_last_heartbeat (clock self))
                     self)))).
Proof.
  intros Hconn Hrun Hpos Hlt Hin Hdec Htype.
  unfold _handle_client. cbn [handle_loop].
  rewrite Hconn, Hrun. cbn [andb].
  destruct (receive_message_data json_loads (clock self) inbound data
              more Hpos Hlt Hin) as (inbound' & -> & _).
  rewrite Hdec. cbn [mbind option_bind].
  unfold _process_message. cbv zeta. rewrite Htype.
  rewrite bool_decide_eq_false_2 by done.
  rewrite bool_decide_eq_true_2 by done.
  unfold _handle_disconnect. rewrite store_update. by cbn.
Qed.

End Disconnect.

End RoutingFacts.

(** * More of the client *)
Module ClientMore.
Import Client ClientApi ClientFacts FrameFacts.

Ltac no_member H :=
  exfalso;
  repeat (apply elem_of_cons in H as [H|H]; [discriminate H|]);
  by apply elem_of_nil in H.

(** ** The receive path *)

Lemma create_ack_resolves now m :
  resolves (Protocol.sequence_num m) (create_ack now m).
Proof.
  eexists. split; [reflexivity|]. left. split; [|done].
  unfold create_ack. cbn [Protocol.msg_type new_message].
  destruct (Protocol.msg_type m); cbn; repeat constructor.
Qed.







(** ** The sequence counter is the caller's *)

Lemma send_message_sequence_num who m self :
  sequence_num (_send_message who m self).2 = sequence_num self.
Proof.
  destruct (send_message_spec who m self)
    as (sent & self' & -> & [(_ & _ & ? & _ & ->)|(_ & -> & _)]); done.
Qed.

Lemma handle_received_message_sequence_num m self :
  sequence_num (_handle_received_message m self).2 = sequence_num self.
Proof.
  assert (∀ m self, sequence_num (_reply_ack m self).2 = sequence_num self)
    as Hreply.
  { intros m' self'. unfold _reply_ack.
    pose proof (send_message_sequence_num Receiver
                  (create_ack (clock self') m') self') as H.
    by destruct (_send_message _ _ _) as [[? ?] ?]. }
  unfold _handle_received_message.
  repeat case_bool_decide; try done.
  - unfold _handle_ack.
    destruct (get _ _ _) as [[ | | | | | ]|]; try done;
      by destruct (int_key _) as [[]|].
  - unfold _handle_nack. by destruct (_ ≫= _) as [[]|].
  - by destruct (_display _ _).
  - by destruct (_display _ _).
  - by destruct (_display _ _).
Qed.

Lemma receive_loop_sequence_num inbox : ∀ self,
  sequence_num (_receive_loop inbox self) = sequence_num self.
Proof.
  induction inbox as [|[m|] inbox IH]; intros self; simpl; [done|..];
    destruct (running self); try done.
  pose proof (handle_received_message_sequence_num m self) as Hstep.
  destruct (_handle_received_message m self) as [[[]|e] self']; simpl in *.
  - by rewrite IH.
  - done.
Qed.

Lemma pass_sequence_num least iv self :
  sequence_num (pass least iv self) = sequence_num self.
Proof.
  unfold pass. rewrite receive_loop_sequence_num. by destruct (hangup iv).
Qed.

Lemma wait_for_ack_sequence_num sleeps seq_num start_time :
  ∀ fuel i self b self',
    wait_for_ack fuel sleeps i seq_num start_time self = Some (b, self') →
    sequence_num self' = sequence_num self.
Proof.
  induction fuel as [|fuel IH]; intros i self b self'; [done|].
  cbn [wait_for_ack]. destruct (_ <? _); [|by intros [= _ <-]].
  case_bool_decide; [by intros [= _ <-]|].
  intros Hwait%IH. by rewrite Hwait, pass_sequence_num.
Qed.

Lemma send_loop_sequence_num env : ∀ fuel message retries self b self',
  send_loop fuel env message retries self = Some (b, self') →
  sequence_num self' = sequence_num self.
Proof.
  induction fuel as [|fuel IH]; intros message retries self b self'; [done|].
  cbn [send_loop].
  destruct (retries <=? MAX_RETRIES)%nat;
    [|intros [= _ <-]; cbn; apply pass_sequence_num].
  pose proof (send_message_sequence_num Caller message
                (pass 0 (before_send (env retries)) self)) as Hsend.
  destruct (_send_message Caller message _) as [[sent message'] self1].
  cbn [snd] in Hsend. rewrite pass_sequence_num in Hsend.
  destruct sent; cbn [negb]; [|by intros [= _ <-]].
  destruct (wait_for_ack _ _ _ _ _ _) as [[[] self2]|] eqn:Hwait;
    [| |done].
  - intros [= _ <-].
    apply wait_for_ack_sequence_num in Hwait. rewrite Hwait. cbn.
    by rewrite pass_sequence_num.
  - intros Hloop%IH. rewrite Hloop.
    apply wait_for_ack_sequence_num in Hwait. rewrite Hwait. cbn.
    by rewrite pass_sequence_num.
Qed.

(** A reliable send of a message that takes the next sequence
    number. *)
Lemma reliable_operation env message self :
  Protocol.sequence_num message = sequence_num self →
  ∃ b self' evs,
    _send_reliable env message
      (set_sequence_num (sequence_num self + 1) self)
    = Some (b, self')
    ∧ sequence_num self' = sequence_num self + 1
    ∧ caller_events (log self') = caller_events (log self) ++ evs
    ∧ (length evs ≤ 2 * S MAX_RETRIES)%nat
    ∧ match frame_of message with
      | Return frame => attempts (sequence_num self) frame 0 (clock self) evs
      | Raise _ => evs = []
      end.
Proof.
  intros Hseq. unfold _send_reliable.
  destruct (send_loop_trace env (MAX_RETRIES + 2) message 0
              (set_sequence_num (sequence_num self + 1) self))
    as (b & self' & evs & Hloop & Hevs & Hlen & Hatt);
    [unfold MAX_RETRIES; lia..|].
  exists b, self', evs. split; [done|].
  split; [by rewrite (send_loop_sequence_num _ _ _ _ _ _ _ Hloop)|].
  split; [done|]. split; [lia|]. by rewrite Hseq in Hatt.
Qed.

(** X20: The three send operations of the client: without a connection
    they fail at once and change nothing; with one, the message takes
    the value of the sequence counter, the counter goes up by one
    whatever the number of transmissions, and all the transmissions
    are the frame of that message. *)
Theorem send_operations_sequence env recipient text self :
  let ran (run : option (bool * ReliableClient)) (type : MessageType) :=
    ∃ b self' evs message,
      run = Some (b, self')
      ∧ Protocol.msg_type message = type
      ∧ Protocol.sequence_num message = sequence_num self
      ∧ sequence_num self' = sequence_num self + 1
      ∧ caller_events (log self') = caller_events (log self) ++ evs
      ∧ (length (frames evs) ≤ S MAX_RETRIES)%nat
      ∧ match frame_of message with
        | Return frame =>
            attempts (sequence_num self) frame 0 (clock self) evs
        | Raise _ => evs = []
        end in
  (connected self = false →
   send_chat_message env text self = Some (false, self)
   ∧ send_broadcast env text self = Some (false, self)
   ∧ send_private_message env recipient text self = Some (false, self))
  ∧ (connected self = true →
     ran (send_chat_message env text self) CHAT_MSG
     ∧ ran (send_broadcast env text self) BROADCAST
     ∧ ran (send_private_message env recipient text self) PRIVATE_MSG).
Proof.
  intros ran. split.
  - intros Hconn.
    unfold send_chat_message, send_broadcast, send_private_message.
    by rewrite Hconn.
  - intros Hconn.
    assert (∀ message type,
              Protocol.msg_type message = type →
              Protocol.sequence_num message = sequence_num self →
              ran (_send_reliable env message
                     (set_sequence_num (sequence_num self + 1) self)) type)
      as Hran.
    { intros message type Htype Hseq.
      destruct (reliable_operation env message self Hseq)
        as (b & self' & evs & Hrun & Hnext & Hevs & Hlen & Hatt).
      exists b, self', evs, message. repeat split; try done.
      destruct (frame_of message) as [frame|e];
        [|subst evs; cbn; unfold MAX_RETRIES; lia].
      destruct (attempts_alternate _ _ _ _ _ Hatt) as (n & Hn & ->).
      rewrite length_replicate. lia. }
    unfold send_chat_message, send_broadcast, send_private_message.
    rewrite Hconn. cbn [negb]. unfold get_next_sequence.
    cbn [username clock set_sequence_num].
    repeat split; apply Hran; by destruct (username self).
Qed.

(** ** [disconnect] *)

(** X21: [disconnect] puts at most one frame on the socket and stores no
    entry to wait for; afterwards the client is neither connected nor
    running and its socket is closed, and a second [disconnect] changes
    nothing. *)
Theorem disconnect_idempotent self :
  disconnect (disconnect self) = disconnect self
  ∧ connected (disconnect self) = false
  ∧ running (disconnect self) = false
  ∧ socket_open (disconnect self) = false
  ∧ pending_acks (disconnect self) = pending_acks self
  ∧ (∃ sent, log (disconnect self) = log self ++ sent
             ∧ (length sent ≤ 1)%nat).
Proof.
  split; [done|]. split; [done|]. split; [done|]. split; [done|].
  unfold disconnect. cbn [pending_acks log set_socket_open set_running
                          set_connected].
  destruct (connected self);
    [|split; [done|exists []; split; [by rewrite app_nil_r|cbn; lia]]].
  unfold get_next_sequence.
  match goal with
  | |- context [_send_message Caller ?m ?s] =>
      destruct (send_message_spec Caller m s)
        as (sent & self' & -> &
            [(_ & _ & frame & _ & ->)|(_ & -> & _)])
  end; cbn.
  - split; [done|]. eexists [_]. split; [done|cbn; lia].
  - split; [done|]. exists []. split; [by rewrite app_nil_r|cbn; lia].
Qed.


(** ** A send that fails *)

Lemma pass_socket_closed least iv self :
  socket_open self = false → socket_open (pass least iv self) = false.
Proof.
  intros Hclosed. unfold pass.
  rewrite (step_socket _ _ (receive_loop_step _ _)).
  by destruct (hangup iv).
Qed.

Lemma frame_of_header_fits message frame :
  frame_of message = Return frame → header_fits message.
Proof.
  intros (data & Hdata & _)%SocketFacts.frame_of_inv.
  by apply (CodecMore.serialize_Return_fits message data).
Qed.

(** X22: A message that cannot be serialized (a sequence number that does
    not fit 32 bits, say) and a socket that is closed: [_send_reliable]
    returns [False] at once, with nothing transmitted and no retry,
    and the client is marked as not connected. *)
Theorem send_reliable_send_failure env message self :
  ¬ header_fits message ∨ socket_open self = false →
  ∃ self',
    _send_reliable env message self = Some (false, self')
    ∧ caller_events (log self') = caller_events (log self)
    ∧ connected self' = false.
Proof.
  intros Hfail. unfold _send_reliable.
  change (MAX_RETRIES + 2)%nat with 5%nat. cbn [send_loop].
  change (0 <=? MAX_RETRIES)%nat with true. cbv iota.
  set (self1 := pass 0 (before_send (env 0%nat)) self).
  destruct (send_message_spec Caller message self1)
    as (sent & self2 & -> &
        [(-> & Hopen & frame & Hframe & ->)|(-> & -> & _)]).
  - exfalso. destruct Hfail as [Hfits|Hclosed].
    + by apply Hfits, (frame_of_header_fits message frame).
    + unfold self1 in Hopen.
      rewrite pass_socket_closed in Hopen by done. done.
  - cbn [negb]. eexists. split; [reflexivity|].
    cbn [log connected set_connected]. split; [|done].
    apply pass_events.
Qed.

(** ** An acknowledgment that comes too early *)

Lemma early_attempt env fuel message retries self frame :
  early (Protocol.sequence_num message) (env retries) →
  (retries ≤ MAX_RETRIES)%nat →
  socket_open self = true → running self = true →
  frame_of message = Return frame →
  ∃ self' t1 t2,
    send_loop (S fuel) env message retries self
    = send_loop fuel env (serialize message).2 (S retries) self'
    ∧ socket_open self' = true ∧ running self' = true
    ∧ log self'
      = log self ++ [Sent Caller t1 frame;
                     Registered (Protocol.sequence_num message) retries t2].
Proof.
  intros (Hbefore & (m & Hinbox & Hup & Hresolves) & Hsleeps) Hr Hopen Hrun
    Hframe.
  cbn [send_loop]. rewrite (proj2 (Nat.leb_le _ _)) by done.
  rewrite pass_silent by done.
  set (self1 := set_clock _ self).
  destruct (send_message_spec Caller message self1)
    as (sent & self2 & -> &
        [(-> & _ & frame' & Hframe' & ->)|(_ & _ & [Hclosed|[e He]])]);
    [|change (socket_open self1) with (socket_open self) in Hclosed;
      congruence|by rewrite Hframe in He].
  assert (frame' = frame) as -> by congruence.
  cbn [negb].
  set (self2 := set_log _ self1).
  assert (pass 0 (after_send (env retries)) self2
          = set_pending_acks
              (delete (Protocol.sequence_num message) (pending_acks self2))
              (set_clock
                 (clock self2 + Z.max 0 (elapsed (after_send (env retries))))
                 self2)) as ->.
  { unfold pass. rewrite Hinbox, Hup. cbn [_receive_loop].
    change (running (set_clock _ self2)) with (running self).
    rewrite Hrun.
    by rewrite (handle_resolves (Protocol.sequence_num message)). }
  set (self4 := set_log _ (set_pending_acks _ _)).
  destruct (wait_for_ack_silent (sleeps (env retries))
              (Protocol.sequence_num message) (clock self4) Hsleeps
              POLLS 0 self4) as (t & Hwait & _);
    [unfold POLLS; lia|unfold POLLS, ACK_TIMEOUT; lia| |].
  { unfold self4. cbn [pending_acks set_log set_pending_acks].
    rewrite lookup_insert_eq. by eexists. }
  change (clock (set_pending_acks _ (set_clock _ self2)))
    with (clock self4).
  rewrite Hwait.
  eexists _, _, _. split; [reflexivity|]. simpl.
  split; [done|]. split; [done|]. by rewrite <- app_assoc.
Qed.

Lemma send_loop_early env frame seq_num : ∀ n retries fuel message self,
  (retries + n = S MAX_RETRIES)%nat →
  (∀ i, (retries ≤ i ≤ MAX_RETRIES)%nat → early seq_num (env i)) →
  (n + 1 ≤ fuel)%nat →
  socket_open self = true → running self = true →
  frame_of message = Return frame →
  Protocol.sequence_num message = seq_num →
  ∃ self',
    send_loop fuel env message retries self = Some (false, self')
    ∧ frames (caller_events (log self'))
      = frames (caller_events (log self)) ++ replicate n frame
    ∧ pending_acks self' !! seq_num = None.
Proof.
  induction n as [|n IH];
    intros retries fuel message self Hr Hearly Hfuel Hopen Hrun Hframe Hseq;
    (destruct fuel as [|fuel]; [lia|]).
  - cbn [send_loop]. rewrite (proj2 (Nat.leb_gt _ _)) by lia.
    eexists. split; [reflexivity|]. cbn [log pending_acks set_pending_acks].
    rewrite pass_events, app_nil_r. subst seq_num.
    split; [done|apply lookup_delete_eq].
  - destruct (early_attempt env fuel message retries self frame)
      as (self1 & t1 & t2 & -> & Hopen1 & Hrun1 & Hlog1); try done;
      [subst seq_num; apply Hearly; lia|lia|].
    destruct (IH (S retries) fuel (serialize message).2 self1)
      as (self' & -> & Hframes & Hnone);
      [lia|intros i Hi; apply Hearly; lia|lia|done|done
      |by rewrite frame_of_serialized
      |by rewrite sequence_num_serialized|].
    exists self'. split; [done|]. split; [|done].
    rewrite Hframes, Hlog1, frames_caller_events_attempt, <- app_assoc.
    done.
Qed.

(** X23: An acknowledgment that the receive thread handles after the
    transmission and before the caller has stored the entry finds no
    entry to remove and is lost: when this happens to each of the four
    transmissions, [_send_reliable] returns [False] although every
    transmission was acknowledged. *)
Theorem early_acknowledgment_is_lost env message self frame :
  socket_open self = true → running self = true →
  frame_of message = Return frame →
  (∀ i, (i ≤ MAX_RETRIES)%nat →
        early (Protocol.sequence_num message) (env i)) →
  ∃ self',
    _send_reliable env message self = Some (false, self')
    ∧ frames (caller_events (log self'))
      = frames (caller_events (log self))
        ++ replicate (S MAX_RETRIES) frame
    ∧ pending_acks self' !! Protocol.sequence_num message = None.
Proof.
  intros Hopen Hrun Hframe Hearly. unfold _send_reliable.
  apply (send_loop_early env frame (Protocol.sequence_num message)
           (S MAX_RETRIES) 0); try done;
    try (intros i Hi; apply Hearly; lia); unfold MAX_RETRIES; lia.
Qed.


(** ** [connect] *)









End ClientMore.

(** * The further lemmas at work *)

(** ** The codec *)
Module CodecRuns.
Import CodecMore.

(** The chat message of "Alice" with the sequence number 42: the
    header starts with the version 1 and the type 4, and the sequence
    number follows. *)
Lemma alice_header :
  ∃ data,
    (serialize (MessageBuilder.chat_message 1 (u "Alice")
                  (u "Hello, World!") 42)).1 = Return data
    ∧ take 6 data
      = [Byte.x01; Byte.x04; Byte.x00; Byte.x00; Byte.x00; Byte.x2a]
    ∧ Header.version_of data = 1
    ∧ Header.type_of data = 4
    ∧ Header.sequence_of data = 42.
Proof.
  destruct (serialize_layout
              (MessageBuilder.chat_message 1 (u "Alice")
                 (u "Hello, World!") 42))
    as (data & Hdata & _ & _ & Hv & Ht & Hs & _).
  { repeat split; vm_compute; congruence. }
  exists data. split; [exact Hdata|].
  split; [|rewrite Hv, Ht, Hs; repeat split; reflexivity].
  vm_compute in Hdata. injection Hdata as <-. reflexivity.
Defined.

Lemma forged_chat_decodes :
  ∃ m, deserialize Json.loads 777 (Forged.of_type 4) = Return (Some m).
Proof. vm_compute. eexists. reflexivity. Qed.

(** A header with the timestamp 0 decodes to a message with the time
    of the receiver. *)
Lemma zero_timestamp_replaced :
  ∃ m,
    deserialize Json.loads 777 (Forged.of_type 4) = Return (Some m)
    ∧ msg_type m = CHAT_MSG
    ∧ timestamp m = 777.
Proof.
  destruct forged_chat_decodes as [m Hm]. exists m. split; [exact Hm|].
  destruct (deserialize_fields Json.loads 777 (Forged.of_type 4) m Hm)
    as (_ & Htype & _ & _ & _ & Hts).
  split.
  - replace (Header.type_of (Forged.of_type 4)) with 4 in Htype
      by (vm_compute; reflexivity).
    revert Htype. destruct (msg_type m); intros Htype;
      try (cbn in Htype; discriminate Htype). reflexivity.
  - rewrite Hts. vm_compute. reflexivity.
Defined.

(** A byte after the payload changes nothing. *)
Lemma one_byte_more :
  deserialize Json.loads 0 (Forged.of_type 4 ++ [Byte.xff])
  = deserialize Json.loads 0 (Forged.of_type 4).
Proof.
  apply deserialize_trailing_bytes.
  - vm_compute. lia.
  - vm_compute. discriminate.
Defined.

End CodecRuns.

(** ** The socket *)
Module SocketRuns.
Import Socket SocketFacts Client.Example.

(** The frame of the CONNECT arrives in two chunks, with a byte of the
    next frame behind it. *)
Lemma connect_frame_in_two_chunks :
  ∃ data s',
    (serialize connect_msg).1 = Return data
    ∧ _receive_message Json.loads 0
        [Data (take 3 connect_frame);
         Data (drop 3 connect_frame ++ [Byte.x00])]
      = Some (match deserialize Json.loads 0 data with
              | Return message => message
              | Raise _ => None
              end, s')
    ∧ contents s' = [Byte.x00].
Proof.
  apply (receive_message_frame Json.loads 0 _ connect_msg connect_frame).
  - vm_compute. reflexivity.
  - vm_compute. reflexivity.
Defined.

(** Nothing arrives before the peer shuts down. *)
Lemma nothing_arrives :
  ∃ s', _receive_message Json.loads 0 [] = Some (None, s').
Proof.
  apply receive_message_nothing. left. cbn. lia.
Defined.

End SocketRuns.

(** ** The sessions *)
Module SessionRuns.
Import Server Server.Example Sessions Kept KeptFacts RoutingFacts Runs.

Lemma one_session_reachable : reachable one_session.
Proof. apply reachable_accept. by apply reachable_start. Qed.


Lemma one_session_client : (1%nat ∈ clients one_session).
Proof. vm_compute. left. Qed.

Lemma bob_session_reachable : reachable bob_session.
Proof.
  apply reachable_message;
    [apply one_session_reachable|apply one_session_client].
Qed.


Lemma bob_session_client : (1%nat ∈ clients bob_session).
Proof.
  unfold bob_session. rewrite process_message_clients.
  apply one_session_client.
Qed.

(** The session that registered as "bob" is the one the registry
    binds the name to. *)
Lemma bob_bound_to_his_session :
  ∃ key,
    key_of (username (store bob_session 1)) = Return key
    ∧ username_to_client bob_session !! key = Some 1%nat.
Proof.
  destruct (usernames_exclusive bob_session bob_session_reachable)
    as [Hbound _].
  apply Hbound; [apply bob_session_client|].
  replace (username (store bob_session 1)) with (PyStr (u "bob"))
    by (vm_compute; reflexivity).
  discriminate.
Defined.



Lemma one_session_connected : connected (store one_session 1) = true.
Proof. vm_compute. reflexivity. Qed.

Lemma forged_14_raises message :
  deserialize Json.loads (clock one_session) (Forged.of_type 14)
  ≠ Return (Some message).
Proof.
  replace (deserialize Json.loads (clock one_session) (Forged.of_type 14))
    with (@Raise (option ProtocolMessage) ValueError)
    by (vm_compute; reflexivity).
  discriminate.
Qed.

(** A frame with the type byte 14 ends the session; the CONNECT that
    follows it is not read. *)
Lemma unknown_type_disconnects :
  _handle_client Json.loads 1 1
    [Socket.Data
       (Struct.to_bytes_be 4 26 ++ Forged.of_type 14
        ++ Client.Example.connect_frame)]
    one_session
  = Some (_disconnect_client 1 one_session).
Proof.
  apply (undecodable_frame_disconnects Json.loads 0 1 _ one_session
           (Forged.of_type 14) Client.Example.connect_frame).
  - exact one_session_connected.
  - reflexivity.
  - vm_compute. lia.
  - vm_compute. reflexivity.
  - vm_compute. reflexivity.
  - exact forged_14_raises.
Defined.

End SessionRuns.

(** ** Routing *)
Module RoutingRuns.
Import Server Server.Example Sessions Kept KeptFacts RoutingFacts Runs.





Lemma bob_session_connected : connected (store bob_session 1) = true.
Proof. vm_compute. reflexivity. Qed.

Lemma bye_decodes :
  deserialize Json.loads (clock bob_session) bye_data = Return (Some bye).
Proof. vm_compute. reflexivity. Qed.

(** "bob" says DISCONNECT and goes on to send a CONNECT on the same
    connection: the CONNECT is not read. *)
Lemma bye_then_more :
  _handle_client Json.loads 2 1
    [Socket.Data
       (Struct.to_bytes_be 4 (Z.of_nat (length bye_data)) ++ bye_data
        ++ Client.Example.connect_frame)]
    bob_session
  = Some (_disconnect_client 1
            (update 1 (set_connected false)
               (_reply_ack 1 bye
                  (update 1 (set_last_heartbeat (clock bob_session))
                     bob_session)))).
Proof.
  apply (disconnect_message_ends_session Json.loads 0 1 _ bob_session
           bye_data bye Client.Example.connect_frame).
  - exact bob_session_connected.
  - reflexivity.
  - vm_compute. lia.
  - vm_compute. reflexivity.
  - vm_compute. reflexivity.
  - exact bye_decodes.
  - vm_compute. reflexivity.
Defined.

End RoutingRuns.

(** ** The client *)
Module ClientMoreRuns.
Import Client Client.Example ClientApi ClientMore Runs.

(** The socket of the client is closed: the CONNECT is not sent. *)
Lemma connect_on_closed_socket :
  ∃ self',
    _send_reliable env_lost connect_msg (set_socket_open false client0)
    = Some (false, self')
    ∧ caller_events (log self') = []
    ∧ connected self' = false.
Proof.
  apply (send_reliable_send_failure env_lost connect_msg
           (set_socket_open false client0)).
  right. reflexivity.
Defined.

Lemma env_early_early i :
  early (Protocol.sequence_num connect_msg) (env_early i).
Proof.
  split; [done|]. split; [|done].
  eexists. split; [reflexivity|]. split; [reflexivity|].
  apply create_ack_resolves.
Qed.

(** Every CONNECT is acknowledged too early: four transmissions, and
    the result [False]. *)
Lemma connect_acknowledged_too_early :
  ∃ self',
    _send_reliable env_early connect_msg client0 = Some (false, self')
    ∧ frames (caller_events (log self'))
      = frames (caller_events (log client0))
        ++ replicate (S MAX_RETRIES) connect_frame
    ∧ pending_acks self' !! Protocol.sequence_num connect_msg = None.
Proof.
  apply (early_acknowledgment_is_lost env_early connect_msg client0
           connect_frame eq_refl eq_refl
           ClientRuns.connect_frame_built).
  intros i _. apply env_early_early.
Defined.



(** A connected client sends one chat message: the counter goes from
    1 to 2. *)
Lemma chat_takes_one_number :
  ∃ b self',
    send_chat_message env_lost (u "hi") (set_connected true client0)
    = Some (b, self')
    ∧ sequence_num self' = 2.
Proof.
  pose proof (send_operations_sequence env_lost (u "zoe") (u "hi")
                (set_connected true client0)) as H.
  cbv zeta in H. destruct H as [_ Hran].
  destruct (Hran eq_refl)
    as [(b & self' & evs & message & Hrun & _ & _ & Hseq & _) _].
  exists b, self'. split; [exact Hrun|exact Hseq].
Defined.




End ClientMoreRuns.
